(** * Survivor's Echo: a shallow embedding of the simulation core of [main.py]

    The development follows the structure of the Python source: one module per
    class ([Tile], [World], [Item], [Inventory], [Player], [Entity], [Game]),
    each holding the record of the class's fields and its methods.

    Conventions.
    - Python [int] is [Z]; Python [str] is [string]; [Optional[str]] is
      [option string]; [dict] keyed by item id is [gmap string _].
    - Python [float] is modelled by the real numbers [R]: every operation
      is kept as written and in the order of the source, and its rounding is
      abstracted away.  The statements below are therefore about the code's
      own sequence of operations, about comparisons and about bounds; a sum
      accumulated over many ticks, or a value that went through [cos], [sin],
      [atan2] or a quotient, can differ from the binary64 result in its last
      digits.  NaN and the infinities, which only a hand-made save file can
      bring in, are outside the model.
    - An exception is a value of [exn]; a method that can raise returns
      [result _].  A method that mutates [self] returns the new object.
    - [random.random()] reads the next draw of an explicit stream [rng].
    - [pygame.key.get_pressed()] is the record [Keys] handed to the tick, and
      [pygame.event.get()] the list of [event]s handed to [handle_events].
    - What [pygame.draw] is asked to draw is collected as a list of [shape]s;
      text, fonts and the display surface are left out.
    - [random.randint] and the generator as [random.seed(42)] leaves it are
      parameters of world generation. *)

From Stdlib Require Import Reals Lra ZArith Lia Ascii.
From stdpp Require Import gmap strings list fin_maps.

Local Open Scope Z_scope.

(** ** Exceptions *)

Inductive exn : Type :=
| IndexError
| KeyError (k : string)
| TypeError
| AttributeError
| ZeroDivisionError
| FileNotFoundError
| JSONDecodeError.

Inductive result (A : Type) : Type :=
| Ok (a : A)
| Raise (e : exn).
Arguments Ok {A} a.
Arguments Raise {A} e.

#[global] Instance result_ret : MRet result := fun A a => Ok a.
#[global] Instance result_bind : MBind result := fun A B f m =>
  match m with
  | Ok a => f a
  | Raise e => Raise e
  end.

(** [[f(a) for a in l]] where [f] can raise: the first exception wins. *)
Fixpoint traverse {A B} (f : A -> result B) (l : list A) : result (list B) :=
  match l with
  | [] => Ok []
  | a :: rest => b ← f a; more ← traverse f rest; Ok (b :: more)
  end.

(** [range(n)] *)
Definition range (n : Z) : list Z := seqZ 0 n.

(** ** Utility functions *)

(** [clamp(n, a, b) = max(a, min(b, n))] *)
Definition clamp (n a b : R) : R := Rmax a (Rmin b n).

(** Truthiness of an [Optional[str]]: [None] and the empty string are falsy. *)
Definition truthy (o : option string) : bool :=
  match o with
  | None => false
  | Some s => negb (String.eqb s "")
  end.

(** [str.capitalize()] on ASCII text: first character upper-cased, the rest
    lower-cased. *)
Definition upper (c : ascii) : ascii :=
  let n := nat_of_ascii c in
  if ((97 <=? n) && (n <=? 122))%nat then ascii_of_nat (n - 32) else c.

Definition lower (c : ascii) : ascii :=
  let n := nat_of_ascii c in
  if ((65 <=? n) && (n <=? 90))%nat then ascii_of_nat (n + 32) else c.

Fixpoint lowercase (s : string) : string :=
  match s with
  | EmptyString => EmptyString
  | String c s' => String (lower c) (lowercase s')
  end.

Definition capitalize (s : string) : string :=
  match s with
  | EmptyString => EmptyString
  | String c s' => String (upper c) (lowercase s')
  end.

(** ** JSON documents

    What [json.load] returns and [json.dump] accepts.  An object is the list
    of its key/value pairs (keys are unique); numbers keep Python's split
    between [int] and [float]. *)

#[warnings="-register-all"]
Inductive json : Type :=
| JNull
| JBool (b : bool)
| JInt (z : Z)
| JFloat (r : R)
| JStr (s : string)
| JList (l : list json)
| JObj (fields : list (string * json)).

Module Json.
Fixpoint assoc (k : string) (fields : list (string * json)) : option json :=
  match fields with
  | [] => None
  | (k', v) :: rest => if String.eqb k k' then Some v else assoc k rest
  end.

(** [d[k]] for a string key. *)
Definition getitem (d : json) (k : string) : result json :=
  match d with
  | JObj fields =>
      match assoc k fields with
      | Some v => Ok v
      | None => Raise (KeyError k)
      end
  | _ => Raise TypeError
  end.

(** [d.get(k, default)]: only a dict has the method. *)
Definition get (d : json) (k : string) (default : json) : result json :=
  match d with
  | JObj fields =>
      match assoc k fields with
      | Some v => Ok v
      | None => Ok default
      end
  | _ => Raise AttributeError
  end.

(** [l[i]] for a non-negative integer index (a dict has no integer key:
    its [KeyError] carries no key text here). *)
Definition getidx (l : json) (i : nat) : result json :=
  match l with
  | JList vs =>
      match vs !! i with
      | Some v => Ok v
      | None => Raise IndexError
      end
  | JObj _ => Raise (KeyError "")
  | _ => Raise TypeError
  end.

Fixpoint chars (s : string) : list json :=
  match s with
  | EmptyString => []
  | String c s' => JStr (String c EmptyString) :: chars s'
  end.

(** [for v in d]: the values a [for] loop sees. *)
Definition iter (d : json) : result (list json) :=
  match d with
  | JList vs => Ok vs
  | JObj fields => Ok (JStr <$> fields.*1)
  | JStr s => Ok (chars s)
  | _ => Raise TypeError
  end.

(** The fields of the records below are typed as the dataclass annotations
    say.  A JSON value of another type than the annotation is rejected here
    with [TypeError]; Python stores it unchecked and fails at its first
    use. *)
Definition as_int (v : json) : result Z :=
  match v with
  | JInt z => Ok z
  | JBool b => Ok (if b then 1 else 0)
  | _ => Raise TypeError
  end.

Definition as_num (v : json) : result R :=
  match v with
  | JInt z => Ok (IZR z)
  | JFloat r => Ok r
  | JBool b => Ok (if b then 1%R else 0%R)
  | _ => Raise TypeError
  end.

Definition as_str (v : json) : result string :=
  match v with
  | JStr s => Ok s
  | _ => Raise TypeError
  end.

Definition as_opt_str (v : json) : result (option string) :=
  match v with
  | JNull => Ok None
  | JStr s => Ok (Some s)
  | _ => Raise TypeError
  end.

Definition of_opt_str (o : option string) : json :=
  match o with
  | None => JNull
  | Some s => JStr s
  end.
End Json.

(** ** World and tile system *)

Definition TILE_SIZE : Z := 32.
Definition WORLD_WIDTH : Z := 80.
Definition WORLD_HEIGHT : Z := 60.

Definition TILE_GRASS : string := "grass".
Definition TILE_WATER : string := "water".
Definition TILE_FOREST : string := "forest".
Definition TILE_ROCK : string := "rock".
Definition TILE_SAND : string := "sand".

Definition RESOURCE_TREE : string := "tree".
Definition RESOURCE_STONE : string := "stone".
Definition RESOURCE_BUSH : string := "bush".

Module Tile.
Record t : Type := mk {
  kind : string;
  resource : option string;
  resource_amount : Z;
  built : option string
}.

(** [Tile()] with the dataclass defaults. *)
Definition default : t := mk TILE_GRASS None 0 None.

Definition set_kind (k : string) (tl : t) : t :=
  mk k (resource tl) (resource_amount tl) (built tl).
Definition set_resource (r : option string) (tl : t) : t :=
  mk (kind tl) r (resource_amount tl) (built tl).
Definition set_resource_amount (a : Z) (tl : t) : t :=
  mk (kind tl) (resource tl) a (built tl).
Definition set_built (b : option string) (tl : t) : t :=
  mk (kind tl) (resource tl) (resource_amount tl) b.
End Tile.

Module World.
Record t : Type := mk {
  w : Z;
  h : Z;
  tiles : list (list Tile.t)
}.

Definition in_bounds (self : t) (tx ty : Z) : bool :=
  (0 <=? tx) && (tx <? w self) && (0 <=? ty) && (ty <? h self).

(** [self.tiles[tx][ty]] for non-negative indices. *)
Definition index (self : t) (tx ty : Z) : result Tile.t :=
  match tiles self !! Z.to_nat tx with
  | None => Raise IndexError
  | Some col =>
      match col !! Z.to_nat ty with
      | None => Raise IndexError
      | Some tl => Ok tl
      end
  end.

Definition get_tile (self : t) (tx ty : Z) : result (option Tile.t) :=
  if negb (in_bounds self tx ty) then Ok None
  else tl ← index self tx ty; Ok (Some tl).

(** The tile object at [(tx, ty)] is mutated in place; the grid holds one
    object per cell, so the rest of the grid is unchanged. *)
Definition store (self : t) (tx ty : Z) (tl : Tile.t) : t :=
  mk (w self) (h self)
     (alter (fun col => <[Z.to_nat ty := tl]> col) (Z.to_nat tx) (tiles self)).

(** The depletion rule inside [harvest]. *)
Definition deplete (tl : Tile.t) : Tile.t :=
  let tl := Tile.set_resource None tl in
  let tl := if String.eqb (Tile.kind tl) TILE_FOREST
            then Tile.set_kind TILE_GRASS tl else tl in
  if String.eqb (Tile.kind tl) TILE_ROCK
  then Tile.set_kind TILE_GRASS tl else tl.

(** The tile after [harvest] took [taken] units from it. *)
Definition harvested (tl : Tile.t) (taken : Z) : Tile.t :=
  let tl := Tile.set_resource_amount (Tile.resource_amount tl - taken) tl in
  if Tile.resource_amount tl <=? 0 then deplete tl else tl.

Definition harvest (self : t) (tx ty : Z) (amount : Z) : result (Z * t) :=
  tile ← get_tile self tx ty;
  match tile with
  | None => Ok (0, self)
  | Some tl =>
      if negb (truthy (Tile.resource tl)) then Ok (0, self)
      else
        let taken := Z.min amount (Tile.resource_amount tl) in
        Ok (taken, store self tx ty (harvested tl taken))
  end.

Definition place_structure (self : t) (tx ty : Z) (structure_name : string)
  : result (bool * t) :=
  tile ← get_tile self tx ty;
  match tile with
  | None => Ok (false, self)
  | Some tl =>
      if truthy (Tile.built tl) then Ok (false, self)
      else Ok (true, store self tx ty (Tile.set_built (Some structure_name) tl))
  end.

Definition remove_structure (self : t) (tx ty : Z) : result (bool * t) :=
  tile ← get_tile self tx ty;
  match tile with
  | None => Ok (false, self)
  | Some tl =>
      if negb (truthy (Tile.built tl)) then Ok (false, self)
      else Ok (true, store self tx ty (Tile.set_built None tl))
  end.

Definition tile_to_dict (tl : Tile.t) : json :=
  JObj [("k", JStr (Tile.kind tl));
        ("r", Json.of_opt_str (Tile.resource tl));
        ("a", JInt (Tile.resource_amount tl));
        ("b", Json.of_opt_str (Tile.built tl))].

Definition to_dict (self : t) : result json :=
  cols ← traverse (fun x =>
            col ← traverse (fun y => tl ← index self x y; Ok (tile_to_dict tl))
                           (range (h self));
            Ok (JList col))
          (range (w self));
  Ok (JObj [("w", JInt (w self)); ("h", JInt (h self)); ("tiles", JList cols)]).

(** [Tile(kind=cell['k'], resource=cell['r'], resource_amount=cell['a'],
    built=cell['b'])] *)
Definition tile_from_dict (cell : json) : result Tile.t :=
  k ← Json.getitem cell "k" ≫= Json.as_str;
  r ← Json.getitem cell "r" ≫= Json.as_opt_str;
  a ← Json.getitem cell "a" ≫= Json.as_int;
  b ← Json.getitem cell "b" ≫= Json.as_opt_str;
  Ok (Tile.mk k r a b).

(** [World(w, h)] first generates a grid from the seeded generator; every
    cell of it is then overwritten, so only the decoded tiles remain. *)
Definition from_dict (data : json) : result t :=
  w ← Json.getitem data "w" ≫= Json.as_int;
  h ← Json.getitem data "h" ≫= Json.as_int;
  tiles ← traverse (fun x =>
             traverse (fun y =>
               ts ← Json.getitem data "tiles";
               col ← Json.getidx ts (Z.to_nat x);
               cell ← Json.getidx col (Z.to_nat y);
               tile_from_dict cell)
             (range h))
           (range w);
  Ok (mk w h tiles).

(** The grid has the declared shape: [w] columns of [h] tiles each. *)
Definition shaped (self : t) : Prop :=
  length (tiles self) = Z.to_nat (w self) /\
  Forall (fun col => length col = Z.to_nat (h self)) (tiles self).
End World.

(** ** Player and inventory *)

Definition MAX_HEALTH : R := 100.
Definition MAX_HUNGER : R := 100.
Definition MAX_THIRST : R := 100.
Definition MAX_STAMINA : R := 100.

Module Item.
Record t : Type := mk {
  id : string;
  name : string;
  amount : Z
}.

Definition set_amount (a : Z) (it : t) : t := mk (id it) (name it) a.
End Item.

Module Inventory.
Record t : Type := mk {
  items : gmap string Item.t;
  capacity : Z
}.

(** [Inventory()] *)
Definition new : t := mk ∅ 30.

Definition set_items (m : gmap string Item.t) (self : t) : t :=
  mk m (capacity self).

Definition add (self : t) (item_id name : string) (amount : Z) : bool * t :=
  match items self !! item_id with
  | Some it =>
      (true, set_items (<[item_id := Item.set_amount (Item.amount it + amount) it]>
                          (items self)) self)
  | None =>
      if capacity self <=? Z.of_nat (size (items self)) then (false, self)
      else (true, set_items (<[item_id := Item.mk item_id name amount]>
                               (items self)) self)
  end.

Definition remove (self : t) (item_id : string) (amount : Z) : bool * t :=
  match items self !! item_id with
  | None => (false, self)
  | Some it =>
      if Item.amount it <? amount then (false, self)
      else
        let it := Item.set_amount (Item.amount it - amount) it in
        if Item.amount it =? 0
        then (true, set_items (delete item_id (items self)) self)
        else (true, set_items (<[item_id := it]> (items self)) self)
  end.

Definition has (self : t) (item_id : string) (amount : Z) : bool :=
  match items self !! item_id with
  | None => false
  | Some it => amount <=? Item.amount it
  end.

Definition item_to_dict (it : Item.t) : json :=
  JObj [("id", JStr (Item.id it));
        ("name", JStr (Item.name it));
        ("amount", JInt (Item.amount it))].

(** The list follows the iteration order of the mapping. *)
Definition to_list (self : t) : list json :=
  item_to_dict <$> (map_to_list (items self)).*2.

(** One entry of the dict comprehension: the key [i['id']], then the item. *)
Definition entry_from_dict (i : json) : result (string * Item.t) :=
  key ← Json.getitem i "id" ≫= Json.as_str;
  id ← Json.getitem i "id" ≫= Json.as_str;
  name ← Json.getitem i "name" ≫= Json.as_str;
  amount ← Json.getitem i "amount" ≫= Json.as_int;
  Ok (key, Item.mk id name amount).

(** A later entry with the same key replaces the earlier one. *)
Definition from_list (lst : json) : result t :=
  vs ← Json.iter lst;
  entries ← traverse entry_from_dict vs;
  Ok (set_items (foldl (fun m e => <[e.1 := e.2]> m) ∅ entries) new).

(** Stock of an id: the amount of its stack, 0 when there is none. *)
Definition stock (self : t) (item_id : string) : Z :=
  match items self !! item_id with
  | None => 0
  | Some it => Item.amount it
  end.
End Inventory.

Module Player.
Record t : Type := mk {
  x : R;
  y : R;
  angle : R;
  health : R;
  hunger : R;
  thirst : R;
  stamina : R;
  inventory : Inventory.t;
  equipped : option string;
  attack_power : R
}.

(** [Player(x=x, y=y)] with the dataclass defaults. *)
Definition new (x y : R) : t :=
  mk x y 0 MAX_HEALTH 0 0 MAX_STAMINA Inventory.new None 10.

Definition set_pos (x' y' : R) (p : t) : t :=
  mk x' y' (angle p) (health p) (hunger p) (thirst p) (stamina p)
     (inventory p) (equipped p) (attack_power p).
Definition set_health (v : R) (p : t) : t :=
  mk (x p) (y p) (angle p) v (hunger p) (thirst p) (stamina p)
     (inventory p) (equipped p) (attack_power p).
Definition set_hunger (v : R) (p : t) : t :=
  mk (x p) (y p) (angle p) (health p) v (thirst p) (stamina p)
     (inventory p) (equipped p) (attack_power p).
Definition set_thirst (v : R) (p : t) : t :=
  mk (x p) (y p) (angle p) (health p) (hunger p) v (stamina p)
     (inventory p) (equipped p) (attack_power p).
Definition set_stamina (v : R) (p : t) : t :=
  mk (x p) (y p) (angle p) (health p) (hunger p) (thirst p) v
     (inventory p) (equipped p) (attack_power p).
Definition set_inventory (inv : Inventory.t) (p : t) : t :=
  mk (x p) (y p) (angle p) (health p) (hunger p) (thirst p) (stamina p)
     inv (equipped p) (attack_power p).
Definition set_equipped (e : option string) (p : t) : t :=
  mk (x p) (y p) (angle p) (health p) (hunger p) (thirst p) (stamina p)
     (inventory p) e (attack_power p).

Definition to_dict (self : t) : json :=
  JObj [("x", JFloat (x self));
        ("y", JFloat (y self));
        ("health", JFloat (health self));
        ("hunger", JFloat (hunger self));
        ("thirst", JFloat (thirst self));
        ("stamina", JFloat (stamina self));
        ("inventory", JList (Inventory.to_list (inventory self)));
        ("equipped", Json.of_opt_str (equipped self))].

Definition from_dict (d : json) : result t :=
  x ← Json.getitem d "x" ≫= Json.as_num;
  y ← Json.getitem d "y" ≫= Json.as_num;
  let p := new x y in
  health ← Json.getitem d "health" ≫= Json.as_num;
  hunger ← Json.getitem d "hunger" ≫= Json.as_num;
  thirst ← Json.getitem d "thirst" ≫= Json.as_num;
  stamina ← Json.getitem d "stamina" ≫= Json.as_num;
  inventory ← Json.getitem d "inventory" ≫= Inventory.from_list;
  equipped ← Json.getitem d "equipped" ≫= Json.as_opt_str;
  Ok (set_equipped equipped
        (set_inventory inventory
           (set_stamina stamina
              (set_thirst thirst (set_hunger hunger (set_health health p)))))).
End Player.

(** ** Random draws and [math] *)

(** The global generator: [draws] is the sequence [random.random()] will
    return, [cursor] the number of draws already made. *)
Record rng : Type := mkRng {
  draws : nat -> R;
  cursor : nat
}.

(** [random.random()] *)
Definition random (g : rng) : R * rng :=
  (draws g (cursor g), mkRng (draws g) (S (cursor g))).

(** [math.tau] *)
Definition tau : R := (2 * PI)%R.

(** [math.hypot(x, y)] *)
Definition hypot (x y : R) : R := sqrt (x * x + y * y).

(** [math.atan2(y, x)] *)
Definition atan2 (y x : R) : R :=
  if Rlt_dec 0 x then atan (y / x)
  else if Rlt_dec x 0 then
         if Rle_dec 0 y then (atan (y / x) + PI)%R else (atan (y / x) - PI)%R
  else if Rlt_dec 0 y then (PI / 2)%R
  else if Rlt_dec y 0 then (- PI / 2)%R
  else 0%R.

(** [a / b] raises on a zero divisor. *)
Definition div (a b : R) : result R :=
  if Req_dec_T b 0 then Raise ZeroDivisionError else Ok (a / b)%R.

(** ** World generation *)

(** [World.generate] draws from the global generator, which it first seeds
    with 42.  The generator as [random.seed(42)] leaves it and the library's
    [random.randint], which returns an integer and the generator it leaves
    behind, are parameters of the model. *)
Section Generation.
Variable seeded : rng.
Variable randint : Z -> Z -> rng -> Z * rng.

(** The body of the loops: the tile drawn for one cell. *)
Definition roll_tile (g : rng) : Tile.t * rng :=
  let (r, g) := random g in
  if Rlt_dec r 0.05 then (Tile.mk TILE_WATER None 0 None, g)
  else if Rlt_dec r 0.20 then
    let (a, g) := randint 3 8 g in
    (Tile.mk TILE_FOREST (Some RESOURCE_TREE) a None, g)
  else if Rlt_dec r 0.28 then
    let (a, g) := randint 2 6 g in
    (Tile.mk TILE_ROCK (Some RESOURCE_STONE) a None, g)
  else if Rlt_dec r 0.35 then (Tile.mk TILE_SAND None 0 None, g)
  else
    let (r', g) := random g in
    if Rlt_dec r' 0.03 then
      let (a, g) := randint 1 4 g in
      (Tile.mk TILE_GRASS (Some RESOURCE_BUSH) a None, g)
    else (Tile.mk TILE_GRASS None 0 None, g).

(** [self.tiles[x][y] = tile]: an index outside the grid raises. *)
Definition assign (self : World.t) (x y : Z) (tile : Tile.t) : result World.t :=
  _ ← World.index self x y;
  Ok (World.store self x y tile).

(** The inner loop, over the cells [ys] of column [x]. *)
Fixpoint generate_column (x : Z) (ys : list Z) (st : World.t * rng)
  : result (World.t * rng) :=
  match ys with
  | [] => Ok st
  | y :: ys =>
      let (tile, g) := roll_tile st.2 in
      wd ← assign st.1 x y tile;
      generate_column x ys (wd, g)
  end.

(** The outer loop, over the columns [xs]. *)
Fixpoint generate_columns (xs : list Z) (st : World.t * rng)
  : result (World.t * rng) :=
  match xs with
  | [] => Ok st
  | x :: xs =>
      st ← generate_column x (range (World.h st.1)) st;
      generate_columns xs st
  end.

(** [generate] returns the world with the generator as the draws leave it. *)
Definition generate (self : World.t) : result (World.t * rng) :=
  generate_columns (range (World.w self)) (self, seeded).

(** [World(w, h)] *)
Definition World_init (w h : Z) : result (World.t * rng) :=
  generate (World.mk w h (replicate (Z.to_nat w) (replicate (Z.to_nat h) Tile.default))).
End Generation.

(** ** Entities: animals / NPCs *)

Module Entity.
Inductive behavior : Type := idle | roam | attack | flee.

(** [target] is [None] from construction on and is never read: it is left
    out. *)
Record t : Type := mk {
  x : R;
  y : R;
  vx : R;
  vy : R;
  health : R;
  speed : R;
  state : behavior;
  radius : Z
}.

(** [Entity(x, y)] *)
Definition new (x y : R) : t := mk x y 0 0 50 40 idle 10.

Definition set_pos (x' y' : R) (e : t) : t :=
  mk x' y' (vx e) (vy e) (health e) (speed e) (state e) (radius e).
Definition set_vel (vx' vy' : R) (e : t) : t :=
  mk (x e) (y e) vx' vy' (health e) (speed e) (state e) (radius e).
Definition set_health (v : R) (e : t) : t :=
  mk (x e) (y e) (vx e) (vy e) v (speed e) (state e) (radius e).
Definition set_state (s : behavior) (e : t) : t :=
  mk (x e) (y e) (vx e) (vy e) (health e) (speed e) s (radius e).

Local Open Scope R_scope.

(** Rules 1 and 2: the roaming automaton. *)
Definition wander (self : t) (g : rng) : t * rng :=
  match state self with
  | idle =>
      let (r, g) := random g in
      if Rlt_dec r 0.01 then
        let self := set_state roam self in
        let (r', g) := random g in
        let ang := r' * tau in
        (set_vel (cos ang * speed self) (sin ang * speed self) self, g)
      else (self, g)
  | roam =>
      let (r, g) := random g in
      if Rlt_dec r 0.005 then (set_vel 0 0 (set_state idle self), g)
      else (self, g)
  | _ => (self, g)
  end.

(** Rule 3: pursue the player when close.  The branch taken and the raise
    at distance 0 do not depend on rounding; the quotient and the products
    are those of the source, taken over the reals, so the velocity can differ
    from the binary64 one in its last digit. *)
Definition pursue (self : t) (player : Player.t) : result t :=
  let dx := Player.x player - x self in
  let dy := Player.y player - y self in
  let dist := hypot dx dy in
  if Rlt_dec dist 150 then
    let self := set_state attack self in
    ux ← div dx dist;
    let self := set_vel (ux * (speed self * 1.2)) (vy self) self in
    uy ← div dy dist;
    Ok (set_vel (vx self) (uy * (speed self * 1.2)) self)
  else Ok self.

(** Rule 4: flee when health is low; the draw is made only then.  [cos],
    [sin] and [atan2] are the real functions: the velocity is the source's
    expression, not its binary64 value, which can be a digit off in either
    direction. *)
Definition panic (self : t) (player : Player.t) (g : rng) : t * rng :=
  if Rlt_dec (health self) 20 then
    let (r, g) := random g in
    if Rlt_dec r 0.3 then
      let self := set_state flee self in
      let ang := atan2 (y self - Player.y player) (x self - Player.x player) in
      (set_vel (cos ang * speed self * 1.5) (sin ang * speed self * 1.5) self, g)
    else (self, g)
  else (self, g).

(** Rule 5: integrate. *)
Definition integrate (self : t) (dt : R) : t :=
  set_pos (x self + vx self * dt) (y self + vy self * dt) self.

(** The state machine of one tick, before integration. *)
Definition decide_state (self : t) (player : Player.t) (g : rng)
  : result (t * rng) :=
  let (self, g) := wander self g in
  self ← pursue self player;
  Ok (panic self player g).

Definition update (self : t) (dt : R) (world : World.t) (player : Player.t)
  (g : rng) : result (t * rng) :=
  '(self, g) ← decide_state self player g;
  Ok (integrate self dt, g).
End Entity.

(** ** Crafting recipes *)

Record Recipe : Type := mkRecipe {
  requires : list (string * Z);
  recipe_name : string
}.

Definition RECIPES : gmap string Recipe :=
  <["wooden_spear" := mkRecipe [("wood", 3); ("stone", 1)] "Wooden Spear"]>
  (<["campfire" := mkRecipe [("wood", 5)] "Campfire"]>
  (<["stone_axe" := mkRecipe [("wood", 2); ("stone", 3)] "Stone Axe"]>
  (<["wooden_shack" := mkRecipe [("wood", 20)] "Wooden Shack"]> ∅))).

(** ** Files *)

Definition SAVE_FILE : string := "survivors_echo_save.json".

(** A file on disk either holds a JSON document or text [json.load] rejects.
    [json.dump] followed by [json.load] returns the document written. *)
Inductive file : Type :=
| Doc (data : json)
| Garbled.

Definition read_json (disk : gmap string file) (filename : string) : result json :=
  match disk !! filename with
  | None => Raise FileNotFoundError
  | Some Garbled => Raise JSONDecodeError
  | Some (Doc data) => Ok data
  end.

(** ** Input *)

(** The keys [update_player] reads from [pygame.key.get_pressed()]. *)
Record Keys : Type := mkKeys {
  K_LSHIFT : bool;
  K_w : bool;
  K_s : bool;
  K_a : bool;
  K_d : bool
}.

Definition DAY_LENGTH : R := 300.

(** [a % b] on floats, for a positive [b].  For [a >= 0] the remainder is
    exact in binary64 as well.  For a negative [a] Python adds [b] to the
    remainder of C and rounds the sum, which can return [b] itself: the range
    of the result is stated for [a >= 0] only. *)
Definition fmod (a b : R) : R := (a - IZR (Int_part (a / b)) * b)%R.

(** [int(v // TILE_SIZE)], for the finite [v] of the model. *)
Definition tile_coord (v : R) : Z := Int_part (v / IZR TILE_SIZE).

(** ** Screen geometry *)

Definition SCREEN_WIDTH : Z := 1280.
Definition SCREEN_HEIGHT : Z := 720.

(** [int(v)] on a float: truncation towards zero. *)
Definition trunc (v : R) : Z :=
  if Rle_dec 0 v then Int_part v else - Int_part (- v).

(** The camera is a float as soon as the player has moved; the tile
    coordinates and the pixel coordinates are integers. *)
Definition world_to_screen (tx ty : Z) (cam_x cam_y : R) : Z * Z :=
  let sx := (IZR (tx * TILE_SIZE) - cam_x + IZR (SCREEN_WIDTH `div` 2))%R in
  let sy := (IZR (ty * TILE_SIZE) - cam_y + IZR (SCREEN_HEIGHT `div` 2))%R in
  (trunc sx, trunc sy).

(** [//] on a float is the floor of the quotient, as in [tile_coord]. *)
Definition screen_to_world (sx sy : Z) (cam_x cam_y : R) : Z * Z :=
  let tx := tile_coord (IZR (sx - SCREEN_WIDTH `div` 2) + cam_x) in
  let ty := tile_coord (IZR (sy - SCREEN_HEIGHT `div` 2) + cam_y) in
  (tx, ty).

(** ** Events *)

(** The keys [handle_events] tells apart; [K_other] is any other key. *)
Inductive key : Type :=
| K_ESCAPE | K_b | K_e | K_TAB | K_F5 | K_F9 | K_other.

(** [pygame.event.get()] returns a list of these; [OTHER] is any event of
    another type. *)
Inductive event : Type :=
| QUIT
| KEYDOWN (k : key)
| MOUSEBUTTONDOWN (button : Z) (pos : Z * Z)
| OTHER.

(** ** Drawing *)

Definition color : Type := Z * Z * Z.

Definition DARK_GRAY : color := (30, 30, 30).
Definition LIGHT_GRAY : color := (200, 200, 200).
Definition WOOD_BROWN : color := (140, 100, 60).
Definition STONE_GRAY : color := (120, 120, 120).
Definition GRASS_GREEN : color := (75, 160, 80).
Definition WATER_BLUE : color := (30, 90, 160).

(** What [pygame.draw.rect] and [pygame.draw.circle] are asked to draw. *)
Inductive shape : Type :=
| Rect (c : color) (x y w h : Z)
| Circle (c : color) (cx cy radius : Z).

(** ** The game object *)

Module Game.
(** The simulation state held by [Game]; the display, clock, fonts, sounds and
    the never-read cooldown fields are left out. *)
Record t : Type := mk {
  world : World.t;
  player : Player.t;
  camera_x : R;
  camera_y : R;
  entities : list Entity.t;
  is_running : bool;
  paused : bool;
  time_of_day : R;
  weather : option string;
  build_mode : bool;
  selected_structure : string
}.

Definition set_world (v : World.t) (g : t) : t :=
  mk v (player g) (camera_x g) (camera_y g) (entities g) (is_running g)
     (paused g) (time_of_day g) (weather g) (build_mode g) (selected_structure g).
Definition set_player (v : Player.t) (g : t) : t :=
  mk (world g) v (camera_x g) (camera_y g) (entities g) (is_running g)
     (paused g) (time_of_day g) (weather g) (build_mode g) (selected_structure g).
Definition set_camera (cx cy : R) (g : t) : t :=
  mk (world g) (player g) cx cy (entities g) (is_running g)
     (paused g) (time_of_day g) (weather g) (build_mode g) (selected_structure g).
Definition set_entities (v : list Entity.t) (g : t) : t :=
  mk (world g) (player g) (camera_x g) (camera_y g) v (is_running g)
     (paused g) (time_of_day g) (weather g) (build_mode g) (selected_structure g).
Definition set_paused (v : bool) (g : t) : t :=
  mk (world g) (player g) (camera_x g) (camera_y g) (entities g) (is_running g)
     v (time_of_day g) (weather g) (build_mode g) (selected_structure g).
Definition set_time_of_day (v : R) (g : t) : t :=
  mk (world g) (player g) (camera_x g) (camera_y g) (entities g) (is_running g)
     (paused g) v (weather g) (build_mode g) (selected_structure g).
Definition set_weather (v : option string) (g : t) : t :=
  mk (world g) (player g) (camera_x g) (camera_y g) (entities g) (is_running g)
     (paused g) (time_of_day g) v (build_mode g) (selected_structure g).

Definition set_inventory (inv : Inventory.t) (g : t) : t :=
  set_player (Player.set_inventory inv (player g)) g.

(** [self.player.inventory.add(...)], the returned flag dropped. *)
Definition give (item_id name : string) (amount : Z) (g : t) : t :=
  set_inventory (Inventory.add (Player.inventory (player g)) item_id name amount).2 g.

(** *** [try_interact] *)

(** The branch on [tile.resource] after the harvest.  [tile] is the object
    stored in the grid, which [harvest] has just mutated. *)
Definition collect (tile : Tile.t) (taken : Z) (self : t) : t :=
  if decide (Tile.resource tile = Some RESOURCE_TREE) then give "wood" "Wood" taken self
  else if decide (Tile.resource tile = Some RESOURCE_STONE) then give "stone" "Stone" taken self
  else if decide (Tile.resource tile = Some RESOURCE_BUSH) then give "berries" "Berries" taken self
  else self.

Definition warm (p : Player.t) : Player.t :=
  let p := Player.set_stamina (Rmin MAX_STAMINA (Player.stamina p + 20)) p in
  Player.set_health (Rmin MAX_HEALTH (Player.health p + 5)) p.

Definition try_interact (self : t) : result t :=
  let tx := tile_coord (Player.x (player self)) in
  let ty := tile_coord (Player.y (player self)) in
  tile ← World.get_tile (world self) tx ty;
  match tile with
  | None => Ok self
  | Some tl =>
      if truthy (Tile.resource tl) then
        '(taken, wd) ← World.harvest (world self) tx ty 1;
        let self := set_world wd self in
        if 0 <? taken then
          tile ← World.index wd tx ty;
          Ok (collect tile taken self)
        else Ok self
      else if truthy (Tile.built tl) then
        if decide (Tile.built tl = Some "campfire")
        then Ok (set_player (warm (player self)) self)
        else Ok self
      else Ok self
  end.

(** *** [update_player] *)

Local Open Scope R_scope.

Definition sprinting (keys : Keys) (p : Player.t) : bool :=
  K_LSHIFT keys && (if Rlt_dec 1 (Player.stamina p) then true else false).

(** The movement intent [(vx, vy)] built from the four keys. *)
Definition intent (keys : Keys) : R * R :=
  let vx := 0 in
  let vy := 0 in
  let vy := if K_w keys then vy - 1 else vy in
  let vy := if K_s keys then vy + 1 else vy in
  let vx := if K_a keys then vx - 1 else vx in
  let vx := if K_d keys then vx + 1 else vx in
  (vx, vy).

Definition update_player (self : t) (dt : R) (keys : Keys) : t :=
  let p := player self in
  let speed := 160 in
  let '(speed, p) :=
    if sprinting keys p
    then (speed * 1.8, Player.set_stamina (Player.stamina p - dt * 10) p)
    else (speed, p) in
  let '(vx, vy) := intent keys in
  let norm := hypot vx vy in
  let p :=
    if Rlt_dec 0 norm then
      (* the guard excludes a zero divisor *)
      let vx := vx / norm in
      let vy := vy / norm in
      let p := Player.set_pos (Player.x p + vx * speed * dt)
                              (Player.y p + vy * speed * dt) p in
      Player.set_stamina (Rmax 0 (Player.stamina p - dt * 7)) p
    else p in
  let p := Player.set_pos
             (clamp (Player.x p) 0 (IZR (World.w (world self) * TILE_SIZE - 1)))
             (clamp (Player.y p) 0 (IZR (World.h (world self) * TILE_SIZE - 1)))
             p in
  set_player p self.

(** *** [update] *)

(** The contact check that follows each entity's update. *)
Definition contact (e : Entity.t) (dt : R) (self : t) : t :=
  let dx := Entity.x e - Player.x (player self) in
  let dy := Entity.y e - Player.y (player self) in
  let dist := hypot dx dy in
  if Rlt_dec dist 20 then
    let dmg := 5 * dt in
    let self := set_player (Player.set_health (Player.health (player self) - dmg)
                                              (player self)) self in
    if Rle_dec (Player.health (player self)) 0 then set_paused true self else self
  else self.

(** The loop over [self.entities]: [es] are the entities still to visit, the
    result lists them updated.  An exception ends the tick. *)
Fixpoint update_entities (es : list Entity.t) (dt : R) (self : t) (g : rng)
  : result (list Entity.t * t * rng) :=
  match es with
  | [] => Ok ([], self, g)
  | e :: rest =>
      '(e, g) ← Entity.update e dt (world self) (player self) g;
      let self := contact e dt self in
      '(rest, self, g) ← update_entities rest dt self g;
      Ok (e :: rest, self, g)
  end.

Definition roll_weather (self : t) (g : rng) : t * rng :=
  let (r, g) := random g in
  if Rlt_dec r 0.001 then
    let (r', g) := random g in
    (set_weather (if Rlt_dec r' 0.3 then Some "rain"%string else None) self, g)
  else (self, g).

(** Hunger, thirst, their penalties, and the stamina regeneration.  The
    branches of a single tick are those of the source.  Over many ticks the
    binary64 sums of hunger and thirst drift in their last digits, so that a
    run can cross the thresholds 80 and 90 a tick before or after the sums
    taken here do. *)
Definition vitals (p : Player.t) (dt : R) : Player.t :=
  let p := Player.set_hunger (Player.hunger p + dt * 0.5) p in
  let p := Player.set_thirst (Player.thirst p + dt * 0.9) p in
  let p := if Rlt_dec 80 (Player.hunger p)
           then Player.set_health (Player.health p - dt * 0.5) p else p in
  let p := if Rlt_dec 90 (Player.thirst p)
           then Player.set_health (Player.health p - dt * 1.0) p else p in
  if Rlt_dec (Player.stamina p) MAX_STAMINA
  then Player.set_stamina (Rmin MAX_STAMINA (Player.stamina p + dt * 5)) p
  else p.

Definition update (self : t) (dt : R) (keys : Keys) (g : rng)
  : result (t * rng) :=
  let self := set_time_of_day (fmod (time_of_day self + dt) DAY_LENGTH) self in
  let (self, g) := roll_weather self g in
  let self := update_player self dt keys in
  '(es, self, g) ← update_entities (entities self) dt self g;
  let self := set_entities es self in
  let self := set_player (vitals (player self) dt) self in
  let self := set_camera (Player.x (player self)) (Player.y (player self)) self in
  Ok (self, g).

(** A run of ticks, each with its elapsed time and keys. *)
Fixpoint run_ticks (ticks : list (R * Keys)) (self : t) (g : rng)
  : result (t * rng) :=
  match ticks with
  | [] => Ok (self, g)
  | (dt, keys) :: rest =>
      '(self, g) ← update self dt keys g;
      run_ticks rest self g
  end.

Local Close Scope R_scope.

(** *** [craft] *)

(** [self.player.inventory.remove(rid, amt)] for every requirement. *)
Definition consume (req : list (string * Z)) (inv : Inventory.t) : Inventory.t :=
  foldl (fun inv '(rid, amt) => (Inventory.remove inv rid amt).2) inv req.

(** [self.player.inventory.add(rid, rid.capitalize(), amt)] for every
    requirement. *)
Definition refund (req : list (string * Z)) (inv : Inventory.t) : Inventory.t :=
  foldl (fun inv '(rid, amt) => (Inventory.add inv rid (capitalize rid) amt).2) inv req.

(** The two structure branches of [craft], alike up to the structure name. *)
Definition build (self : t) (req : list (string * Z)) (structure_name : string)
  : result (bool * t) :=
  let tx := tile_coord (Player.x (player self)) in
  let ty := tile_coord (Player.y (player self)) in
  '(placed, wd) ← World.place_structure (world self) tx ty structure_name;
  let self := set_world wd self in
  if negb placed then
    Ok (false, set_inventory (refund req (Player.inventory (player self))) self)
  else Ok (true, self).

Definition craft (self : t) (recipe_id : string) : result (bool * t) :=
  match RECIPES !! recipe_id with
  | None => Ok (false, self)
  | Some rc =>
      let req := requires rc in
      if negb (forallb (fun '(rid, amt) =>
                 Inventory.has (Player.inventory (player self)) rid amt) req)
      then Ok (false, self)
      else
        let self := set_inventory (consume req (Player.inventory (player self))) self in
        if String.eqb recipe_id "campfire" then build self req "campfire"
        else if String.eqb recipe_id "wooden_shack" then build self req "shack"
        else Ok (true, give recipe_id (recipe_name rc) 1 self)
  end.

(** *** [save] and [load] *)

Definition entity_to_dict (e : Entity.t) : json :=
  JObj [("x", JFloat (Entity.x e)); ("y", JFloat (Entity.y e));
        ("health", JFloat (Entity.health e))].

Definition snapshot (self : t) : result json :=
  wd ← World.to_dict (world self);
  Ok (JObj [("world", wd);
            ("player", Player.to_dict (player self));
            ("time_of_day", JFloat (time_of_day self));
            ("entities", JList (entity_to_dict <$> entities self))]).

(** [save] writes the file only once the whole document is built. *)
Definition save (self : t) (disk : gmap string file) (filename : string)
  : result (gmap string file) :=
  data ← snapshot self;
  Ok (<[filename := Doc data]> disk).

(** [Entity(d['x'], d['y'])] *)
Definition entity_from_dict (d : json) : result Entity.t :=
  x ← Json.getitem d "x" ≫= Json.as_num;
  y ← Json.getitem d "y" ≫= Json.as_num;
  Ok (Entity.new x y).

(** [e.health = d.get('health', 50)] over [zip(self.entities, ...)] *)
Fixpoint restore_health (es : list Entity.t) (ds : list json)
  : result (list Entity.t) :=
  match es, ds with
  | e :: es, d :: ds =>
      hp ← Json.get d "health" (JInt 50) ≫= Json.as_num;
      rest ← restore_health es ds;
      Ok (Entity.set_health hp e :: rest)
  | _, _ => Ok []
  end.

(** [load] assigns [self.world], [self.player], [self.time_of_day] and
    [self.entities] one after the other.  The result pairs the object as the
    method leaves it with the exception it raised, if any. *)
Definition load (self : t) (disk : gmap string file) (filename : string)
  : t * option exn :=
  match read_json disk filename with
  | Raise e => (self, Some e)
  | Ok data =>
  match Json.getitem data "world" ≫= World.from_dict with
  | Raise e => (self, Some e)
  | Ok wd =>
  let self := set_world wd self in
  match Json.getitem data "player" ≫= Player.from_dict with
  | Raise e => (self, Some e)
  | Ok p =>
  let self := set_player p self in
  match Json.get data "time_of_day" (JFloat 0) ≫= Json.as_num with
  | Raise e => (self, Some e)
  | Ok tod =>
  let self := set_time_of_day tod self in
  match Json.get data "entities" (JList []) ≫= Json.iter with
  | Raise e => (self, Some e)
  | Ok ds =>
  match traverse entity_from_dict ds with
  | Raise e => (self, Some e)
  | Ok es =>
  let self := set_entities es self in
  match restore_health es ds with
  | Raise e => (self, Some e)
  | Ok es => (set_entities es self, None)
  end end end end end end end.

(** The end of [__init__]: load the save if one exists; a failure is
    printed and the constructor goes on.  The result pairs the object with the
    lines printed. *)
Definition startup_load (self : t) (disk : gmap string file) : t * list string :=
  if bool_decide (is_Some (disk !! SAVE_FILE)) then
    match load self disk SAVE_FILE with
    | (self, None) => (self, ["Save loaded"])
    | (self, Some e) => (self, ["Failed to load save:"])
    end
  else (self, []).

(** The object [__init__] builds before it looks for a save: the generated
    world and the spawned entities are taken as given. *)
Definition fresh (wd : World.t) (es : list Entity.t) : t :=
  let px := IZR ((World.w wd * TILE_SIZE) `div` 2) in
  let py := IZR ((World.h wd * TILE_SIZE) `div` 2) in
  let self := mk wd (Player.new px py) px py es true false 0 None false "campfire" in
  give "stone" "Stone" 3 (give "wood" "Wood" 5 self).

(** *** [handle_events] *)

Definition set_is_running (v : bool) (g : t) : t :=
  mk (world g) (player g) (camera_x g) (camera_y g) (entities g) v
     (paused g) (time_of_day g) (weather g) (build_mode g) (selected_structure g).
Definition set_build_mode (v : bool) (g : t) : t :=
  mk (world g) (player g) (camera_x g) (camera_y g) (entities g) (is_running g)
     (paused g) (time_of_day g) (weather g) v (selected_structure g).

(** The body of the loop over the events.  The state is the game object with
    the disk [save] writes to; [dump_debug] only prints. *)
Definition handle_event (ev : event) (st : t * gmap string file)
  : result (t * gmap string file) :=
  let (self, disk) := st in
  match ev with
  | QUIT =>
      disk ← save self disk SAVE_FILE;
      Ok (set_is_running false self, disk)
  | KEYDOWN K_ESCAPE => Ok (set_paused (negb (paused self)) self, disk)
  | KEYDOWN K_b => Ok (set_build_mode (negb (build_mode self)) self, disk)
  | KEYDOWN K_e => self ← try_interact self; Ok (self, disk)
  | KEYDOWN K_TAB => Ok (self, disk)
  | KEYDOWN K_F5 => disk ← save self disk SAVE_FILE; Ok (self, disk)
  | KEYDOWN K_F9 =>
      let p := player self in
      Ok (set_player (Player.set_health (Rmin MAX_HEALTH (Player.health p + 20)) p) self,
          disk)
  | KEYDOWN K_other => Ok (self, disk)
  | MOUSEBUTTONDOWN button (mx, my) =>
      if decide (button = 1) then
        if build_mode self then
          let '(tx, ty) := screen_to_world mx my (camera_x self) (camera_y self) in
          '(ok, wd) ← World.place_structure (world self) tx ty (selected_structure self);
          Ok (set_world wd self, disk)
        else Ok (self, disk)
      else Ok (self, disk)
  | OTHER => Ok (self, disk)
  end.

Fixpoint handle_events (events : list event) (st : t * gmap string file)
  : result (t * gmap string file) :=
  match events with
  | [] => Ok st
  | ev :: rest => st ← handle_event ev st; handle_events rest st
  end.

(** *** [render] *)

Local Open Scope R_scope.

(** The bounds [(left, right)] and [(top, bottom)] of the tile loop. *)
Definition view (self : t) : (Z * Z) * (Z * Z) :=
  let left := Z.max 0
    (Int_part ((camera_x self - IZR SCREEN_WIDTH / 2) / IZR TILE_SIZE) - 1) in
  let right := Z.min (World.w (world self))
    (Int_part ((camera_x self + IZR SCREEN_WIDTH / 2) / IZR TILE_SIZE) + 2) in
  let top := Z.max 0
    (Int_part ((camera_y self - IZR SCREEN_HEIGHT / 2) / IZR TILE_SIZE) - 1) in
  let bottom := Z.min (World.h (world self))
    (Int_part ((camera_y self + IZR SCREEN_HEIGHT / 2) / IZR TILE_SIZE) + 2) in
  ((left, right), (top, bottom)).

Local Close Scope R_scope.

(** What the loop body draws for one tile whose rectangle has its corner at
    [(sx, sy)]: the ground, the resource on it, the structure built on it. *)
Definition draw_tile (tile : Tile.t) (sx sy : Z) : list shape :=
  let cx := sx + TILE_SIZE `div` 2 in
  let cy := sy + TILE_SIZE `div` 2 in
  let ground :=
    if String.eqb (Tile.kind tile) TILE_WATER then
      [Rect WATER_BLUE sx sy TILE_SIZE TILE_SIZE]
    else if String.eqb (Tile.kind tile) TILE_FOREST then
      Rect GRASS_GREEN sx sy TILE_SIZE TILE_SIZE ::
      (if truthy (Tile.resource tile)
       then [Circle WOOD_BROWN cx cy (TILE_SIZE `div` 3)] else [])
    else if String.eqb (Tile.kind tile) TILE_ROCK then
      Rect LIGHT_GRAY sx sy TILE_SIZE TILE_SIZE ::
      (if truthy (Tile.resource tile)
       then [Rect STONE_GRAY (sx + 4) (sy + 4) (TILE_SIZE - 8) (TILE_SIZE - 8)] else [])
    else if String.eqb (Tile.kind tile) TILE_SAND then
      [Rect (194, 178, 128) sx sy TILE_SIZE TILE_SIZE]
    else
      Rect GRASS_GREEN sx sy TILE_SIZE TILE_SIZE ::
      (if decide (Tile.resource tile = Some RESOURCE_BUSH)
       then [Circle (34, 120, 30) cx cy (TILE_SIZE `div` 4)] else []) in
  let structure :=
    if truthy (Tile.built tile) then
      if decide (Tile.built tile = Some "campfire") then
        [Circle (255, 120, 0) cx cy (TILE_SIZE `div` 4)]
      else if decide (Tile.built tile = Some "shack") then
        [Rect WOOD_BROWN (sx + 3) (sy + 3) (TILE_SIZE - 6) (TILE_SIZE - 6)]
      else []
    else [] in
  ground ++ structure.

(** The tile loop of [render]: [tile.kind] on a tile that [get_tile] did not
    find raises.  The result lists what is drawn, in order. *)
Definition render_tiles (self : t) : result (list shape) :=
  let '((left', right'), (top, bottom)) := view self in
  columns ← traverse (fun tx =>
      cells ← traverse (fun ty =>
          tile ← World.get_tile (world self) tx ty;
          match tile with
          | None => Raise AttributeError
          | Some tl =>
              let '(sx, sy) := world_to_screen tx ty (camera_x self) (camera_y self) in
              Ok (draw_tile tl sx sy)
          end)
        (seqZ top (bottom - top));
      Ok (concat cells))
    (seqZ left' (right' - left'));
  Ok (concat columns).

(** [draw_bar], the label apart. *)
Definition draw_bar (x y w h : Z) (fraction : R) : list shape :=
  let inner_w := trunc (IZR w * clamp fraction 0 1) in
  [Rect DARK_GRAY x y w h; Rect (50, 200, 50) x y inner_w h].

(** The four bars of [render_hud]. *)
Definition render_hud (self : t) : list shape :=
  let p := player self in
  (draw_bar 10 10 200 20 (Player.health p / MAX_HEALTH) ++
   draw_bar 10 40 200 16 (1 - Player.hunger p / MAX_HUNGER) ++
   draw_bar 10 62 200 16 (1 - Player.thirst p / MAX_THIRST) ++
   draw_bar 10 84 200 12 (Player.stamina p / MAX_STAMINA))%R.

(** *** [run] *)

(** One pass of the loop body: the clock gives [dt], the event queue
    [events], the keyboard [keys].  Rendering reads the state and changes
    nothing, but its tile loop can raise. *)
Definition frame (dt : R) (events : list event) (keys : Keys)
  (st : t * gmap string file * rng) : result (t * gmap string file * rng) :=
  let '(self, disk, g) := st in
  '(self, disk) ← handle_events events (self, disk);
  '(self, g) ← (if paused self then Ok (self, g) else update self dt keys g);
  _ ← render_tiles self;
  Ok (self, disk, g).

(** [while self.is_running], over the frames the session lasts. *)
Fixpoint run (frames : list (R * list event * Keys))
  (st : t * gmap string file * rng) : result (t * gmap string file * rng) :=
  match frames with
  | [] => Ok st
  | (dt, events, keys) :: rest =>
      if is_running st.1.1 then st ← frame dt events keys st; run rest st
      else Ok st
  end.
End Game.
(** ** Sequences of inventory calls *)

Inductive inv_op : Type :=
| Add (item_id name : string) (amount : Z)
| Remove (item_id : string) (amount : Z).

Definition apply_op (inv : Inventory.t) (op : inv_op) : bool * Inventory.t :=
  match op with
  | Add item_id name amount => Inventory.add inv item_id name amount
  | Remove item_id amount => Inventory.remove inv item_id amount
  end.

(** The inventory after the calls [ops], made in order. *)
Fixpoint run_ops (ops : list inv_op) (inv : Inventory.t) : Inventory.t :=
  match ops with
  | [] => inv
  | op :: rest => run_ops rest (apply_op inv op).2
  end.

(** Sum of the amounts of the [add] calls on [item_id] that returned true. *)
Fixpoint added (item_id : string) (ops : list inv_op) (inv : Inventory.t) : Z :=
  match ops with
  | [] => 0
  | op :: rest =>
      let (ok, inv') := apply_op inv op in
      match op with
      | Add i _ amount =>
          if ok && bool_decide (i = item_id) then amount + added item_id rest inv'
          else added item_id rest inv'
      | Remove _ _ => added item_id rest inv'
      end
  end.

(** Sum of the amounts of the [remove] calls on [item_id] that returned true. *)
Fixpoint removed (item_id : string) (ops : list inv_op) (inv : Inventory.t) : Z :=
  match ops with
  | [] => 0
  | op :: rest =>
      let (ok, inv') := apply_op inv op in
      match op with
      | Remove i amount =>
          if ok && bool_decide (i = item_id) then amount + removed item_id rest inv'
          else removed item_id rest inv'
      | Add _ _ _ => removed item_id rest inv'
      end
  end.

(** ** The items harvesting yields

    The three branches of [try_interact]: resource kind, item id, display
    name. *)
Definition DROPS : list (string * (string * string)) :=
  [(RESOURCE_TREE, ("wood", "Wood"));
   (RESOURCE_STONE, ("stone", "Stone"));
   (RESOURCE_BUSH, ("berries", "Berries"))].

(** The tile under the player. *)
Definition player_tile (self : Game.t) : Z * Z :=
  (tile_coord (Player.x (Game.player self)), tile_coord (Player.y (Game.player self))).

(** ** Stacks the refund can rebuild

    [craft] refunds with [add(rid, rid.capitalize(), amt)].  When the craft
    has used a stack up entirely the refund builds a new one, so the stack
    comes back as it was only if it carried the id and its capitalised form
    as display name. *)
Definition refundable (inv : Inventory.t) (req : list (string * Z)) : Prop :=
  forall rid amt it,
    (rid, amt) ∈ req ->
    Inventory.items inv !! rid = Some it ->
    Item.amount it = amt ->
    Item.id it = rid /\ Item.name it = capitalize rid.

(** ** Ticks *)

(** The player moves in a tick when the intent vector has a positive norm:
    the guard of the movement branch of [update_player]. *)
Definition moving (keys : Keys) : Prop :=
  (0 < hypot (Game.intent keys).1 (Game.intent keys).2)%R.


(** An entity that a tick leaves as it is when no roll fires: idle, at
    rest, in good health and out of detection range of the point [(px, py)]. *)
Definition quiet (px py : R) (e : Entity.t) : Prop :=
  Entity.state e = Entity.idle /\ Entity.vx e = 0%R /\ Entity.vy e = 0%R /\
  (20 <= Entity.health e)%R /\ (150 <= hypot (px - Entity.x e) (py - Entity.y e))%R.

(** A game whose entities are all quiet around a player inside the world. *)
Definition still (self : Game.t) : Prop :=
  let p := Game.player self in
  Forall (quiet (Player.x p) (Player.y p)) (Game.entities self) /\
  (0 <= Player.x p <= IZR (World.w (Game.world self) * TILE_SIZE - 1))%R /\
  (0 <= Player.y p <= IZR (World.h (Game.world self) * TILE_SIZE - 1))%R.

(** Keys with no movement key down. *)
Definition standing (shift : bool) : Keys := mkKeys shift false false false false.

(** ** Well-formed states

    In an inventory the game has built, every stack sits under its own id:
    [add] and [from_list] are the only writers of the mapping and both use
    the item's id as key. *)
Definition keyed (inv : Inventory.t) : Prop :=
  forall k it, Inventory.items inv !! k = Some it -> Item.id it = k.

(** The entity [load] rebuilds from the saved position and health of [e]:
    [Entity(x, y)] with its health set. *)
Definition rested (e : Entity.t) : Entity.t :=
  Entity.set_health (Entity.health e) (Entity.new (Entity.x e) (Entity.y e)).

(** The player [Player.from_dict] rebuilds from what [to_dict] saves of [p]. *)
Definition restored (p : Player.t) : Player.t :=
  Player.mk (Player.x p) (Player.y p) 0 (Player.health p) (Player.hunger p)
            (Player.thirst p) (Player.stamina p)
            (Inventory.set_items (Inventory.items (Player.inventory p)) Inventory.new)
            (Player.equipped p) 10.

(** ** Concrete inputs *)

(** A grid of one column and two rows: a forest tile with one unit of tree
    left, and a bare sand tile. *)
Definition last_tree : Tile.t := Tile.mk TILE_FOREST (Some RESOURCE_TREE) 1 None.
Definition bare_sand : Tile.t := Tile.mk TILE_SAND None 0 None.
Definition orchard : World.t := World.mk 1 2 [[last_tree; bare_sand]].

(** A short session on a new inventory; the fourth call asks for more wood
    than is held. *)
Definition session : list inv_op :=
  [Add "wood" "Wood" 5; Add "stone" "Stone" 3; Remove "wood" 3;
   Remove "wood" 7; Add "wood" "Wood" 2].

(** An inventory whose capacity is used up by a single stack. *)
Definition one_slot : Inventory.t :=
  Inventory.mk {[ "stone" := Item.mk "stone" "Stone" 3 ]} 1.

(** Thirty distinct stacks: an inventory of the default capacity, filled up
    through [add]. *)
Definition thirty_ids : list string :=
  ["i01"; "i02"; "i03"; "i04"; "i05"; "i06"; "i07"; "i08"; "i09"; "i10";
   "i11"; "i12"; "i13"; "i14"; "i15"; "i16"; "i17"; "i18"; "i19"; "i20";
   "i21"; "i22"; "i23"; "i24"; "i25"; "i26"; "i27"; "i28"; "i29"; "i30"].

Definition crowded : Inventory.t :=
  run_ops ((fun s => Add s (capitalize s) 1) <$> thirty_ids) Inventory.new.

(** One tile of forest with five units of tree, the player standing on it. *)
Definition grove : World.t :=
  World.mk 1 1 [[Tile.mk TILE_FOREST (Some RESOURCE_TREE) 5 None]].

Definition packed_game : Game.t :=
  Game.set_inventory crowded (Game.fresh grove []).

(** One tile of forest whose tree has a single unit left. *)
Definition stump : World.t := World.mk 1 1 [[last_tree]].

(** One tile with a campfire already on it. *)
Definition hearth : World.t :=
  World.mk 1 1 [[Tile.mk TILE_GRASS None 0 (Some "campfire")]].

(** The player stands on the hearth, holding five wood under another display
    name. *)
Definition timber : Inventory.t := (Inventory.add Inventory.new "wood" "Timber" 5).2.
Definition timber_game : Game.t := Game.set_inventory timber (Game.fresh hearth []).

(** Thirty-one stacks, as [Inventory.from_list] builds them from a save that
    lists the thirty stacks above and five wood: the capacity stays 30. *)
Definition overfull : Inventory.t :=
  Inventory.set_items (<["wood" := Item.mk "wood" "Wood" 5]> (Inventory.items crowded))
                      Inventory.new.
Definition overfull_game : Game.t := Game.set_inventory overfull (Game.fresh hearth []).

(** A generator whose every draw is 1/2: no roaming, weather or flee roll
    fires.  [calm_at n] is the generator after [n] draws. *)
Definition calm_at (n : nat) : rng := mkRng (fun _ => (1 / 2)%R) n.
Definition calm : rng := calm_at 0.

(** The default world size, all grass, with three entities spawned far from
    the centre, where the player starts. *)
Definition meadow : World.t :=
  World.mk WORLD_WIDTH WORLD_HEIGHT
           (replicate (Z.to_nat WORLD_WIDTH) (replicate (Z.to_nat WORLD_HEIGHT) Tile.default)).
Definition herd : list Entity.t :=
  [Entity.new 0 0; Entity.new 2560 1920; Entity.new 320 960].
Definition spawn : Game.t := Game.fresh meadow herd.

Definition no_keys : Keys := mkKeys false false false false false.
Definition walk_up : Keys := mkKeys false true false false false.
Definition sprint_up : Keys := mkKeys true true false false false.
Definition sprint_still : Keys := mkKeys true false false false false.

(** The spawned game a moment later: one entity has started to roam, the
    player has taken a spear in hand. *)
Definition roaming_herd : list Entity.t :=
  [Entity.mk 100 200 30 (-40) 15 40 Entity.roam 10; Entity.new 2560 1920].
Definition camp : Game.t :=
  Game.set_player (Player.set_equipped (Some "wooden_spear") (Game.player (Game.fresh orchard [])))
    (Game.set_entities roaming_herd (Game.fresh orchard [])).

(** A save file cut short: it holds the one-tile world [stump] and nothing
    else. *)
Definition stump_doc : json :=
  JObj [("w", JInt 1); ("h", JInt 1);
        ("tiles", JList [JList [World.tile_to_dict last_tree]])].
Definition half_save : json := JObj [("world", stump_doc)].
Definition half_disk : gmap string file := {[ SAVE_FILE := Doc half_save ]}.

(** ** Tile bookkeeping

    A tile either carries a resource with a positive amount, or carries none
    and has amount 0: what [generate] produces and what the depletion rule of
    [harvest] re-establishes. *)
Definition stocked (tl : Tile.t) : Prop :=
  (truthy (Tile.resource tl) = true /\ 0 < Tile.resource_amount tl) \/
  (Tile.resource tl = None /\ Tile.resource_amount tl = 0).

Definition sound (wd : World.t) : Prop :=
  Forall (Forall stocked) (World.tiles wd).

(** ** Inventory bookkeeping

    Every stack holds at least one unit. *)
Definition positive (inv : Inventory.t) : Prop :=
  forall k it, Inventory.items inv !! k = Some it -> 0 < Item.amount it.

(** The number of stacks does not exceed the capacity. *)
Definition within_capacity (inv : Inventory.t) : Prop :=
  Z.of_nat (size (Inventory.items inv)) <= Inventory.capacity inv.

(** An [add] call puts in at least one unit. *)
Definition adds_units (op : inv_op) : Prop :=
  match op with
  | Add _ _ amount => 0 < amount
  | Remove _ _ => True
  end.

(** The id a call works on. *)
Definition op_id (op : inv_op) : string :=
  match op with
  | Add item_id _ _ => item_id
  | Remove item_id _ => item_id
  end.

(** ** Recipe requirements

    The amount of [item_id] a requirement list asks for. *)
Definition needed (req : list (string * Z)) (item_id : string) : Z :=
  foldr (fun '(rid, amt) acc => if decide (rid = item_id) then amt + acc else acc) 0 req.

(** The recipes that place a structure, with the wood they cost and the name
    written on the tile. *)
Definition STRUCTURES : list (string * (Z * string)) :=
  [("campfire", (5, "campfire")); ("wooden_shack", (20, "shack"))].

(** ** Entities as [Entity.__init__] leaves them, whatever their health. *)
Definition at_rest (e : Entity.t) : Prop :=
  Entity.vx e = 0%R /\ Entity.vy e = 0%R /\ Entity.state e = Entity.idle /\
  Entity.speed e = 40%R /\ Entity.radius e = 10.


(** ** What a tick leaves alone

    The parts of the game a simulation tick never writes; the pause flag is
    only ever set by it. *)
Definition carried (a b : Game.t) : Prop :=
  Game.world b = Game.world a /\
  Player.inventory (Game.player b) = Player.inventory (Game.player a) /\
  Player.equipped (Game.player b) = Player.equipped (Game.player a) /\
  Game.is_running b = Game.is_running a /\
  Game.build_mode b = Game.build_mode a /\
  Game.selected_structure b = Game.selected_structure a /\
  (Game.paused a = true -> Game.paused b = true).

(** Whether an entity is within reach of the player: the test of the
    contact check in [update]. *)
Definition in_reach (p : Player.t) (e : Entity.t) : bool :=
  if Rlt_dec (hypot (Entity.x e - Player.x p) (Entity.y e - Player.y p)) 20
  then true else false.

(** The number of entities within reach of the player. *)
Definition touching (p : Player.t) (es : list Entity.t) : nat :=
  length (List.filter (in_reach p) es).

(** An entity in good health that is not fleeing. *)
Definition steady (e : Entity.t) : Prop :=
  (20 <= Entity.health e)%R /\ Entity.state e <> Entity.flee.

(** The keys of a sprint towards the upper left corner. *)
Definition sprint_corner : Keys := mkKeys true true false true false.

(** A wounded entity five units from the origin, and a generator whose first
    draw fires no roaming rule while the later ones fire the flee rule. *)
Definition wounded : Entity.t := Entity.mk 3 4 0 0 15 40 Entity.idle 10.
Definition skittish : rng :=
  mkRng (fun n => match n with O => (1 / 2)%R | S _ => (1 / 8)%R end) 0.

(** ** Events and drawing *)

(** What event handling never writes: the player's position, hunger and
    thirst, the clock, the weather, the entities, the camera, the selected
    structure and the size of the world; and it never sets the running flag
    again. *)
Definition settled (a b : Game.t) : Prop :=
  Player.x (Game.player b) = Player.x (Game.player a) /\
  Player.y (Game.player b) = Player.y (Game.player a) /\
  Player.hunger (Game.player b) = Player.hunger (Game.player a) /\
  Player.thirst (Game.player b) = Player.thirst (Game.player a) /\
  Game.time_of_day b = Game.time_of_day a /\
  Game.weather b = Game.weather a /\
  Game.entities b = Game.entities a /\
  Game.camera_x b = Game.camera_x a /\
  Game.camera_y b = Game.camera_y a /\
  Game.selected_structure b = Game.selected_structure a /\
  World.w (Game.world b) = World.w (Game.world a) /\
  World.h (Game.world b) = World.h (Game.world a) /\
  (Game.is_running a = false -> Game.is_running b = false).

(** A tile rectangle with its corner at [(sx, sy)] shows on the screen. *)
Definition on_screen (sx sy : Z) : Prop :=
  - TILE_SIZE < sx < SCREEN_WIDTH /\ - TILE_SIZE < sy < SCREEN_HEIGHT.


(** ** Generated tiles

    The six kinds of tile [generate] makes. *)
Definition generated (tl : Tile.t) : Prop :=
  Tile.built tl = None /\
  ((Tile.kind tl = TILE_WATER /\ Tile.resource tl = None /\ Tile.resource_amount tl = 0) \/
   (Tile.kind tl = TILE_FOREST /\ Tile.resource tl = Some RESOURCE_TREE /\
    3 <= Tile.resource_amount tl <= 8) \/
   (Tile.kind tl = TILE_ROCK /\ Tile.resource tl = Some RESOURCE_STONE /\
    2 <= Tile.resource_amount tl <= 6) \/
   (Tile.kind tl = TILE_SAND /\ Tile.resource tl = None /\ Tile.resource_amount tl = 0) \/
   (Tile.kind tl = TILE_GRASS /\ Tile.resource tl = Some RESOURCE_BUSH /\
    1 <= Tile.resource_amount tl <= 4) \/
   (Tile.kind tl = TILE_GRASS /\ Tile.resource tl = None /\ Tile.resource_amount tl = 0)).

(** [random.randint(a, b)] returns an integer from [a] to [b]. *)
Definition in_range (randint : Z -> Z -> rng -> Z * rng) : Prop :=
  forall a b g, a <= b -> a <= (randint a b g).1 <= b.

(** A stand-in for [randint] that always returns the lower end. *)
Definition lowest (a b : Z) (g : rng) : Z * rng := (a, g).

(** ** Players with a past *)

(** A player turned by a quarter, hurt, hungry and thirsty, with a spear in
    hand and an inventory of capacity 5 that holds four units of wood. *)
Definition veteran : Player.t :=
  Player.mk 100%R 200%R (1 / 4)%R 60%R 30%R 45%R 80%R
    (Inventory.add (Inventory.mk ∅ 5) "wood" "Wood" 4).2
    (Some "wooden_spear") 10%R.

(** The fresh game by the hearth, the player tired and hurt. *)
Definition weary_game : Game.t :=
  Game.set_player
    (Player.set_health 50%R
       (Player.set_stamina 70%R (Game.player (Game.fresh hearth []))))
    (Game.fresh hearth []).

(** ** Inside the world *)

(** A point within the pixel bounds [update_player] clamps to. *)
Definition within (wd : World.t) (x y : R) : Prop :=
  (0 <= x <= IZR (World.w wd * TILE_SIZE - 1))%R /\
  (0 <= y <= IZR (World.h wd * TILE_SIZE - 1))%R.


(** The steps of damage the contact check takes: [n] subtractions of
    [5 * dt], one after the other. *)
Definition bitten (n : nat) (dt health : R) : R :=
  Nat.iter n (fun h => (h - 5 * dt)%R) health.

(** On the two-tile world, an entity five units from a player who is down to
    a sixteenth of a health point. *)
Definition cornered : Game.t :=
  Game.set_player (Player.set_health (1 / 16)%R (Game.player (Game.fresh orchard [])))
    (Game.set_entities [Entity.new 19 36] (Game.fresh orchard [])).
(** * Properties *)

(** ** The error monad *)

Lemma bind_Ok {A B} (m : result A) (f : A -> result B) (b : B) :
  m ≫= f = Ok b -> exists a, m = Ok a /\ f a = Ok b.
Proof. destruct m as [a|e]; simpl; intros H; [eauto | discriminate]. Qed.

Ltac inv_bind H :=
  let a := fresh "a" in
  let Ha := fresh "Ha" in
  apply bind_Ok in H; destruct H as (a & Ha & H).

(** ** World: tiles and harvesting *)

Section WorldFacts.
Context (wd : World.t) (tx ty : Z).

Lemma get_tile_Some (tl : Tile.t) :
  World.get_tile wd tx ty = Ok (Some tl) ->
  World.in_bounds wd tx ty = true /\ World.index wd tx ty = Ok tl.
Proof.
  unfold World.get_tile.
  destruct (World.in_bounds wd tx ty); simpl; [|discriminate].
  destruct (World.index wd tx ty); simpl; [|discriminate].
  intros [= ->]. auto.
Qed.

Lemma get_tile_None :
  World.get_tile wd tx ty = Ok None -> World.in_bounds wd tx ty = false.
Proof.
  unfold World.get_tile.
  destruct (World.in_bounds wd tx ty); simpl; [|done].
  destruct (World.index wd tx ty); simpl; discriminate.
Qed.

Lemma index_store (old new : Tile.t) :
  World.index wd tx ty = Ok old ->
  World.index (World.store wd tx ty new) tx ty = Ok new.
Proof.
  unfold World.index, World.store; simpl.
  destruct (World.tiles wd !! Z.to_nat tx) as [col|] eqn:Hcol; [|discriminate].
  destruct (col !! Z.to_nat ty) as [tl|] eqn:Htl; [|discriminate].
  intros _. rewrite list_lookup_alter_eq, Hcol. simpl.
  rewrite list_lookup_insert_eq; [done|]. by eapply lookup_lt_Some.
Qed.

Lemma in_bounds_store (new : Tile.t) (ux uy : Z) :
  World.in_bounds (World.store wd tx ty new) ux uy = World.in_bounds wd ux uy.
Proof. reflexivity. Qed.

Lemma get_tile_store (old new : Tile.t) :
  World.get_tile wd tx ty = Ok (Some old) ->
  World.get_tile (World.store wd tx ty new) tx ty = Ok (Some new).
Proof.
  intros [Hb Hi]%get_tile_Some. unfold World.get_tile.
  rewrite in_bounds_store, Hb. simpl. by erewrite index_store.
Qed.

(** Every other cell is left as it was. *)
Lemma index_store_other (new : Tile.t) (ux uy : Z) :
  0 <= tx -> 0 <= ty -> 0 <= ux -> 0 <= uy -> (ux, uy) <> (tx, ty) ->
  World.index (World.store wd tx ty new) ux uy = World.index wd ux uy.
Proof.
  intros ? ? ? ? Hne. unfold World.index, World.store; simpl.
  destruct (decide (ux = tx)) as [->|Hx].
  - rewrite list_lookup_alter_eq.
    destruct (World.tiles wd !! Z.to_nat tx) as [col|]; simpl; [|done].
    rewrite list_lookup_insert_ne; [done|]. intros E. apply Hne. f_equal. lia.
  - rewrite list_lookup_alter_ne; [done|]. lia.
Qed.
End WorldFacts.

Lemma deplete_resource (tl : Tile.t) : Tile.resource (World.deplete tl) = None.
Proof.
  unfold World.deplete. simpl.
  repeat (destruct (String.eqb _ _); simpl); reflexivity.
Qed.

Lemma deplete_kind (tl : Tile.t) :
  Tile.kind (World.deplete tl) =
  if decide (Tile.kind tl = TILE_FOREST \/ Tile.kind tl = TILE_ROCK)
  then TILE_GRASS else Tile.kind tl.
Proof.
  unfold World.deplete. simpl.
  destruct (String.eqb_spec (Tile.kind tl) TILE_FOREST) as [->|Hf]; simpl.
  - reflexivity.
  - destruct (String.eqb_spec (Tile.kind tl) TILE_ROCK) as [->|Hr]; simpl.
    + reflexivity.
    + rewrite decide_False; [done|]. intros [?|?]; done.
Qed.

Lemma deplete_rest (tl : Tile.t) :
  Tile.resource_amount (World.deplete tl) = Tile.resource_amount tl /\
  Tile.built (World.deplete tl) = Tile.built tl.
Proof.
  unfold World.deplete. simpl.
  repeat (destruct (String.eqb _ _); simpl); auto.
Qed.

(** C2. [harvest] on a tile that exists and holds a resource returns
    [min(amount, resource_amount)] and leaves [resource_amount - taken] on the
    tile; once that is 0 (or less) the resource is cleared and a forest or
    rock tile becomes grass while every other kind is kept; a tile with
    units left keeps resource and kind.  Out of bounds, or on a tile
    without resource, it returns 0 and changes nothing. *)
Theorem harvest_spec (wd : World.t) (tx ty amount : Z) :
  (forall tl : Tile.t,
      World.get_tile wd tx ty = Ok (Some tl) ->
      truthy (Tile.resource tl) = true ->
      let taken := Z.min amount (Tile.resource_amount tl) in
      exists (wd' : World.t) (tl' : Tile.t),
        World.harvest wd tx ty amount = Ok (taken, wd') /\
        World.get_tile wd' tx ty = Ok (Some tl') /\
        Tile.resource_amount tl' = Tile.resource_amount tl - taken /\
        Tile.built tl' = Tile.built tl /\
        (Tile.resource_amount tl' <= 0 ->
           Tile.resource tl' = None /\
           Tile.kind tl' =
             if decide (Tile.kind tl = TILE_FOREST \/ Tile.kind tl = TILE_ROCK)
             then TILE_GRASS else Tile.kind tl) /\
        (0 < Tile.resource_amount tl' ->
           Tile.resource tl' = Tile.resource tl /\ Tile.kind tl' = Tile.kind tl)) /\
  (forall tl : Tile.t,
      World.get_tile wd tx ty = Ok (Some tl) ->
      truthy (Tile.resource tl) = false ->
      World.harvest wd tx ty amount = Ok (0, wd)) /\
  (World.get_tile wd tx ty = Ok None ->
      World.harvest wd tx ty amount = Ok (0, wd)).
Proof.
  split; [|split].
  - intros tl Hget Hres taken.
    exists (World.store wd tx ty (World.harvested tl taken)), (World.harvested tl taken).
    split; [|split].
    + unfold World.harvest. rewrite Hget. simpl. by rewrite Hres.
    + by eapply get_tile_store.
    + unfold World.harvested. simpl.
      destruct (Z.leb_spec (Tile.resource_amount tl - taken) 0) as [Hle|Hgt].
      * destruct (deplete_rest (Tile.set_resource_amount
                                  (Tile.resource_amount tl - taken) tl)) as [Ha Hb].
        rewrite Ha, Hb, deplete_resource, deplete_kind. simpl.
        repeat split; try done; intros; lia.
      * simpl. repeat split; try done; intros; lia.
  - intros tl Hget Hres. unfold World.harvest. rewrite Hget. simpl. by rewrite Hres.
  - intros Hget. unfold World.harvest. by rewrite Hget.
Qed.

(** The spec's scenario: harvesting a tree tile with one unit left returns 1,
    clears the resource and turns the tile to grass; the sand tile and a
    coordinate outside the grid yield 0. *)
Lemma harvest_spec_witness :
  (exists wd' : World.t,
      World.harvest orchard 0 0 1 = Ok (1, wd') /\
      World.get_tile wd' 0 0 = Ok (Some (Tile.mk TILE_GRASS None 0 None))) /\
  World.harvest orchard 0 1 1 = Ok (0, orchard) /\
  World.harvest orchard 3 7 1 = Ok (0, orchard).
Proof.
  split; [|split].
  - destruct (proj1 (harvest_spec orchard 0 0 1) last_tree eq_refl eq_refl)
      as (wd' & tl' & H1 & H2 & H3 & H4 & H5 & _).
    exists wd'. split; [exact H1|].
    destruct H5 as [H5 H6]; [rewrite H3; reflexivity|].
    destruct tl' as [k r a b]; simpl in *. by subst.
  - exact (proj1 (proj2 (harvest_spec orchard 0 1 1)) bare_sand eq_refl eq_refl).
  - exact (proj2 (proj2 (harvest_spec orchard 3 7 1)) eq_refl).
Defined.

(** ** Inventory *)

Section InventoryFacts.
Context (inv : Inventory.t).

Lemma add_existing (i n : string) (a : Z) (it : Item.t) :
  Inventory.items inv !! i = Some it ->
  Inventory.add inv i n a =
    (true, Inventory.set_items
             (<[i := Item.set_amount (Item.amount it + a) it]> (Inventory.items inv)) inv).
Proof. intros H. unfold Inventory.add. by rewrite H. Qed.

Lemma add_full (i n : string) (a : Z) :
  Inventory.items inv !! i = None ->
  Inventory.capacity inv <= Z.of_nat (size (Inventory.items inv)) ->
  Inventory.add inv i n a = (false, inv).
Proof.
  intros H Hc. unfold Inventory.add. rewrite H.
  destruct (Z.leb_spec (Inventory.capacity inv) (Z.of_nat (size (Inventory.items inv))));
    [done | lia].
Qed.

Lemma add_new (i n : string) (a : Z) :
  Inventory.items inv !! i = None ->
  Z.of_nat (size (Inventory.items inv)) < Inventory.capacity inv ->
  Inventory.add inv i n a =
    (true, Inventory.set_items (<[i := Item.mk i n a]> (Inventory.items inv)) inv).
Proof.
  intros H Hc. unfold Inventory.add. rewrite H.
  destruct (Z.leb_spec (Inventory.capacity inv) (Z.of_nat (size (Inventory.items inv))));
    [lia | done].
Qed.

Lemma add_failed (i n : string) (a : Z) (inv' : Inventory.t) :
  Inventory.add inv i n a = (false, inv') -> inv' = inv.
Proof.
  unfold Inventory.add.
  destruct (Inventory.items inv !! i); [discriminate|].
  destruct (_ <=? _); [|discriminate]. by intros [= <-].
Qed.

Lemma stock_add (i n j : string) (a : Z) (inv' : Inventory.t) :
  Inventory.add inv i n a = (true, inv') ->
  Inventory.stock inv' j =
    if decide (i = j) then Inventory.stock inv j + a else Inventory.stock inv j.
Proof.
  unfold Inventory.add, Inventory.stock.
  destruct (Inventory.items inv !! i) as [it|] eqn:Hi.
  - intros [= <-]. simpl. destruct (decide (i = j)) as [<-|Hne].
    + by rewrite lookup_insert_eq, Hi.
    + by rewrite lookup_insert_ne.
  - destruct (_ <=? _); [discriminate|]. intros [= <-]. simpl.
    destruct (decide (i = j)) as [<-|Hne].
    + rewrite lookup_insert_eq, Hi. simpl. lia.
    + by rewrite lookup_insert_ne.
Qed.

Lemma remove_failed (i : string) (a : Z) (inv' : Inventory.t) :
  Inventory.remove inv i a = (false, inv') -> inv' = inv.
Proof.
  unfold Inventory.remove.
  destruct (Inventory.items inv !! i); [|by intros [= <-]].
  destruct (_ <? _); [by intros [= <-]|].
  simpl. destruct (_ =? _); discriminate.
Qed.

Lemma remove_flag (i : string) (a : Z) :
  (Inventory.remove inv i a).1 = Inventory.has inv i a.
Proof.
  unfold Inventory.remove, Inventory.has.
  destruct (Inventory.items inv !! i) as [it|]; [|done].
  destruct (Z.ltb_spec (Item.amount it) a), (Z.leb_spec a (Item.amount it));
    try lia; [done|].
  simpl. by destruct (_ =? _).
Qed.

Lemma stock_remove (i j : string) (a : Z) (inv' : Inventory.t) :
  Inventory.remove inv i a = (true, inv') ->
  Inventory.stock inv' j =
    if decide (i = j) then Inventory.stock inv j - a else Inventory.stock inv j.
Proof.
  unfold Inventory.remove, Inventory.stock.
  destruct (Inventory.items inv !! i) as [it|] eqn:Hi; [|discriminate].
  destruct (_ <? _); [discriminate|]. simpl.
  destruct (Z.eqb_spec (Item.amount it - a) 0) as [Hz|Hnz]; intros [= <-]; simpl.
  - destruct (decide (i = j)) as [<-|Hne].
    + rewrite lookup_delete_eq, Hi. lia.
    + by rewrite lookup_delete_ne.
  - destruct (decide (i = j)) as [<-|Hne].
    + by rewrite lookup_insert_eq, Hi.
    + by rewrite lookup_insert_ne.
Qed.

Lemma has_stock (i : string) (a : Z) :
  Inventory.has inv i a = true -> a <= Inventory.stock inv i.
Proof.
  unfold Inventory.has, Inventory.stock.
  destruct (Inventory.items inv !! i); [|discriminate]. lia.
Qed.
End InventoryFacts.

Lemma stock_apply_op (inv : Inventory.t) (op : inv_op) (j : string) :
  Inventory.stock (apply_op inv op).2 j =
  Inventory.stock inv j + added j [op] inv - removed j [op] inv.
Proof.
  destruct op as [i n a|i a]; simpl.
  - destruct (Inventory.add inv i n a) as [[] inv'] eqn:E; simpl.
    + rewrite (stock_add _ _ _ _ _ _ E).
      destruct (decide (i = j)).
      * rewrite bool_decide_true by done. lia.
      * rewrite bool_decide_false by done. lia.
    + apply add_failed in E as ->. lia.
  - destruct (Inventory.remove inv i a) as [[] inv'] eqn:E; simpl.
    + rewrite (stock_remove _ _ _ _ _ E).
      destruct (decide (i = j)).
      * rewrite bool_decide_true by done. lia.
      * rewrite bool_decide_false by done. lia.
    + apply remove_failed in E as ->. lia.
Qed.

Lemma added_cons (j : string) (op : inv_op) (ops : list inv_op) (inv : Inventory.t) :
  added j (op :: ops) inv = added j [op] inv + added j ops (apply_op inv op).2.
Proof.
  simpl. destruct (apply_op inv op) as [ok inv']; simpl.
  destruct op; [destruct (_ && _)|]; lia.
Qed.

Lemma removed_cons (j : string) (op : inv_op) (ops : list inv_op) (inv : Inventory.t) :
  removed j (op :: ops) inv = removed j [op] inv + removed j ops (apply_op inv op).2.
Proof.
  simpl. destruct (apply_op inv op) as [ok inv']; simpl.
  destruct op; [|destruct (_ && _)]; lia.
Qed.

Lemma stock_run_ops (ops : list inv_op) (inv : Inventory.t) (j : string) :
  Inventory.stock (run_ops ops inv) j =
  Inventory.stock inv j + added j ops inv - removed j ops inv.
Proof.
  revert inv. induction ops as [|op ops IH]; intros inv.
  - simpl. lia.
  - rewrite added_cons, removed_cons. cbn [run_ops].
    rewrite IH, stock_apply_op. lia.
Qed.

(** C8. After any sequence of [add] and [remove] calls the stock of an id is
    its initial stock (0 in a new inventory) plus the amounts added minus the
    amounts removed by the calls that succeeded.  [remove] succeeds exactly
    when the id is held with at least the requested amount; it then takes the
    whole amount and leaves a non-negative stock, and otherwise changes
    nothing.  [add] to a held id always succeeds; [add] of a new id fails
    without change when the number of stacks has reached the capacity, and
    makes a new stack otherwise. *)
Theorem inventory_ledger (ops : list inv_op) (inv : Inventory.t) (i n : string) (a : Z) :
  Inventory.stock (run_ops ops Inventory.new) i =
    added i ops Inventory.new - removed i ops Inventory.new /\
  Inventory.stock (run_ops ops inv) i =
    Inventory.stock inv i + added i ops inv - removed i ops inv /\
  (Inventory.has inv i a = true ->
     exists inv', Inventory.remove inv i a = (true, inv') /\
       Inventory.stock inv' i = Inventory.stock inv i - a /\
       0 <= Inventory.stock inv' i) /\
  (Inventory.items inv !! i = None \/ Inventory.stock inv i < a ->
     Inventory.remove inv i a = (false, inv)) /\
  (is_Some (Inventory.items inv !! i) ->
     exists inv', Inventory.add inv i n a = (true, inv') /\
       Inventory.stock inv' i = Inventory.stock inv i + a) /\
  (Inventory.items inv !! i = None ->
     Inventory.capacity inv <= Z.of_nat (size (Inventory.items inv)) ->
     Inventory.add inv i n a = (false, inv)) /\
  (Inventory.items inv !! i = None ->
     Z.of_nat (size (Inventory.items inv)) < Inventory.capacity inv ->
     exists inv', Inventory.add inv i n a = (true, inv') /\
       Inventory.stock inv' i = a).
Proof.
  repeat apply conj.
  - rewrite stock_run_ops. unfold Inventory.stock at 1. simpl.
    rewrite lookup_empty. lia.
  - apply stock_run_ops.
  - intros Hhas. pose proof (remove_flag inv i a) as Hflag. rewrite Hhas in Hflag.
    destruct (Inventory.remove inv i a) as [ok inv'] eqn:E. simpl in Hflag. subst ok.
    exists inv'. split; [done|].
    pose proof (stock_remove _ _ i _ _ E) as Hs. rewrite decide_True in Hs by done.
    apply has_stock in Hhas. lia.
  - intros Hno. pose proof (remove_flag inv i a) as Hflag.
    assert (Inventory.has inv i a = false) as Hhas.
    { unfold Inventory.has, Inventory.stock in *.
      destruct (Inventory.items inv !! i) as [it|]; [|done].
      destruct Hno as [?|?]; [done|]. apply Z.leb_gt. lia. }
    rewrite Hhas in Hflag.
    destruct (Inventory.remove inv i a) as [ok inv'] eqn:E. simpl in Hflag. subst ok.
    by apply remove_failed in E as ->.
  - intros [it Hit]. eexists. split; [by apply add_existing|].
    unfold Inventory.stock. simpl. by rewrite lookup_insert_eq, Hit.
  - apply add_full.
  - intros Hno Hroom. eexists. split; [by apply add_new|].
    unfold Inventory.stock. simpl. by rewrite lookup_insert_eq.
Qed.

(** On the session above the wood stock ends at [5 + 2 - 3 = 4]; the calls on
    a two-stack inventory and on the one-slot inventory follow the rules. *)
Lemma inventory_ledger_witness :
  Inventory.stock (run_ops session Inventory.new) "wood" = 4 /\
  (exists inv', Inventory.remove (run_ops session Inventory.new) "wood" 4 = (true, inv') /\
     Inventory.stock inv' "wood" = 0 /\ 0 <= Inventory.stock inv' "wood") /\
  Inventory.remove (run_ops session Inventory.new) "wood" 5
    = (false, run_ops session Inventory.new) /\
  (exists inv', Inventory.add one_slot "stone" "Stone" 2 = (true, inv') /\
     Inventory.stock inv' "stone" = 5) /\
  Inventory.add one_slot "wood" "Wood" 1 = (false, one_slot) /\
  (exists inv', Inventory.add Inventory.new "wood" "Wood" 5 = (true, inv') /\
     Inventory.stock inv' "wood" = 5).
Proof.
  repeat apply conj.
  - exact (proj1 (inventory_ledger session Inventory.new "wood" "" 0)).
  - apply (proj1 (proj2 (proj2
             (inventory_ledger [] (run_ops session Inventory.new) "wood" "" 4)))).
    vm_compute. reflexivity.
  - apply (proj1 (proj2 (proj2 (proj2
             (inventory_ledger [] (run_ops session Inventory.new) "wood" "" 5))))).
    right. vm_compute. reflexivity.
  - apply (proj1 (proj2 (proj2 (proj2 (proj2
             (inventory_ledger [] one_slot "stone" "Stone" 2)))))).
    vm_compute. eauto.
  - apply (proj1 (proj2 (proj2 (proj2 (proj2 (proj2
             (inventory_ledger [] one_slot "wood" "Wood" 1))))))).
    + vm_compute. reflexivity.
    + vm_compute. discriminate.
  - apply (proj2 (proj2 (proj2 (proj2 (proj2 (proj2
             (inventory_ledger [] Inventory.new "wood" "Wood" 5))))))).
    + vm_compute. reflexivity.
    + vm_compute. reflexivity.
Defined.

(** ** Interaction with the tile under the player *)

Lemma tile_coord_IZR (z : Z) : tile_coord (IZR z) = z `div` 32.
Proof.
  unfold tile_coord, TILE_SIZE. symmetry. apply Int_part_spec.
  pose proof (Z.div_mod z 32 ltac:(lia)) as Hdm.
  pose proof (Z.mod_pos_bound z 32 ltac:(lia)) as [Hlo Hhi].
  assert (IZR z = 32 * IZR (z `div` 32) + IZR (z `mod` 32))%R as Hz.
  { rewrite Hdm at 1. rewrite plus_IZR, mult_IZR. reflexivity. }
  apply IZR_le in Hlo. apply IZR_lt in Hhi.
  rewrite Hz. split.
  - apply Rmult_lt_reg_r with 32%R; [lra|]. field_simplify. lra.
  - apply Rmult_le_reg_r with 32%R; [lra|]. field_simplify. lra.
Qed.

Lemma try_interact_resource (self : Game.t) (tx ty : Z) (tl : Tile.t) :
  player_tile self = (tx, ty) ->
  World.get_tile (Game.world self) tx ty = Ok (Some tl) ->
  truthy (Tile.resource tl) = true ->
  0 < Tile.resource_amount tl ->
  Game.try_interact self =
    Ok (Game.collect (World.harvested tl 1) 1
          (Game.set_world (World.store (Game.world self) tx ty (World.harvested tl 1)) self)).
Proof.
  unfold player_tile. intros [= Hx Hy] Hget Hres Hpos.
  unfold Game.try_interact. rewrite Hx, Hy. rewrite Hget. simpl. rewrite Hres.
  unfold World.harvest. rewrite Hget. simpl. rewrite Hres. simpl.
  rewrite Z.min_l by lia. simpl.
  apply get_tile_Some in Hget as [_ Hidx].
  by rewrite (index_store _ _ _ _ _ Hidx).
Qed.

Lemma collect_cleared (tile : Tile.t) (taken : Z) (self : Game.t) :
  Tile.resource tile = None -> Game.collect tile taken self = self.
Proof.
  intros H. unfold Game.collect. rewrite H.
  repeat (rewrite decide_False by discriminate). reflexivity.
Qed.

Lemma collect_drop (tile : Tile.t) (taken : Z) (self : Game.t) (res item name : string) :
  (res, (item, name)) ∈ DROPS -> Tile.resource tile = Some res ->
  Game.collect tile taken self = Game.give item name taken self.
Proof.
  intros Hdrop H. unfold Game.collect. rewrite H. unfold DROPS in Hdrop.
  repeat (apply elem_of_cons in Hdrop as [[= -> -> ->]|Hdrop]);
    [reflexivity | reflexivity | reflexivity | by apply elem_of_nil in Hdrop].
Qed.

Lemma harvested_last (tl : Tile.t) :
  Tile.resource_amount tl = 1 ->
  Tile.resource_amount (World.harvested tl 1) = 0 /\
  Tile.resource (World.harvested tl 1) = None.
Proof.
  intros H. unfold World.harvested. cbn [Tile.resource_amount Tile.set_resource_amount].
  rewrite H. change (1 - 1 <=? 0) with true. cbn iota.
  rewrite deplete_resource.
  destruct (deplete_rest (Tile.set_resource_amount (1 - 1) tl)) as [-> _]. done.
Qed.

Lemma harvested_more (tl : Tile.t) :
  1 < Tile.resource_amount tl ->
  World.harvested tl 1 = Tile.set_resource_amount (Tile.resource_amount tl - 1) tl.
Proof.
  intros H. unfold World.harvested. simpl.
  destruct (Z.leb_spec (Tile.resource_amount tl - 1) 0); [lia | done].
Qed.

(** C10 (as amended).  An interaction on a resource tile with one unit left
    removes the unit and clears the tile's resource, and the player is left
    exactly as before: no item is added, since the branch on the resource kind
    reads the tile after [harvest] has cleared it.  With more than one unit
    on a tree, stone or bush tile, one unit is taken, the resource stays, and
    the inventory is the result of adding one unit of wood, stone or berries:
    its stock grows by exactly the taken unit when the inventory holds that
    item or has a free stack, and the unit is dropped when a full inventory
    holds no such stack. *)
Theorem try_interact_harvest (self : Game.t) (tx ty : Z) (tl : Tile.t) :
  let inv := Player.inventory (Game.player self) in
  player_tile self = (tx, ty) ->
  World.get_tile (Game.world self) tx ty = Ok (Some tl) ->
  truthy (Tile.resource tl) = true ->
  (Tile.resource_amount tl = 1 ->
     exists self' tl',
       Game.try_interact self = Ok self' /\
       World.get_tile (Game.world self') tx ty = Ok (Some tl') /\
       Tile.resource_amount tl' = 0 /\ Tile.resource tl' = None /\
       Game.player self' = Game.player self) /\
  (1 < Tile.resource_amount tl ->
     forall res item name, (res, (item, name)) ∈ DROPS -> Tile.resource tl = Some res ->
     exists self' tl',
       Game.try_interact self = Ok self' /\
       World.get_tile (Game.world self') tx ty = Ok (Some tl') /\
       Tile.resource_amount tl' = Tile.resource_amount tl - 1 /\
       Tile.resource tl' = Some res /\
       Player.inventory (Game.player self') = (Inventory.add inv item name 1).2 /\
       (is_Some (Inventory.items inv !! item) \/
        Z.of_nat (size (Inventory.items inv)) < Inventory.capacity inv ->
          Inventory.stock (Player.inventory (Game.player self')) item
            = Inventory.stock inv item + 1) /\
       (Inventory.items inv !! item = None ->
        Inventory.capacity inv <= Z.of_nat (size (Inventory.items inv)) ->
          Player.inventory (Game.player self') = inv)).
Proof.
  intros inv Htile Hget Hres. subst inv.
  pose proof (try_interact_resource self tx ty tl Htile Hget Hres) as Hstep. split.
  - intros Hone. rewrite Hstep by lia.
    destruct (harvested_last tl Hone) as [Hamt Hnone].
    rewrite (collect_cleared _ _ _ Hnone).
    eexists _, (World.harvested tl 1). split; [reflexivity|].
    simpl. split; [by eapply get_tile_store|]. done.
  - intros Hmany res item name Hdrop Htl. rewrite Hstep by lia.
    pose proof (harvested_more tl Hmany) as Hh.
    rewrite (collect_drop _ _ _ res item name Hdrop) by (by rewrite Hh).
    eexists _, (World.harvested tl 1). split; [reflexivity|].
    simpl. split; [by eapply get_tile_store|].
    split; [by rewrite Hh|]. split; [by rewrite Hh|].
    split; [reflexivity|]. split.
    + intros Hroom.
      assert (exists inv', Inventory.add (Player.inventory (Game.player self)) item name 1
                           = (true, inv')) as [inv' Hadd].
      { destruct (Inventory.items (Player.inventory (Game.player self)) !! item)
          as [it|] eqn:Hit.
        - eexists. by apply add_existing.
        - destruct Hroom as [[? [=]]|Hroom]. eexists. by apply add_new. }
      rewrite Hadd. simpl. rewrite (stock_add _ _ _ item _ _ Hadd).
      by rewrite decide_True.
    + intros Hnone Hfull. by rewrite add_full.
Qed.

Lemma player_tile_fresh (wd : World.t) (es : list Entity.t) :
  player_tile (Game.fresh wd es) =
    (((World.w wd * TILE_SIZE) `div` 2) `div` 32,
     ((World.h wd * TILE_SIZE) `div` 2) `div` 32).
Proof. unfold player_tile. simpl. by rewrite !tile_coord_IZR. Qed.

(** On the stump the starter inventory stays at five wood although the last
    unit is taken; in the grove the wood stock goes from five to six. *)
Lemma try_interact_harvest_witness :
  (exists self' tl',
      Game.try_interact (Game.fresh stump []) = Ok self' /\
      World.get_tile (Game.world self') 0 0 = Ok (Some tl') /\
      Tile.resource_amount tl' = 0 /\ Tile.resource tl' = None /\
      Game.player self' = Game.player (Game.fresh stump [])) /\
  (exists self' tl',
      Game.try_interact (Game.fresh grove []) = Ok self' /\
      World.get_tile (Game.world self') 0 0 = Ok (Some tl') /\
      Tile.resource_amount tl' = 4 /\ Tile.resource tl' = Some RESOURCE_TREE /\
      Inventory.stock (Player.inventory (Game.player self')) "wood" = 6).
Proof.
  split.
  - apply (proj1 (try_interact_harvest (Game.fresh stump []) 0 0 last_tree
                    (player_tile_fresh stump []) eq_refl eq_refl)).
    reflexivity.
  - destruct (proj2 (try_interact_harvest (Game.fresh grove []) 0 0
                       (Tile.mk TILE_FOREST (Some RESOURCE_TREE) 5 None)
                       (player_tile_fresh grove []) eq_refl eq_refl)
                eq_refl RESOURCE_TREE "wood" "Wood")
      as (self' & tl' & H1 & H2 & H3 & H4 & _ & H5 & _).
    + unfold DROPS. apply elem_of_cons. by left.
    + reflexivity.
    + exists self', tl'. repeat split; try assumption.
      rewrite H5; [reflexivity|]. left. vm_compute. eauto.
Defined.

(** C10, counterexample.  With thirty stacks held and none of wood, the
    interaction takes one of the five units of the tree and leaves four, yet
    the wood stock stays at 0: the taken unit is not added. *)
Lemma try_interact_full_inventory :
  exists self',
    Game.try_interact packed_game = Ok self' /\
    World.get_tile (Game.world packed_game) 0 0
      = Ok (Some (Tile.mk TILE_FOREST (Some RESOURCE_TREE) 5 None)) /\
    World.get_tile (Game.world self') 0 0
      = Ok (Some (Tile.mk TILE_FOREST (Some RESOURCE_TREE) 4 None)) /\
    Inventory.stock (Player.inventory (Game.player self')) "wood" = 0 /\
    Inventory.stock (Player.inventory (Game.player self')) "wood" <>
      Inventory.stock (Player.inventory (Game.player packed_game)) "wood" + 1.
Proof.
  assert (player_tile packed_game = (0, 0)) as Htile.
  { unfold packed_game, player_tile. simpl. by rewrite !tile_coord_IZR. }
  eexists. split.
  - apply (try_interact_resource packed_game 0 0
             (Tile.mk TILE_FOREST (Some RESOURCE_TREE) 5 None) Htile); reflexivity.
  - split; [reflexivity|]. split; [reflexivity|]. split.
    + vm_compute. reflexivity.
    + vm_compute. discriminate.
Qed.

(** ** Crafting *)

Lemma set_items_same (inv : Inventory.t) :
  Inventory.set_items (Inventory.items inv) inv = inv.
Proof. by destruct inv. Qed.

Lemma set_amount_same (it : Item.t) : Item.set_amount (Item.amount it) it = it.
Proof. by destruct it. Qed.

Lemma has_Some (inv : Inventory.t) (rid : string) (amt : Z) :
  Inventory.has inv rid amt = true ->
  exists it, Inventory.items inv !! rid = Some it /\ amt <= Item.amount it.
Proof.
  unfold Inventory.has. destruct (Inventory.items inv !! rid) as [it|]; [|discriminate].
  intros H. exists it. split; [done | lia].
Qed.

(** Removing a requirement that is held and adding it back: a stack that
    was used up comes back under the capitalised id. *)
Lemma refund_consume_single (inv : Inventory.t) (rid : string) (amt : Z) (it : Item.t) :
  Inventory.items inv !! rid = Some it ->
  amt <= Item.amount it ->
  Z.of_nat (size (Inventory.items inv)) <= Inventory.capacity inv ->
  Game.refund [(rid, amt)] (Game.consume [(rid, amt)] inv) =
    Inventory.set_items
      (<[rid := if Item.amount it =? amt then Item.mk rid (capitalize rid) amt else it]>
         (Inventory.items inv)) inv.
Proof.
  intros Hit Hle Hcap.
  unfold Game.refund, Game.consume. simpl.
  unfold Inventory.remove. rewrite Hit.
  destruct (Z.ltb_spec (Item.amount it) amt) as [?|_]; [lia|]. simpl.
  destruct (Z.eqb_spec (Item.amount it - amt) 0) as [Hz|Hnz]; simpl.
  - unfold Inventory.add. simpl. rewrite lookup_delete_eq.
    pose proof (map_size_delete_Some rid (Inventory.items inv) (mk_is_Some _ _ Hit)) as Hsz.
    pose proof (map_size_ne_0_lookup_2 (Inventory.items inv) rid (mk_is_Some _ _ Hit)) as Hpos.
    destruct (Z.leb_spec (Inventory.capacity inv)
                (Z.of_nat (size (delete rid (Inventory.items inv))))) as [?|_]; [lia|].
    simpl. unfold Inventory.set_items. simpl. rewrite insert_delete_eq.
    destruct (Z.eqb_spec (Item.amount it) amt); [done | lia].
  - unfold Inventory.add. simpl. rewrite lookup_insert_eq. simpl.
    unfold Inventory.set_items. simpl. rewrite insert_insert_eq.
    destruct (Z.eqb_spec (Item.amount it) amt); [lia|].
    do 2 f_equal. destruct it as [i nm a]. unfold Item.set_amount. simpl. f_equal. lia.
Qed.

Lemma place_structure_refused (wd wd' : World.t) (tx ty : Z) (nm : string) :
  World.place_structure wd tx ty nm = Ok (false, wd') -> wd' = wd.
Proof.
  unfold World.place_structure.
  destruct (World.get_tile wd tx ty) as [[tl|]|]; simpl; try discriminate.
  - destruct (truthy (Tile.built tl)); [by intros [= <-] | discriminate].
  - by intros [= <-].
Qed.

(** The structure branch of [craft] when it reports failure: the world is
    unchanged and the inventory is the refunded one. *)
Lemma build_refused (self self' : Game.t) (req : list (string * Z)) (nm : string) :
  Game.build self req nm = Ok (false, self') ->
  self' = Game.set_inventory (Game.refund req (Player.inventory (Game.player self))) self.
Proof.
  unfold Game.build.
  destruct (World.place_structure _ _ _ _) as [[placed wd]|] eqn:Hp; simpl; [|discriminate].
  destruct placed; simpl; [discriminate|]. intros [= <-].
  apply place_structure_refused in Hp as ->. by destruct self.
Qed.

Lemma set_inventory_same (self : Game.t) :
  Game.set_inventory (Player.inventory (Game.player self)) self = self.
Proof. destruct self as [wd [] ? ? ? ? ? ? ? ? ?]. reflexivity. Qed.

Lemma set_inventory_twice (self : Game.t) (a b : Inventory.t) :
  Game.set_inventory b (Game.set_inventory a self) = Game.set_inventory b self.
Proof. reflexivity. Qed.

(** What a failed [craft] leaves behind, for any inventory within capacity:
    either nothing was touched, or the single wood requirement of a structure
    recipe was consumed and refunded. *)
Lemma craft_failed (self self' : Game.t) (recipe_id : string) :
  let inv := Player.inventory (Game.player self) in
  Z.of_nat (size (Inventory.items inv)) <= Inventory.capacity inv ->
  Game.craft self recipe_id = Ok (false, self') ->
  self' = self \/
  exists rc amt it,
    RECIPES !! recipe_id = Some rc /\ requires rc = [("wood", amt)] /\
    Inventory.items inv !! "wood" = Some it /\ amt <= Item.amount it /\
    self' = Game.set_inventory
              (Inventory.set_items
                 (<["wood" := if Item.amount it =? amt
                              then Item.mk "wood" "Wood" amt else it]>
                    (Inventory.items inv)) inv) self.
Proof.
  intros inv Hcap. unfold Game.craft.
  destruct (RECIPES !! recipe_id) as [rc|] eqn:Hrc; [|intros [= <-]; by left].
  destruct (forallb _ (requires rc)) eqn:Hhas; simpl; [|intros [= <-]; by left].
  destruct (String.eqb_spec recipe_id "campfire") as [->|Hc].
  - vm_compute in Hrc. injection Hrc as <-. simpl in Hhas.
    rewrite andb_true_r in Hhas. apply has_Some in Hhas as (it & Hit & Hle).
    intros ->%build_refused. right. exists (mkRecipe [("wood", 5)] "Campfire"), 5, it.
    repeat split; try done. cbn [requires]. rewrite set_inventory_twice.
    cbn [Game.set_inventory Game.player Game.set_player Player.inventory Player.set_inventory].
    fold inv. by rewrite (refund_consume_single inv "wood" 5 it).
  - destruct (String.eqb_spec recipe_id "wooden_shack") as [->|Hs]; [|discriminate].
    vm_compute in Hrc. injection Hrc as <-. simpl in Hhas.
    rewrite andb_true_r in Hhas. apply has_Some in Hhas as (it & Hit & Hle).
    intros ->%build_refused. right. exists (mkRecipe [("wood", 20)] "Wooden Shack"), 20, it.
    repeat split; try done. cbn [requires]. rewrite set_inventory_twice.
    cbn [Game.set_inventory Game.player Game.set_player Player.inventory Player.set_inventory].
    fold inv. by rewrite (refund_consume_single inv "wood" 20 it).
Qed.

(** C1 (as amended).  A craft that returns failure leaves the world as it
    was and, when the inventory holds no more stacks than its capacity, the
    same ids with the same amounts: whatever was consumed is refunded in
    full.  The whole game state, display names included, is as before when
    moreover every stack the recipe uses up entirely carries its id and the
    capitalised id as display name, which is how the refund rebuilds it. *)
Theorem craft_failure_atomic (self self' : Game.t) (recipe_id : string) :
  let inv := Player.inventory (Game.player self) in
  let inv' := Player.inventory (Game.player self') in
  Z.of_nat (size (Inventory.items inv)) <= Inventory.capacity inv ->
  Game.craft self recipe_id = Ok (false, self') ->
  Game.world self' = Game.world self /\
  (forall j, Item.amount <$> Inventory.items inv' !! j
             = Item.amount <$> Inventory.items inv !! j) /\
  ((forall rc, RECIPES !! recipe_id = Some rc -> refundable inv (requires rc)) ->
   self' = self).
Proof.
  intros inv inv' Hcap Hcraft. subst inv'.
  destruct (craft_failed self self' recipe_id Hcap Hcraft)
    as [->|(rc & amt & it & Hrc & Hreq & Hit & Hle & ->)]; [done|].
  subst inv. split; [reflexivity|]. split.
  - intros j. cbn [Game.set_inventory Game.player Game.set_player Player.inventory
                   Player.set_inventory Inventory.items Inventory.set_items]. destruct (decide (j = "wood")) as [->|Hne].
    + rewrite lookup_insert_eq, Hit. simpl.
      destruct (Z.eqb_spec (Item.amount it) amt); simpl; congruence.
    + by rewrite lookup_insert_ne.
  - intros Hname. specialize (Hname rc Hrc). rewrite Hreq in Hname.
    assert ((if Item.amount it =? amt then Item.mk "wood" "Wood" amt else it) = it) as ->.
    { destruct (Z.eqb_spec (Item.amount it) amt) as [Heq|]; [|done].
      destruct (Hname "wood" amt it) as [Hid Hnm];
        [by apply list_elem_of_singleton | done | done |].
      destruct it as [i nm a]. simpl in *. by subst. }
    rewrite insert_id by done. rewrite set_items_same. apply set_inventory_same.
Qed.

(** A campfire craft by a player who holds the wood and stands on a tile
    that already carries a structure. *)
Lemma craft_campfire_refused (self : Game.t) (tx ty : Z) (tl : Tile.t) :
  player_tile self = (tx, ty) ->
  World.get_tile (Game.world self) tx ty = Ok (Some tl) ->
  truthy (Tile.built tl) = true ->
  Inventory.has (Player.inventory (Game.player self)) "wood" 5 = true ->
  Game.craft self "campfire" =
    Ok (false, Game.set_inventory
                 (Game.refund [("wood", 5)]
                    (Game.consume [("wood", 5)] (Player.inventory (Game.player self))))
                 self).
Proof.
  intros [= Hx Hy] Hget Hbuilt Hhas. unfold Game.craft.
  change (RECIPES !! "campfire") with (Some (mkRecipe [("wood", 5)] "Campfire")).
  cbn [requires forallb]. rewrite Hhas. cbn [andb negb String.eqb Ascii.eqb Bool.eqb].
  unfold Game.build.
  cbn [Game.player Game.set_inventory Game.set_player Player.x Player.y
       Player.set_inventory Game.world].
  rewrite Hx, Hy. unfold World.place_structure. rewrite Hget. simpl. rewrite Hbuilt.
  simpl. by destruct self.
Qed.

Lemma player_tile_set_inventory (inv : Inventory.t) (self : Game.t) :
  player_tile (Game.set_inventory inv self) = player_tile self.
Proof. reflexivity. Qed.

(** On the hearth the starter inventory (five wood, three stone) survives a
    refused campfire craft unchanged. *)
Lemma craft_failure_atomic_witness :
  exists self',
    Game.craft (Game.fresh hearth []) "campfire" = Ok (false, self') /\
    self' = Game.fresh hearth [].
Proof.
  eexists. split.
  - apply (craft_campfire_refused (Game.fresh hearth []) 0 0
             (Tile.mk TILE_GRASS None 0 (Some "campfire"))
             (player_tile_fresh hearth [])); reflexivity.
  - apply (craft_failure_atomic (Game.fresh hearth []) _ "campfire").
    + vm_compute. discriminate.
    + apply (craft_campfire_refused (Game.fresh hearth []) 0 0
               (Tile.mk TILE_GRASS None 0 (Some "campfire"))
               (player_tile_fresh hearth [])); reflexivity.
    + intros rc [= <-] rid amt it [= -> ->]%list_elem_of_singleton.
      vm_compute. intros [= <-]. done.
Defined.

(** C1, counterexample.  On the hearth a refused campfire craft renames the
    five "Timber" to "Wood"; and from the thirty-one stacks of [overfull] the
    five wood are consumed and never refunded, the inventory being full. *)
Lemma craft_failure_not_atomic :
  (exists self',
      Game.craft timber_game "campfire" = Ok (false, self') /\
      Inventory.items (Player.inventory (Game.player timber_game)) !! "wood"
        = Some (Item.mk "wood" "Timber" 5) /\
      Inventory.items (Player.inventory (Game.player self')) !! "wood"
        = Some (Item.mk "wood" "Wood" 5)) /\
  (exists self',
      Game.craft overfull_game "campfire" = Ok (false, self') /\
      Inventory.items (Player.inventory (Game.player overfull_game)) !! "wood"
        = Some (Item.mk "wood" "Wood" 5) /\
      Inventory.items (Player.inventory (Game.player self')) !! "wood" = None).
Proof.
  split.
  - eexists. split.
    + apply (craft_campfire_refused timber_game 0 0
               (Tile.mk TILE_GRASS None 0 (Some "campfire"))
               (player_tile_fresh hearth [])); reflexivity.
    + split; vm_compute; reflexivity.
  - eexists. split.
    + apply (craft_campfire_refused overfull_game 0 0
               (Tile.mk TILE_GRASS None 0 (Some "campfire"))
               (player_tile_fresh hearth [])); reflexivity.
    + split; vm_compute; reflexivity.
Qed.

(** [overfull] is the inventory [from_list] decodes from such a save. *)
Lemma overfull_from_list :
  Inventory.from_list
    (JList (Inventory.item_to_dict <$>
              (((fun s => Item.mk s (capitalize s) 1) <$> thirty_ids)
               ++ [Item.mk "wood" "Wood" 5])))
  = Ok overfull.
Proof. vm_compute. reflexivity. Qed.

(** ** Saving and loading *)

Lemma traverse_ext {A B} (f g : A -> result B) (l : list A) :
  (forall a, a ∈ l -> f a = g a) -> traverse f l = traverse g l.
Proof.
  induction l as [|a l IH]; intros H; simpl; [done|].
  rewrite (H a) by apply list_elem_of_here.
  rewrite IH; [done|]. intros b Hb. apply H. by apply list_elem_of_further.
Qed.

Lemma traverse_Ok {A B} (g : A -> B) (l : list A) :
  traverse (fun a => Ok (g a)) l = Ok (g <$> l).
Proof.
  induction l as [|a l IH]; [done|].
  rewrite fmap_cons. cbn [traverse]. by rewrite IH.
Qed.

Lemma traverse_fmap {A B C} (h : C -> A) (f : A -> result B) (l : list C) :
  traverse f (h <$> l) = traverse (f ∘ h) l.
Proof.
  induction l as [|c l IH]; [done|].
  rewrite fmap_cons. cbn [traverse]. by rewrite IH.
Qed.

Lemma traverse_length {A B} (f : A -> result B) (l : list A) (bs : list B) :
  traverse f l = Ok bs -> length bs = length l.
Proof.
  revert bs. induction l as [|a l IH]; intros bs H; simpl in H.
  - by injection H as <-.
  - inv_bind H. inv_bind H. injection H as <-. simpl. f_equal. by apply IH.
Qed.

(** Reading a list cell by cell through its indices. *)
Lemma traverse_seq_lookup {A B} (l : list A) (f : A -> result B) :
  forall G : nat -> result B,
    (forall i a, l !! i = Some a -> G i = f a) ->
    traverse G (seq 0 (length l)) = traverse f l.
Proof.
  induction l as [|a l IH]; intros G H; simpl; [done|].
  rewrite (H 0%nat a eq_refl). rewrite <- fmap_S_seq, traverse_fmap.
  rewrite (IH (G ∘ S)); [done|]. intros i b Hi. apply (H (S i)). done.
Qed.

Lemma traverse_range_lookup {A B} (l : list A) (n : Z) (f : A -> result B)
  (F : Z -> result B) :
  length l = Z.to_nat n ->
  (forall i a, l !! i = Some a -> F (Z.of_nat i) = f a) ->
  traverse F (range n) = traverse f l.
Proof.
  intros Hlen H. unfold range, seqZ. rewrite traverse_fmap, <- Hlen.
  apply traverse_seq_lookup. intros i a Hi. simpl.
  rewrite Z.add_0_r. by apply H.
Qed.
Lemma traverse_Ok_id {A} (l : list A) : traverse (fun a => Ok a) l = Ok l.
Proof. rewrite (traverse_Ok (fun a => a)). by rewrite list_fmap_id. Qed.

(** *** The world *)

Lemma tile_roundtrip (tl : Tile.t) :
  World.tile_from_dict (World.tile_to_dict tl) = Ok tl.
Proof. destruct tl as [k [r|] a [b|]]; reflexivity. Qed.

Lemma to_dict_shaped (wd : World.t) :
  World.shaped wd ->
  World.to_dict wd =
    Ok (JObj [("w", JInt (World.w wd)); ("h", JInt (World.h wd));
              ("tiles", JList ((fun col => JList (World.tile_to_dict <$> col))
                                 <$> World.tiles wd))]).
Proof.
  intros [Hw Hh]. unfold World.to_dict.
  rewrite (traverse_range_lookup (World.tiles wd) (World.w wd)
             (fun col => Ok (JList (World.tile_to_dict <$> col)))); [|done|].
  - by rewrite traverse_Ok.
  - intros i col Hcol.
    rewrite (traverse_range_lookup col (World.h wd)
               (fun tl => Ok (World.tile_to_dict tl))).
    + by rewrite traverse_Ok.
    + rewrite Forall_forall in Hh. apply Hh. by eapply list_elem_of_lookup_2.
    + intros j tl Htl. unfold World.index. by rewrite !Nat2Z.id, Hcol, Htl.
Qed.

Lemma world_roundtrip (wd : World.t) (data : json) :
  World.shaped wd ->
  World.to_dict wd = Ok data ->
  World.from_dict data = Ok wd.
Proof.
  intros Hshape. rewrite (to_dict_shaped wd Hshape). intros [= <-].
  destruct Hshape as [Hw Hh]. unfold World.from_dict. simpl.
  rewrite (traverse_range_lookup (World.tiles wd) (World.w wd) (fun col => Ok col));
    [|done|].
  - rewrite traverse_Ok_id. simpl. by destruct wd.
  - intros i col Hcol.
    rewrite (traverse_range_lookup col (World.h wd) (fun tl => Ok tl)).
    + by rewrite traverse_Ok_id.
    + rewrite Forall_forall in Hh. apply Hh. by eapply list_elem_of_lookup_2.
    + intros j tl Htl. simpl. rewrite !Nat2Z.id.
      rewrite list_lookup_fmap, Hcol. simpl.
      rewrite list_lookup_fmap, Htl. simpl. apply tile_roundtrip.
Qed.

(** Whatever [from_dict] decodes has the declared shape. *)
Lemma from_dict_shaped (data : json) (wd : World.t) :
  World.from_dict data = Ok wd -> World.shaped wd.
Proof.
  unfold World.from_dict. intros H.
  inv_bind H. inv_bind H. inv_bind H. injection H as <-.
  unfold World.shaped. simpl. split.
  - apply traverse_length in Ha1. rewrite Ha1. unfold range. by rewrite length_seqZ.
  - clear -Ha1. revert a1 Ha1. generalize (range a) as xs.
    induction xs as [|x xs IH]; intros tiles H; simpl in H.
    + injection H as <-. constructor.
    + inv_bind H. inv_bind H. injection H as <-. constructor; [|by apply IH].
      apply traverse_length in Ha. rewrite Ha. unfold range. by rewrite length_seqZ.
Qed.

Lemma store_shaped (wd : World.t) (tx ty : Z) (tl : Tile.t) :
  World.shaped wd -> World.shaped (World.store wd tx ty tl).
Proof.
  intros [Hw Hh]. unfold World.shaped, World.store. simpl. split.
  - by rewrite length_alter.
  - apply Forall_alter; [done|]. intros col _ Hlen. by rewrite length_insert.
Qed.

(** *** The inventory *)

Lemma entry_roundtrip (it : Item.t) :
  Inventory.entry_from_dict (Inventory.item_to_dict it) = Ok (Item.id it, it).
Proof. by destruct it. Qed.

Lemma foldl_insert_list_to_map (l : list (string * Item.t)) :
  foldl (fun m e => <[e.1 := e.2]> m) (∅ : gmap string Item.t) l
  = list_to_map (reverse l).
Proof.
  induction l as [|e l IH] using rev_ind; [done|].
  by rewrite foldl_snoc, IH, reverse_snoc.
Qed.

Lemma foldl_insert_map_to_list (m : gmap string Item.t) :
  foldl (fun m e => <[e.1 := e.2]> m) ∅ (map_to_list m) = m.
Proof.
  rewrite foldl_insert_list_to_map.
  rewrite <- (list_to_map_proper (map_to_list m) (reverse (map_to_list m))).
  - apply list_to_map_to_list.
  - apply NoDup_fst_map_to_list.
  - symmetry. apply reverse_Permutation.
Qed.

Lemma keyed_entries (inv : Inventory.t) :
  keyed inv ->
  (fun it => (Item.id it, it)) <$> (map_to_list (Inventory.items inv)).*2
  = map_to_list (Inventory.items inv).
Proof.
  intros Hk. rewrite <- list_fmap_compose.
  rewrite <- (list_fmap_id (map_to_list (Inventory.items inv))) at 2.
  apply list_fmap_ext. intros i [k it] Hi. simpl.
  f_equal. apply Hk. apply elem_of_map_to_list. by eapply list_elem_of_lookup_2.
Qed.

Lemma inventory_roundtrip (inv : Inventory.t) :
  keyed inv ->
  Inventory.from_list (JList (Inventory.to_list inv))
  = Ok (Inventory.set_items (Inventory.items inv) Inventory.new).
Proof.
  intros Hk. unfold Inventory.from_list, Inventory.to_list. simpl.
  rewrite traverse_fmap.
  rewrite (traverse_ext _ (fun it => Ok (Item.id it, it)))
    by (intros it _; apply entry_roundtrip).
  rewrite traverse_Ok. simpl.
  by rewrite (keyed_entries inv Hk), foldl_insert_map_to_list.
Qed.

(** Whatever [from_list] decodes is keyed by id. *)
Lemma from_list_keyed (lst : json) (inv : Inventory.t) :
  Inventory.from_list lst = Ok inv -> keyed inv.
Proof.
  unfold Inventory.from_list. intros H. inv_bind H. inv_bind H. injection H as <-.
  assert (Forall (fun e : string * Item.t => Item.id e.2 = e.1) a0) as Hall.
  { clear -Ha0. revert a0 Ha0. induction a as [|v vs IH]; intros es H; simpl in H.
    - injection H as <-. constructor.
    - inv_bind H. inv_bind H. injection H as <-. constructor; [|by apply IH].
      unfold Inventory.entry_from_dict in Ha.
      inv_bind Ha. inv_bind Ha. inv_bind Ha. inv_bind Ha. injection Ha as <-.
      simpl. congruence. }
  clear Ha0. unfold keyed. simpl.
  assert (forall m0 : gmap string Item.t,
             (forall k it, m0 !! k = Some it -> Item.id it = k) ->
             forall k it, foldl (fun m e => <[e.1 := e.2]> m) m0 a0 !! k = Some it ->
                          Item.id it = k) as Hfold.
  { induction Hall as [|e es He _ IH]; intros m0 Hm0 k it; simpl; [apply Hm0|].
    apply IH. intros k' it'. destruct (decide (k' = e.1)) as [->|Hne].
    - rewrite lookup_insert_eq. by intros [= <-].
    - rewrite lookup_insert_ne by done. apply Hm0. }
  apply Hfold. intros k it. by rewrite lookup_empty.
Qed.

Lemma new_keyed : keyed Inventory.new.
Proof. intros k it H. simpl in H. by rewrite lookup_empty in H. Qed.

Lemma add_keyed (inv : Inventory.t) (i n : string) (a : Z) :
  keyed inv -> keyed (Inventory.add inv i n a).2.
Proof.
  intros Hk k it. unfold Inventory.add.
  destruct (Inventory.items inv !! i) as [old|] eqn:Hi; simpl.
  - destruct (decide (k = i)) as [->|Hne].
    + rewrite lookup_insert_eq. intros [= <-]. simpl. by apply Hk.
    + rewrite lookup_insert_ne by done. apply Hk.
  - destruct (_ <=? _); simpl; [apply Hk|].
    destruct (decide (k = i)) as [->|Hne].
    + rewrite lookup_insert_eq. by intros [= <-].
    + rewrite lookup_insert_ne by done. apply Hk.
Qed.

Lemma remove_keyed (inv : Inventory.t) (i : string) (a : Z) :
  keyed inv -> keyed (Inventory.remove inv i a).2.
Proof.
  intros Hk k it. unfold Inventory.remove.
  destruct (Inventory.items inv !! i) as [old|] eqn:Hi; simpl; [|apply Hk].
  destruct (_ <? _); simpl; [apply Hk|].
  destruct (_ =? _); simpl.
  - destruct (decide (k = i)) as [->|Hne].
    + by rewrite lookup_delete_eq.
    + rewrite lookup_delete_ne by done. apply Hk.
  - destruct (decide (k = i)) as [->|Hne].
    + rewrite lookup_insert_eq. intros [= <-]. simpl. by apply Hk.
    + rewrite lookup_insert_ne by done. apply Hk.
Qed.

(** *** The player and the entities *)

Lemma opt_str_roundtrip (o : option string) :
  Json.as_opt_str (Json.of_opt_str o) = Ok o.
Proof. by destruct o. Qed.

Lemma player_roundtrip (p : Player.t) :
  keyed (Player.inventory p) ->
  Player.from_dict (Player.to_dict p) = Ok (restored p).
Proof.
  intros Hk. unfold Player.from_dict, Player.to_dict.
  cbn [Json.getitem Json.assoc String.eqb Ascii.eqb Bool.eqb mbind result_bind
       Json.as_num].
  rewrite (inventory_roundtrip _ Hk), opt_str_roundtrip. reflexivity.
Qed.

Lemma entities_roundtrip (es : list Entity.t) :
  traverse Game.entity_from_dict (Game.entity_to_dict <$> es)
    = Ok ((fun e => Entity.new (Entity.x e) (Entity.y e)) <$> es) /\
  Game.restore_health ((fun e => Entity.new (Entity.x e) (Entity.y e)) <$> es)
                      (Game.entity_to_dict <$> es)
    = Ok (rested <$> es).
Proof.
  split.
  - rewrite traverse_fmap. apply (traverse_Ok (fun e => Entity.new (Entity.x e) (Entity.y e))).
  - induction es as [|e es IH]; [done|].
    rewrite !fmap_cons. cbn [Game.restore_health]. rewrite IH. reflexivity.
Qed.

(** *** [save] then [load] *)

Lemma load_snapshot (self other : Game.t) (data : json)
  (disk : gmap string file) (filename : string) :
  World.shaped (Game.world self) ->
  keyed (Player.inventory (Game.player self)) ->
  Game.snapshot self = Ok data ->
  Game.load other (<[filename := Doc data]> disk) filename =
    (Game.set_entities (rested <$> Game.entities self)
       (Game.set_time_of_day (Game.time_of_day self)
          (Game.set_player (restored (Game.player self))
             (Game.set_world (Game.world self) other))),
     None).
Proof.
  intros Hshape Hk Hsnap. unfold Game.snapshot in Hsnap.
  inv_bind Hsnap. injection Hsnap as <-.
  unfold Game.load, read_json. rewrite lookup_insert_eq.
  cbn [Json.getitem Json.get Json.assoc String.eqb Ascii.eqb Bool.eqb mbind result_bind].
  rewrite (world_roundtrip _ _ Hshape Ha), (player_roundtrip _ Hk).
  cbn [Json.as_num Json.iter].
  destruct (entities_roundtrip (Game.entities self)) as [-> ->]. reflexivity.
Qed.

Lemma save_shaped (self : Game.t) (disk : gmap string file) (filename : string) :
  World.shaped (Game.world self) ->
  exists data, Game.snapshot self = Ok data /\
               Game.save self disk filename = Ok (<[filename := Doc data]> disk).
Proof.
  intros Hshape. unfold Game.save, Game.snapshot.
  rewrite (to_dict_shaped _ Hshape). simpl. eauto.
Qed.

(** C4.  For a game whose grid has its declared shape and whose inventory
    keeps every stack under its own id, [save] succeeds and an immediate
    [load], into any game object, succeeds and reproduces the world (sizes
    and every tile), the player's position, four vital stats, stacks and
    equipped item, the time of day, and every entity's position and health;
    the entities come back at rest and idle. *)
Theorem save_load_roundtrip (self other : Game.t)
  (disk : gmap string file) (filename : string) :
  World.shaped (Game.world self) ->
  keyed (Player.inventory (Game.player self)) ->
  exists disk' loaded,
    Game.save self disk filename = Ok disk' /\
    Game.load other disk' filename = (loaded, None) /\
    let p := Game.player self in
    let p' := Game.player loaded in
    Game.world loaded = Game.world self /\
    Player.x p' = Player.x p /\ Player.y p' = Player.y p /\
    Player.health p' = Player.health p /\ Player.hunger p' = Player.hunger p /\
    Player.thirst p' = Player.thirst p /\ Player.stamina p' = Player.stamina p /\
    Inventory.items (Player.inventory p') = Inventory.items (Player.inventory p) /\
    Player.equipped p' = Player.equipped p /\
    Game.time_of_day loaded = Game.time_of_day self /\
    Forall2 (fun e' e =>
               Entity.x e' = Entity.x e /\ Entity.y e' = Entity.y e /\
               Entity.health e' = Entity.health e /\
               Entity.vx e' = 0%R /\ Entity.vy e' = 0%R /\
               Entity.state e' = Entity.idle)
            (Game.entities loaded) (Game.entities self).
Proof.
  intros Hshape Hk.
  destruct (save_shaped self disk filename Hshape) as (data & Hsnap & Hsave).
  eexists _, _. split; [exact Hsave|].
  split; [by apply load_snapshot|]. simpl.
  repeat split; try reflexivity.
  apply Forall2_fmap_l, Forall_Forall2_diag, Forall_forall. intros e _. done.
Qed.

Lemma orchard_shaped : World.shaped orchard.
Proof. split; [reflexivity|]. repeat constructor. Qed.

Lemma fresh_keyed (wd : World.t) (es : list Entity.t) :
  keyed (Player.inventory (Game.player (Game.fresh wd es))).
Proof.
  unfold Game.fresh, Game.give. cbn [Game.player Game.set_inventory Game.set_player
    Player.inventory Player.set_inventory].
  apply add_keyed, add_keyed, new_keyed.
Qed.

(** The camp, saved over an empty disk and loaded into a newly started
    game, comes back with its world, player, clock and entities. *)
Lemma save_load_roundtrip_witness :
  exists disk' loaded,
    Game.save camp ∅ SAVE_FILE = Ok disk' /\
    Game.load (Game.fresh meadow herd) disk' SAVE_FILE = (loaded, None) /\
    Game.world loaded = orchard /\
    Player.equipped (Game.player loaded) = Some "wooden_spear" /\
    Inventory.stock (Player.inventory (Game.player loaded)) "wood" = 5 /\
    Forall2 (fun e' e =>
               Entity.x e' = Entity.x e /\ Entity.y e' = Entity.y e /\
               Entity.health e' = Entity.health e /\
               Entity.vx e' = 0%R /\ Entity.vy e' = 0%R /\
               Entity.state e' = Entity.idle)
            (Game.entities loaded) roaming_herd.
Proof.
  destruct (save_load_roundtrip camp (Game.fresh meadow herd) ∅ SAVE_FILE
              orchard_shaped (fresh_keyed orchard []))
    as (disk' & loaded & Hsave & Hload & Hw & _ & _ & _ & _ & _ & _ & Hinv & Heq & _ & Hes).
  exists disk', loaded. split; [exact Hsave|]. split; [exact Hload|].
  split; [exact Hw|]. split; [exact Heq|]. split; [|exact Hes].
  unfold Inventory.stock. rewrite Hinv. reflexivity.
Defined.

(** *** Loading a missing or damaged save *)

(** No save file: [__init__] does not call [load], nothing is printed. *)
Lemma startup_load_missing (self : Game.t) (disk : gmap string file) :
  disk !! SAVE_FILE = None -> Game.startup_load self disk = (self, []).
Proof.
  intros H. unfold Game.startup_load. rewrite H.
  rewrite bool_decide_false; [done|]. by intros [? [=]].
Qed.

(** A file [json.load] rejects: [load] raises before it assigns anything. *)
Lemma load_garbled (self : Game.t) (disk : gmap string file) (filename : string) :
  disk !! filename = Some Garbled ->
  Game.load self disk filename = (self, Some JSONDecodeError).
Proof. intros H. unfold Game.load, read_json. by rewrite H. Qed.

Lemma startup_load_garbled (self : Game.t) (disk : gmap string file) :
  disk !! SAVE_FILE = Some Garbled ->
  Game.startup_load self disk = (self, ["Failed to load save:"]).
Proof.
  intros H. unfold Game.startup_load. rewrite H.
  rewrite bool_decide_true by eauto. by rewrite (load_garbled _ _ _ H).
Qed.

(** A document whose world does not decode: still nothing is assigned. *)
Lemma load_bad_world (self : Game.t) (disk : gmap string file)
  (filename : string) (data : json) (e : exn) :
  disk !! filename = Some (Doc data) ->
  Json.getitem data "world" ≫= World.from_dict = Raise e ->
  Game.load self disk filename = (self, Some e).
Proof. intros H Hw. unfold Game.load, read_json. by rewrite H, Hw. Qed.

(** A document whose world decodes and whose player does not: the world has
    been assigned by the time [load] raises. *)
Lemma load_bad_player (self : Game.t) (disk : gmap string file)
  (filename : string) (data : json) (wd : World.t) (e : exn) :
  disk !! filename = Some (Doc data) ->
  Json.getitem data "world" ≫= World.from_dict = Ok wd ->
  Json.getitem data "player" ≫= Player.from_dict = Raise e ->
  Game.load self disk filename = (Game.set_world wd self, Some e).
Proof. intros H Hw Hp. unfold Game.load, read_json. by rewrite H, Hw, Hp. Qed.

Lemma stump_from_dict : World.from_dict stump_doc = Ok stump.
Proof. reflexivity. Qed.

(** C5, at the failing input.  The save file holds a world and no player.
    [load] assigns the decoded world, then raises [KeyError] on the missing
    player; [__init__] prints the failure and goes on with the new world next
    to the old player, clock and entities. *)
Theorem startup_load_half_save :
  Game.load spawn half_disk SAVE_FILE
    = (Game.set_world stump spawn, Some (KeyError "player")) /\
  Game.startup_load spawn half_disk
    = (Game.set_world stump spawn, ["Failed to load save:"]) /\
  Game.world (Game.set_world stump spawn) = stump /\
  Game.world spawn = meadow /\
  stump <> meadow /\
  Game.player (Game.set_world stump spawn) = Game.player spawn /\
  Game.entities (Game.set_world stump spawn) = Game.entities spawn.
Proof.
  assert (Game.load spawn half_disk SAVE_FILE
          = (Game.set_world stump spawn, Some (KeyError "player"))) as Hload.
  { apply (load_bad_player spawn half_disk SAVE_FILE half_save stump).
    - reflexivity.
    - exact stump_from_dict.
    - reflexivity. }
  split; [exact Hload|]. split.
  - unfold Game.startup_load. rewrite bool_decide_true.
    + by rewrite Hload.
    + exists (Doc half_save). reflexivity.
  - repeat split; try reflexivity. discriminate.
Qed.

(** * Further properties *)

(** ** The grid *)

Lemma index_shaped (wd : World.t) (tx ty : Z) :
  World.shaped wd -> World.in_bounds wd tx ty = true ->
  exists tl, World.index wd tx ty = Ok tl.
Proof.
  intros [Hw Hh] Hb. unfold World.in_bounds in Hb.
  apply andb_prop in Hb as [Hb Hy2]. apply andb_prop in Hb as [Hb Hy1].
  apply andb_prop in Hb as [Hx1 Hx2].
  apply Z.leb_le in Hx1, Hy1. apply Z.ltb_lt in Hx2, Hy2.
  unfold World.index.
  destruct (lookup_lt_is_Some_2 (World.tiles wd) (Z.to_nat tx)) as [col Hcol]; [lia|].
  rewrite Hcol.
  assert (length col = Z.to_nat (World.h wd)) as Hlen.
  { rewrite Forall_forall in Hh. apply Hh. by eapply list_elem_of_lookup_2. }
  destruct (lookup_lt_is_Some_2 col (Z.to_nat ty)) as [tl Htl]; [lia|].
  rewrite Htl. eauto.
Qed.

Lemma get_tile_in_bounds (wd : World.t) (tx ty : Z) (o : option Tile.t) :
  World.get_tile wd tx ty = Ok o -> (is_Some o <-> World.in_bounds wd tx ty = true).
Proof.
  unfold World.get_tile. destruct (World.in_bounds wd tx ty); simpl.
  - destruct (World.index wd tx ty); simpl; [|discriminate].
    intros [= <-]. split; eauto.
  - intros [= <-]. split; [by intros [? [=]] | discriminate].
Qed.

(** X1.  On a grid of its declared shape none of the tile operations raises:
    [get_tile] returns a tile exactly for the coordinates in bounds and [None]
    for all others, negative ones included, and [harvest], [place_structure]
    and [remove_structure] return a result. *)
Theorem tile_operations_total (wd : World.t) (tx ty : Z) (amount : Z) (nm : string) :
  World.shaped wd ->
  (exists o, World.get_tile wd tx ty = Ok o /\
             (is_Some o <-> (0 <= tx < World.w wd /\ 0 <= ty < World.h wd))) /\
  (exists r, World.harvest wd tx ty amount = Ok r) /\
  (exists r, World.place_structure wd tx ty nm = Ok r) /\
  (exists r, World.remove_structure wd tx ty = Ok r).
Proof.
  intros Hshape.
  assert (exists o, World.get_tile wd tx ty = Ok o) as [o Ho].
  { unfold World.get_tile. destruct (World.in_bounds wd tx ty) eqn:Hb; simpl; [|eauto].
    destruct (index_shaped wd tx ty Hshape Hb) as [tl ->]. simpl. eauto. }
  split; [|split; [|split]].
  - exists o. split; [done|]. rewrite (get_tile_in_bounds _ _ _ _ Ho).
    unfold World.in_bounds. rewrite !andb_true_iff, !Z.leb_le, !Z.ltb_lt. lia.
  - unfold World.harvest. rewrite Ho. simpl.
    destruct o as [tl|]; [|eauto]. destruct (truthy (Tile.resource tl)); simpl; eauto.
  - unfold World.place_structure. rewrite Ho. simpl.
    destruct o as [tl|]; [|eauto]. destruct (truthy (Tile.built tl)); simpl; eauto.
  - unfold World.remove_structure. rewrite Ho. simpl.
    destruct o as [tl|]; [|eauto]. destruct (truthy (Tile.built tl)); simpl; eauto.
Qed.

(** On the orchard the sand tile is found and a negative column is not. *)
Lemma tile_operations_total_witness :
  (exists o, World.get_tile orchard 0 1 = Ok o /\
             (is_Some o <-> (0 <= 0 < 1 /\ 0 <= 1 < 2))) /\
  (exists o, World.get_tile orchard (-1) 0 = Ok o /\
             (is_Some o <-> (0 <= -1 < 1 /\ 0 <= 0 < 2))).
Proof.
  split.
  - exact (proj1 (tile_operations_total orchard 0 1 1 "" orchard_shaped)).
  - exact (proj1 (tile_operations_total orchard (-1) 0 1 "" orchard_shaped)).
Defined.

Lemma store_same (wd : World.t) (tx ty : Z) (tl : Tile.t) :
  World.index wd tx ty = Ok tl -> World.store wd tx ty tl = wd.
Proof.
  unfold World.index, World.store.
  destruct (World.tiles wd !! Z.to_nat tx) as [col|] eqn:Hcol; [|discriminate].
  destruct (col !! Z.to_nat ty) as [tl'|] eqn:Htl; [|discriminate].
  intros [= ->]. destruct wd as [w h tiles]. simpl in *. f_equal.
  apply list_eq. intros i. destruct (decide (i = Z.to_nat tx)) as [->|Hne].
  - rewrite list_lookup_alter_eq, Hcol. simpl. by rewrite list_insert_id.
  - by rewrite list_lookup_alter_ne.
Qed.

Lemma store_store (wd : World.t) (tx ty : Z) (a b : Tile.t) :
  World.store (World.store wd tx ty a) tx ty b = World.store wd tx ty b.
Proof.
  unfold World.store. simpl. f_equal.
  apply list_eq. intros i. destruct (decide (i = Z.to_nat tx)) as [->|Hne].
  - rewrite !list_lookup_alter_eq.
    destruct (World.tiles wd !! Z.to_nat tx) as [col|]; simpl; [|done].
    by rewrite list_insert_insert_eq.
  - by rewrite !list_lookup_alter_ne.
Qed.

Lemma in_bounds_nonneg (wd : World.t) (tx ty : Z) :
  World.in_bounds wd tx ty = true -> 0 <= tx /\ 0 <= ty.
Proof.
  unfold World.in_bounds. rewrite !andb_true_iff, !Z.leb_le. tauto.
Qed.

(** A tile written at [(tx, ty)] leaves the tile read at any other place. *)
Lemma get_tile_store_other (wd : World.t) (tx ty ux uy : Z) (new : Tile.t) :
  World.in_bounds wd tx ty = true -> (ux, uy) <> (tx, ty) ->
  World.get_tile (World.store wd tx ty new) ux uy = World.get_tile wd ux uy.
Proof.
  intros [Hx Hy]%in_bounds_nonneg Hne. unfold World.get_tile.
  rewrite in_bounds_store. destruct (World.in_bounds wd ux uy) eqn:Hb; simpl; [|done].
  apply in_bounds_nonneg in Hb as [Hux Huy].
  by rewrite index_store_other.
Qed.

(** X2.  [place_structure] succeeds exactly on a tile that exists and holds
    no structure: it then writes the name into that tile's [built] field and
    nothing else, keeping kind, resource and amount, every other tile and the
    grid's shape.  On a missing or occupied tile it returns false and the world
    is the one passed in. *)
Theorem place_structure_spec (wd : World.t) (tx ty : Z) (nm : string) :
  (forall tl, World.get_tile wd tx ty = Ok (Some tl) ->
     truthy (Tile.built tl) = false ->
     exists wd',
       World.place_structure wd tx ty nm = Ok (true, wd') /\
       World.get_tile wd' tx ty =
         Ok (Some (Tile.mk (Tile.kind tl) (Tile.resource tl)
                           (Tile.resource_amount tl) (Some nm))) /\
       (forall ux uy, (ux, uy) <> (tx, ty) ->
          World.get_tile wd' ux uy = World.get_tile wd ux uy) /\
       World.w wd' = World.w wd /\ World.h wd' = World.h wd /\
       (World.shaped wd -> World.shaped wd')) /\
  (forall tl, World.get_tile wd tx ty = Ok (Some tl) ->
     truthy (Tile.built tl) = true ->
     World.place_structure wd tx ty nm = Ok (false, wd)) /\
  (World.get_tile wd tx ty = Ok None ->
     World.place_structure wd tx ty nm = Ok (false, wd)).
Proof.
  split; [|split].
  - intros tl Hget Hfree. eexists. split; [|split; [|split]].
    + unfold World.place_structure. rewrite Hget. simpl. by rewrite Hfree.
    + by eapply get_tile_store.
    + intros ux uy Hne. apply get_tile_store_other; [|done].
      by apply get_tile_Some in Hget as [Hb _].
    + split; [reflexivity|]. split; [reflexivity|]. apply store_shaped.
  - intros tl Hget Hocc. unfold World.place_structure. rewrite Hget. simpl.
    by rewrite Hocc.
  - intros Hget. unfold World.place_structure. by rewrite Hget.
Qed.

(** A campfire goes onto the bare sand of the orchard; the hearth is taken. *)
Lemma place_structure_spec_witness :
  (exists wd',
     World.place_structure orchard 0 1 "campfire" = Ok (true, wd') /\
     World.get_tile wd' 0 1 = Ok (Some (Tile.mk TILE_SAND None 0 (Some "campfire"))) /\
     World.get_tile wd' 0 0 = World.get_tile orchard 0 0) /\
  World.place_structure hearth 0 0 "shack" = Ok (false, hearth) /\
  World.place_structure hearth 4 4 "shack" = Ok (false, hearth).
Proof.
  split; [|split].
  - destruct (proj1 (place_structure_spec orchard 0 1 "campfire") bare_sand eq_refl eq_refl)
      as (wd' & H1 & H2 & H3 & _).
    exists wd'. split; [exact H1|]. split; [exact H2|]. apply H3. discriminate.
  - exact (proj1 (proj2 (place_structure_spec hearth 0 0 "shack")) _ eq_refl eq_refl).
  - exact (proj2 (proj2 (place_structure_spec hearth 4 4 "shack")) eq_refl).
Defined.

(** X3.  On a tile without structure, placing a structure with a non-empty
    name, being refused a second one, and removing the first compose to the
    identity: the second [place_structure] returns false, [remove_structure]
    returns true, and the world is again the one before the first call. *)
Theorem place_then_remove (wd : World.t) (tx ty : Z) (nm other : string) (tl : Tile.t) :
  World.get_tile wd tx ty = Ok (Some tl) ->
  Tile.built tl = None ->
  nm <> "" ->
  exists wd1,
    World.place_structure wd tx ty nm = Ok (true, wd1) /\
    World.place_structure wd1 tx ty other = Ok (false, wd1) /\
    World.remove_structure wd1 tx ty = Ok (true, wd).
Proof.
  intros Hget Hnone Hnm.
  assert (truthy (Some nm) = true) as Htruthy.
  { simpl. destruct (String.eqb_spec nm ""); [done | reflexivity]. }
  exists (World.store wd tx ty (Tile.set_built (Some nm) tl)).
  pose proof (get_tile_store wd tx ty tl (Tile.set_built (Some nm) tl) Hget) as Hget1.
  split; [|split].
  - unfold World.place_structure. rewrite Hget. simpl. by rewrite Hnone.
  - unfold World.place_structure. rewrite Hget1.
    cbn [mbind result_bind Tile.built Tile.set_built]. by rewrite Htruthy.
  - unfold World.remove_structure. rewrite Hget1.
    cbn [mbind result_bind Tile.built Tile.set_built]. rewrite Htruthy.
    cbn [negb]. rewrite store_store. do 2 f_equal. apply store_same.
    apply get_tile_Some in Hget as [_ Hidx]. rewrite Hidx. f_equal.
    destruct tl as [k r a b]. simpl in *. by subst.
Qed.

Lemma place_then_remove_witness :
  exists wd1,
    World.place_structure orchard 0 1 "campfire" = Ok (true, wd1) /\
    World.place_structure wd1 0 1 "shack" = Ok (false, wd1) /\
    World.remove_structure wd1 0 1 = Ok (true, orchard).
Proof.
  apply (place_then_remove orchard 0 1 "campfire" "shack" bare_sand);
    [reflexivity | reflexivity | discriminate].
Defined.

(** ** Harvesting *)

Lemma harvested_stocked (tl : Tile.t) (amount : Z) :
  stocked tl -> truthy (Tile.resource tl) = true ->
  stocked (World.harvested tl (Z.min amount (Tile.resource_amount tl))).
Proof.
  intros [[_ Hpos]|[Hnone _]] Hres; [|by rewrite Hnone in Hres].
  unfold World.harvested. cbn [Tile.resource_amount Tile.set_resource_amount].
  destruct (Z.leb_spec (Tile.resource_amount tl - Z.min amount (Tile.resource_amount tl)) 0)
    as [Hle|Hgt].
  - right. rewrite deplete_resource.
    destruct (deplete_rest (Tile.set_resource_amount
                (Tile.resource_amount tl - Z.min amount (Tile.resource_amount tl)) tl))
      as [-> _]. simpl. split; [done | lia].
  - left. simpl. split; [done | lia].
Qed.

Lemma store_sound (wd : World.t) (tx ty : Z) (tl : Tile.t) :
  sound wd -> stocked tl -> sound (World.store wd tx ty tl).
Proof.
  intros Hs Htl. unfold sound, World.store. simpl.
  apply Forall_alter; [done|]. intros col _ Hcol. by apply Forall_insert.
Qed.

(** What a [harvest] call leaves behind, whatever it returns. *)
Lemma harvest_cases (wd wd' : World.t) (tx ty amount taken : Z) :
  World.harvest wd tx ty amount = Ok (taken, wd') ->
  (taken = 0 /\ wd' = wd) \/
  exists tl, World.get_tile wd tx ty = Ok (Some tl) /\
             truthy (Tile.resource tl) = true /\
             taken = Z.min amount (Tile.resource_amount tl) /\
             wd' = World.store wd tx ty (World.harvested tl taken).
Proof.
  unfold World.harvest.
  destruct (World.get_tile wd tx ty) as [[tl|]|] eqn:Hget; simpl; try discriminate.
  - destruct (truthy (Tile.resource tl)) eqn:Hres; simpl.
    + intros [= <- <-]. right. exists tl. auto.
    + intros [= <- <-]. by left.
  - intros [= <- <-]. by left.
Qed.

(** X4.  A [harvest] call touches one tile only: the sizes, the shape of the
    grid and every other tile are kept, and so is the bookkeeping of every
    tile (a resource with a positive amount, or none with amount 0).  On such
    a grid a non-negative request is answered with between 0 and the
    requested number of units. *)
Theorem harvest_keeps (wd wd' : World.t) (tx ty amount taken : Z) :
  World.harvest wd tx ty amount = Ok (taken, wd') ->
  World.w wd' = World.w wd /\ World.h wd' = World.h wd /\
  (World.shaped wd -> World.shaped wd') /\
  (sound wd -> sound wd') /\
  (forall ux uy, (ux, uy) <> (tx, ty) ->
     World.get_tile wd' ux uy = World.get_tile wd ux uy) /\
  (sound wd -> 0 <= amount -> 0 <= taken <= amount).
Proof.
  intros [[-> ->]|(tl & Hget & Hres & Htaken & ->)]%harvest_cases.
  - split; [done|]. split; [done|]. split; [done|]. split; [done|].
    split; [done|]. intros _ ?. lia.
  - pose proof Hget as [Hb Hidx]%get_tile_Some.
    assert (sound wd -> stocked tl) as Htl.
    { intros Hs. unfold World.index in Hidx.
      destruct (World.tiles wd !! Z.to_nat tx) as [col|] eqn:Hcol; [|discriminate].
      destruct (col !! Z.to_nat ty) as [tl'|] eqn:Hc; [|discriminate].
      injection Hidx as ->. unfold sound in Hs. rewrite Forall_forall in Hs.
      specialize (Hs col (list_elem_of_lookup_2 _ _ _ Hcol)).
      rewrite Forall_forall in Hs. apply Hs. by eapply list_elem_of_lookup_2. }
    split; [reflexivity|]. split; [reflexivity|].
    split; [apply store_shaped|]. split; [|split].
    + intros Hs. apply store_sound; [done|]. subst taken.
      apply harvested_stocked; auto.
    + intros ux uy Hne. by apply get_tile_store_other.
    + intros Hs Hnn. destruct (Htl Hs) as [[_ Hpos]|[Hnone _]]; [lia|].
      by rewrite Hnone in Hres.
Qed.

Lemma orchard_sound : sound orchard.
Proof.
  apply Forall_cons_2; [|apply Forall_nil_2].
  apply Forall_cons_2; [|apply Forall_cons_2; [|apply Forall_nil_2]].
  - left. split; reflexivity.
  - right. split; reflexivity.
Qed.

Lemma harvest_keeps_witness :
  exists wd',
    World.harvest orchard 0 0 3 = Ok (1, wd') /\
    World.shaped wd' /\ sound wd' /\
    World.get_tile wd' 0 1 = World.get_tile orchard 0 1 /\ 0 <= 1 <= 3.
Proof.
  eexists. split; [reflexivity|].
  destruct (harvest_keeps orchard _ 0 0 3 1 eq_refl) as (_ & _ & H1 & H2 & H3 & H4).
  split; [exact (H1 orchard_shaped)|]. split; [exact (H2 orchard_sound)|].
  split; [apply H3; discriminate|]. apply H4; [exact orchard_sound | lia].
Defined.

(** X5.  On a tile with sound bookkeeping, harvesting [a] units and then [b]
    units (both non-negative) returns in total, and leaves behind, exactly
    what one harvest of [a + b] units does.  In particular, once a call has
    taken the last unit every later call returns 0 and changes nothing. *)
Theorem harvest_additive (wd : World.t) (tx ty a b : Z) (o : option Tile.t) :
  World.get_tile wd tx ty = Ok o ->
  (forall tl, o = Some tl -> stocked tl) ->
  0 <= a -> 0 <= b ->
  exists t1 wd1 t2 wd2,
    World.harvest wd tx ty a = Ok (t1, wd1) /\
    World.harvest wd1 tx ty b = Ok (t2, wd2) /\
    World.harvest wd tx ty (a + b) = Ok (t1 + t2, wd2) /\
    (forall tl, o = Some tl -> Tile.resource_amount tl <= a ->
       t2 = 0 /\ wd2 = wd1).
Proof.
  intros Hget Hst Ha Hb. unfold World.harvest at 1 3. rewrite Hget. simpl.
  destruct o as [tl|].
  2:{ exists 0, wd, 0, wd. unfold World.harvest. rewrite Hget. simpl.
      repeat split; try done. }
  destruct (Hst tl eq_refl) as [[Hres Hpos]|[Hnone Hzero]].
  2:{ assert (truthy (Tile.resource tl) = false) as Hf by (by rewrite Hnone).
      rewrite Hf. simpl. exists 0, wd, 0, wd. unfold World.harvest.
      rewrite Hget. simpl. rewrite Hf. simpl. repeat split; try done. }
  rewrite Hres. simpl.
  set (ra := Tile.resource_amount tl) in *.
  set (tl1 := World.harvested tl (Z.min a ra)).
  pose proof (get_tile_store wd tx ty tl tl1 Hget) as Hget1.
  destruct (Z.lt_ge_cases a ra) as [Hlt|Hge].
  - assert (tl1 = Tile.set_resource_amount (ra - a) tl) as Htl1.
    { subst tl1. unfold World.harvested. simpl. fold ra. rewrite Z.min_l by lia.
      destruct (Z.leb_spec (ra - a) 0); [lia | done]. }
    clearbody tl1. subst tl1.
    exists a, (World.store wd tx ty (Tile.set_resource_amount (ra - a) tl)),
           (Z.min b (ra - a)),
           (World.store wd tx ty
              (World.harvested (Tile.set_resource_amount (ra - a) tl) (Z.min b (ra - a)))).
    split; [|split; [|split]].
    + by rewrite Z.min_l by lia.
    + unfold World.harvest. rewrite Hget1. simpl. rewrite Hres. simpl.
      by rewrite store_store.
    + do 2 f_equal; [lia|]. f_equal.
      unfold World.harvested. simpl. fold ra.
      replace (ra - Z.min (a + b) ra) with (ra - a - Z.min b (ra - a)) by lia.
      done.
    + intros ? [= <-] ?. lia.
  - assert (Tile.resource tl1 = None) as Hnone1.
    { subst tl1. unfold World.harvested. simpl. fold ra. rewrite Z.min_r by lia.
      destruct (Z.leb_spec (ra - ra) 0); [|lia]. apply deplete_resource. }
    exists (Z.min a ra), (World.store wd tx ty tl1), 0, (World.store wd tx ty tl1).
    assert (World.harvest (World.store wd tx ty tl1) tx ty b
            = Ok (0, World.store wd tx ty tl1)) as H2.
    { unfold World.harvest. rewrite Hget1. simpl. by rewrite Hnone1. }
    split; [done|]. split; [exact H2|]. split; [|done].
    subst tl1. rewrite !Z.min_r by lia. do 2 f_equal. lia.
Qed.

(** On the orchard's last tree, taking one unit and then two is taking
    three: one unit comes out in all, and the second call finds nothing. *)
Lemma harvest_additive_witness :
  exists t1 wd1 t2 wd2,
    World.harvest orchard 0 0 1 = Ok (t1, wd1) /\
    World.harvest wd1 0 0 2 = Ok (t2, wd2) /\
    World.harvest orchard 0 0 (1 + 2) = Ok (t1 + t2, wd2) /\
    t2 = 0 /\ wd2 = wd1.
Proof.
  destruct (harvest_additive orchard 0 0 1 2 (Some last_tree) eq_refl)
    as (t1 & wd1 & t2 & wd2 & H1 & H2 & H3 & H4).
  - intros tl [= <-]. left. split; reflexivity.
  - lia.
  - lia.
  - exists t1, wd1, t2, wd2. repeat split; try assumption;
      apply (H4 last_tree eq_refl); simpl; lia.
Defined.

(** ** Serialising the world *)

(** X6.  Whatever [World.from_dict] accepts is a grid of its declared shape,
    and encoding it with [to_dict] and decoding again gives the same world:
    keys and cells the decoder did not read are dropped once and for all. *)
Theorem world_decode_encode (data : json) (wd : World.t) :
  World.from_dict data = Ok wd ->
  World.shaped wd /\
  exists data', World.to_dict wd = Ok data' /\ World.from_dict data' = Ok wd.
Proof.
  intros Hdec. pose proof (from_dict_shaped data wd Hdec) as Hshape.
  split; [done|]. eexists. split; [by apply to_dict_shaped|].
  apply world_roundtrip; [done|]. by apply to_dict_shaped.
Qed.

Lemma world_decode_encode_witness :
  World.shaped stump /\
  exists data', World.to_dict stump = Ok data' /\ World.from_dict data' = Ok stump.
Proof. exact (world_decode_encode stump_doc stump stump_from_dict). Defined.

(** ** Inventory invariants *)

Lemma apply_op_capacity (inv : Inventory.t) (op : inv_op) :
  Inventory.capacity (apply_op inv op).2 = Inventory.capacity inv.
Proof.
  destruct op as [i n a|i a]; simpl.
  - unfold Inventory.add. destruct (Inventory.items inv !! i); [done|].
    by destruct (_ <=? _).
  - unfold Inventory.remove. destruct (Inventory.items inv !! i); [|done].
    destruct (_ <? _); [done|]. simpl. by destruct (_ =? _).
Qed.

Lemma apply_op_within (inv : Inventory.t) (op : inv_op) :
  within_capacity inv -> within_capacity (apply_op inv op).2.
Proof.
  unfold within_capacity. intros Hc. destruct op as [i n a|i a]; simpl.
  - unfold Inventory.add. destruct (Inventory.items inv !! i) as [it|] eqn:Hi; simpl.
    + rewrite map_size_insert_Some by eauto. done.
    + destruct (Z.leb_spec (Inventory.capacity inv) (Z.of_nat (size (Inventory.items inv))));
        simpl; [done|].
      rewrite map_size_insert_None by done. lia.
  - unfold Inventory.remove. destruct (Inventory.items inv !! i) as [it|] eqn:Hi; [|done].
    destruct (_ <? _); [done|]. simpl. destruct (_ =? _); simpl.
    + rewrite map_size_delete_Some by eauto. lia.
    + rewrite map_size_insert_Some by eauto. done.
Qed.

Lemma apply_op_positive (inv : Inventory.t) (op : inv_op) :
  positive inv -> adds_units op -> positive (apply_op inv op).2.
Proof.
  unfold positive. intros Hp Hop k it'. destruct op as [i n a|i a]; simpl in *.
  - unfold Inventory.add. destruct (Inventory.items inv !! i) as [it|] eqn:Hi; simpl.
    + destruct (decide (k = i)) as [->|Hne].
      * rewrite lookup_insert_eq. intros [= <-]. simpl. specialize (Hp i it Hi). lia.
      * rewrite lookup_insert_ne by done. apply Hp.
    + destruct (_ <=? _); simpl; [apply Hp|].
      destruct (decide (k = i)) as [->|Hne].
      * rewrite lookup_insert_eq. by intros [= <-].
      * rewrite lookup_insert_ne by done. apply Hp.
  - unfold Inventory.remove. destruct (Inventory.items inv !! i) as [it|] eqn:Hi; [|apply Hp].
    destruct (Z.ltb_spec (Item.amount it) a); [apply Hp|]. simpl.
    destruct (Z.eqb_spec (Item.amount it - a) 0); simpl.
    + destruct (decide (k = i)) as [->|Hne].
      * by rewrite lookup_delete_eq.
      * rewrite lookup_delete_ne by done. apply Hp.
    + destruct (decide (k = i)) as [->|Hne].
      * rewrite lookup_insert_eq. intros [= <-]. simpl. lia.
      * rewrite lookup_insert_ne by done. apply Hp.
Qed.

(** X7.  Over any sequence of [add] and [remove] calls the capacity field
    is never changed and an inventory that held no more stacks than its
    capacity still does; if moreover every [add] puts in at least one unit,
    every stack keeps at least one unit (a stack that reaches 0 is deleted)
    and every stack stays under its own id. *)
Theorem run_ops_invariants (ops : list inv_op) (inv : Inventory.t) :
  Inventory.capacity (run_ops ops inv) = Inventory.capacity inv /\
  (within_capacity inv -> within_capacity (run_ops ops inv)) /\
  (keyed inv -> keyed (run_ops ops inv)) /\
  (positive inv -> Forall adds_units ops -> positive (run_ops ops inv)).
Proof.
  revert inv. induction ops as [|op ops IH]; intros inv; simpl; [done|].
  destruct (IH (apply_op inv op).2) as (I1 & I2 & I3 & I4).
  split; [by rewrite I1, apply_op_capacity|]. split; [|split].
  - intros Hc. by apply I2, apply_op_within.
  - intros Hk. apply I3. destruct op; [apply add_keyed | apply remove_keyed]; done.
  - intros Hp [Hop Hops]%Forall_cons. apply I4; [|done]. by apply apply_op_positive.
Qed.

Lemma run_ops_invariants_witness :
  Inventory.capacity (run_ops session Inventory.new) = 30 /\
  within_capacity (run_ops session Inventory.new) /\
  keyed (run_ops session Inventory.new) /\
  positive (run_ops session Inventory.new).
Proof.
  destruct (run_ops_invariants session Inventory.new) as (H1 & H2 & H3 & H4).
  split; [exact H1|]. split; [|split].
  - apply H2. unfold within_capacity. simpl. rewrite map_size_empty. lia.
  - apply H3, new_keyed.
  - apply H4.
    + intros k it H. simpl in H. by rewrite lookup_empty in H.
    + unfold session. repeat apply Forall_cons_2; simpl; try lia; try done.
Defined.

Lemma apply_op_other (inv : Inventory.t) (op : inv_op) (j : string) :
  op_id op <> j ->
  Inventory.items (apply_op inv op).2 !! j = Inventory.items inv !! j.
Proof.
  intros Hne. destruct op as [i n a|i a]; simpl in *.
  - unfold Inventory.add. destruct (Inventory.items inv !! i); simpl.
    + by rewrite lookup_insert_ne.
    + destruct (_ <=? _); simpl; [done|]. by rewrite lookup_insert_ne.
  - unfold Inventory.remove. destruct (Inventory.items inv !! i); [|done].
    destruct (_ <? _); [done|]. simpl. destruct (_ =? _); simpl.
    + by rewrite lookup_delete_ne.
    + by rewrite lookup_insert_ne.
Qed.

(** X8.  Calls on other ids never touch a stack: after any sequence of
    [add] and [remove] calls none of which names the id, its stack (id,
    display name and amount) is as before, or still absent. *)
Theorem run_ops_frame (ops : list inv_op) (inv : Inventory.t) (j : string) :
  Forall (fun op => op_id op <> j) ops ->
  Inventory.items (run_ops ops inv) !! j = Inventory.items inv !! j.
Proof.
  revert inv. induction ops as [|op ops IH]; intros inv Hops; simpl; [done|].
  apply Forall_cons in Hops as [Hop Hops].
  by rewrite IH, apply_op_other.
Qed.

Lemma run_ops_frame_witness :
  Inventory.items (run_ops [Remove "stone" 1; Add "wood" "Wood" 4] one_slot) !! "berries"
  = Inventory.items one_slot !! "berries".
Proof.
  apply (run_ops_frame [Remove "stone" 1; Add "wood" "Wood" 4] one_slot "berries").
  repeat apply Forall_cons_2; try apply Forall_nil_2; discriminate.
Defined.

(** X9.  Adding an amount to an id and removing the same amount again gives
    back the inventory exactly, when the id is new and a stack is free, or
    held with a positive amount: both calls succeed. *)
Theorem add_then_remove (inv : Inventory.t) (i n : string) (a : Z) :
  (Inventory.items inv !! i = None ->
   Z.of_nat (size (Inventory.items inv)) < Inventory.capacity inv ->
   exists inv1, Inventory.add inv i n a = (true, inv1) /\
                Inventory.remove inv1 i a = (true, inv)) /\
  (forall it, Inventory.items inv !! i = Some it -> 0 < Item.amount it ->
   exists inv1, Inventory.add inv i n a = (true, inv1) /\
                Inventory.remove inv1 i a = (true, inv)).
Proof.
  split.
  - intros Hnone Hfree.
    eexists. split; [by apply add_new|].
    unfold Inventory.remove. simpl. rewrite lookup_insert_eq. simpl.
    rewrite Z.ltb_irrefl, Z.sub_diag. simpl.
    unfold Inventory.set_items. simpl.
    rewrite delete_insert_eq, delete_id by done. by destruct inv.
  - intros it Hit Hpos. eexists. split; [by apply add_existing|].
    unfold Inventory.remove. simpl. rewrite lookup_insert_eq. simpl.
    destruct (Z.ltb_spec (Item.amount it + a) a); [lia|]. simpl.
    destruct (Z.eqb_spec (Item.amount it + a - a) 0); [lia|].
    unfold Inventory.set_items. simpl. rewrite insert_insert_eq.
    rewrite insert_id; [by destruct inv|].
    rewrite Hit. f_equal. destruct it as [k nm amt]. unfold Item.set_amount. simpl.
    f_equal. lia.
Qed.

Lemma add_then_remove_witness :
  (exists inv1, Inventory.add Inventory.new "wood" "Wood" 5 = (true, inv1) /\
                Inventory.remove inv1 "wood" 5 = (true, Inventory.new)) /\
  (exists inv1, Inventory.add one_slot "stone" "Stone" 2 = (true, inv1) /\
                Inventory.remove inv1 "stone" 2 = (true, one_slot)).
Proof.
  split.
  - apply (proj1 (add_then_remove Inventory.new "wood" "Wood" 5)).
    + reflexivity.
    + simpl. rewrite map_size_empty. lia.
  - apply (proj2 (add_then_remove one_slot "stone" "Stone" 2) (Item.mk "stone" "Stone" 3)).
    + reflexivity.
    + simpl. lia.
Defined.

(** ** Serialising the inventory and the player *)

Lemma from_list_items (its : list Item.t) :
  Inventory.from_list (JList (Inventory.item_to_dict <$> its)) =
    Ok (Inventory.set_items
          (foldl (fun m e => <[e.1 := e.2]> m) ∅ ((fun it => (Item.id it, it)) <$> its))
          Inventory.new).
Proof.
  unfold Inventory.from_list. simpl. rewrite traverse_fmap.
  rewrite (traverse_ext _ (fun it => Ok (Item.id it, it)))
    by (intros it _; apply entry_roundtrip).
  by rewrite traverse_Ok.
Qed.

Lemma foldl_insert_last (its : list Item.t) (k : string) :
  foldl (fun m e => <[e.1 := e.2]> m) (∅ : gmap string Item.t)
        ((fun it => (Item.id it, it)) <$> its) !! k
  = last (filter (fun it => Item.id it = k) its).
Proof.
  induction its as [|it its IH] using rev_ind; [apply lookup_empty|].
  rewrite fmap_app, foldl_app, filter_app. simpl.
  destruct (decide (Item.id it = k)) as [<-|Hne].
  - rewrite lookup_insert_eq, filter_cons_True by done.
    rewrite filter_nil. by rewrite last_snoc.
  - rewrite lookup_insert_ne by done. rewrite IH.
    rewrite filter_cons_False by done. rewrite filter_nil. by rewrite app_nil_r.
Qed.

(** X10.  [Inventory.from_list] on a list of item entries keeps, for every
    id, the last entry carrying it; it gives the inventory the default
    capacity 30 and never checks the number of stacks against it, so a list
    of distinct ids yields as many stacks as it has entries. *)
Theorem from_list_last_wins (its : list Item.t) :
  exists inv,
    Inventory.from_list (JList (Inventory.item_to_dict <$> its)) = Ok inv /\
    Inventory.capacity inv = 30 /\
    (forall k, Inventory.items inv !! k = last (filter (fun it => Item.id it = k) its)) /\
    (NoDup (Item.id <$> its) -> size (Inventory.items inv) = length its).
Proof.
  eexists. split; [apply from_list_items|]. split; [reflexivity|]. split.
  - intros k. apply foldl_insert_last.
  - intros Hnd. simpl. rewrite foldl_insert_list_to_map.
    rewrite map_size_list_to_map.
    + by rewrite length_reverse, length_fmap.
    + rewrite fmap_reverse, reverse_Permutation, <- list_fmap_compose. exact Hnd.
Qed.

(** Two entries for wood: the second one stands. *)
Lemma from_list_last_wins_witness :
  exists inv,
    Inventory.from_list
      (JList (Inventory.item_to_dict <$>
                [Item.mk "wood" "Wood" 5; Item.mk "stone" "Stone" 1; Item.mk "wood" "Oak" 2]))
      = Ok inv /\
    Inventory.capacity inv = 30 /\
    Inventory.items inv !! "wood" = Some (Item.mk "wood" "Oak" 2).
Proof.
  destruct (from_list_last_wins
              [Item.mk "wood" "Wood" 5; Item.mk "stone" "Stone" 1; Item.mk "wood" "Oak" 2])
    as (inv & H1 & H2 & H3 & _).
  exists inv. split; [exact H1|]. split; [exact H2|]. rewrite H3. reflexivity.
Defined.

(** X11.  [to_list] emits one entry per stack, and decoding its output with
    [from_list] gives back the same stacks when every stack sits under its own
    id; the capacity comes back as the default 30, whatever it was. *)
Theorem to_list_from_list (inv : Inventory.t) :
  keyed inv ->
  length (Inventory.to_list inv) = size (Inventory.items inv) /\
  exists inv',
    Inventory.from_list (JList (Inventory.to_list inv)) = Ok inv' /\
    Inventory.items inv' = Inventory.items inv /\
    Inventory.capacity inv' = 30.
Proof.
  intros Hk. split.
  - unfold Inventory.to_list. by rewrite !length_fmap, length_map_to_list.
  - eexists. split; [by apply inventory_roundtrip|]. done.
Qed.

Lemma to_list_from_list_witness :
  length (Inventory.to_list one_slot) = size (Inventory.items one_slot) /\
  exists inv',
    Inventory.from_list (JList (Inventory.to_list one_slot)) = Ok inv' /\
    Inventory.items inv' = Inventory.items one_slot /\
    Inventory.capacity inv' = 30.
Proof.
  apply (to_list_from_list one_slot).
  intros k it. unfold one_slot. simpl.
  intros [<- <-]%lookup_singleton_Some. reflexivity.
Defined.

(** X12.  [Player.from_dict] restores of every player whose stacks sit
    under their own ids what [Player.to_dict] wrote: the position, the four
    vital stats, the stacks and the equipped item.  The angle, the attack
    power and the inventory capacity are not written and come back as the
    defaults 0, 10 and 30, so that the round trip is the identity exactly on
    the players that have these defaults. *)
Theorem player_to_dict_from_dict (p : Player.t) :
  keyed (Player.inventory p) ->
  exists p',
    Player.from_dict (Player.to_dict p) = Ok p' /\
    Player.x p' = Player.x p /\ Player.y p' = Player.y p /\
    Player.health p' = Player.health p /\ Player.hunger p' = Player.hunger p /\
    Player.thirst p' = Player.thirst p /\ Player.stamina p' = Player.stamina p /\
    Inventory.items (Player.inventory p') = Inventory.items (Player.inventory p) /\
    Player.equipped p' = Player.equipped p /\
    Player.angle p' = 0%R /\ Player.attack_power p' = 10%R /\
    Inventory.capacity (Player.inventory p') = 30 /\
    (p' = p <->
     Player.angle p = 0%R /\ Player.attack_power p = 10%R /\
     Inventory.capacity (Player.inventory p) = 30).
Proof.
  intros Hk. exists (restored p). split; [by apply player_roundtrip|].
  destruct p as [x y ang hp hu th st [items cap] eq ap]. unfold restored. simpl.
  do 11 (split; [reflexivity|]). split.
  - intros [= <- <- <-]. done.
  - intros (-> & -> & ->). reflexivity.
Qed.

(** A player turned by a quarter, hurt, hungry, with a spear in hand and an
    inventory of capacity 5: everything but the angle and the capacity comes
    back. *)
Lemma player_to_dict_from_dict_witness :
  exists p',
    Player.from_dict (Player.to_dict veteran) = Ok p' /\
    Player.x p' = Player.x veteran /\ Player.y p' = Player.y veteran /\
    Player.health p' = Player.health veteran /\
    Player.hunger p' = Player.hunger veteran /\
    Player.thirst p' = Player.thirst veteran /\
    Player.stamina p' = Player.stamina veteran /\
    Inventory.items (Player.inventory p') = Inventory.items (Player.inventory veteran) /\
    Player.equipped p' = Player.equipped veteran /\
    Player.angle p' = 0%R /\ Player.attack_power p' = 10%R /\
    Inventory.capacity (Player.inventory p') = 30 /\
    p' <> veteran.
Proof.
  assert (keyed (Player.inventory veteran)) as Hk.
  { unfold veteran. cbn [Player.inventory]. apply add_keyed.
    intros k it Hit. cbn [Inventory.items] in Hit. by apply lookup_empty_Some in Hit. }
  destruct (player_to_dict_from_dict veteran Hk)
    as (p' & H1 & H2 & H3 & H4 & H5 & H6 & H7 & H8 & H9 & H10 & H11 & H12 & H13).
  exists p'. do 12 (split; [assumption|]).
  intros Heq. apply H13 in Heq as (_ & _ & Hcap). discriminate Hcap.
Defined.

(** ** Crafting that succeeds *)

Lemma has_after_other (inv : Inventory.t) (r j : string) (a b : Z) :
  r <> j ->
  Inventory.has (Inventory.remove inv r a).2 j b = Inventory.has inv j b.
Proof.
  intros Hne. unfold Inventory.has.
  pose proof (apply_op_other inv (Remove r a) j Hne) as H. simpl in H.
  by rewrite H.
Qed.

(** Consuming requirements that are all held, each id once. *)
Lemma consume_stock (req : list (string * Z)) :
  forall inv : Inventory.t,
    NoDup req.*1 ->
    (forall rid amt, (rid, amt) ∈ req -> Inventory.has inv rid amt = true) ->
    forall j, Inventory.stock (Game.consume req inv) j
              = Inventory.stock inv j - needed req j.
Proof.
  induction req as [|[r a] req IH]; intros inv Hnd Hhas j.
  - simpl. unfold Game.consume. simpl. lia.
  - apply NoDup_cons in Hnd as [Hr Hnd]. simpl in Hr.
    unfold Game.consume. cbn [foldl]. fold (Game.consume req (Inventory.remove inv r a).2).
    rewrite IH; [|done|].
    + assert (Inventory.has inv r a = true) as Hra by (apply Hhas; left).
      pose proof (remove_flag inv r a) as Hflag. rewrite Hra in Hflag.
      destruct (Inventory.remove inv r a) as [ok inv1] eqn:E. simpl in *. subst ok.
      rewrite (stock_remove _ _ j _ _ E). destruct (decide (r = j)); lia.
    + intros rid amt Hin. rewrite has_after_other.
      * apply Hhas. by right.
      * intros ->. apply Hr. apply list_elem_of_fmap. by exists (rid, amt).
Qed.

Lemma consume_other (req : list (string * Z)) (j : string) :
  j ∉ req.*1 ->
  forall inv : Inventory.t,
    Inventory.items (Game.consume req inv) !! j = Inventory.items inv !! j.
Proof.
  induction req as [|[r a] req IH]; intros Hj inv; [done|].
  unfold Game.consume. cbn [foldl]. fold (Game.consume req (Inventory.remove inv r a).2).
  rewrite IH.
  - apply (apply_op_other inv (Remove r a) j). simpl. intros ->. apply Hj. simpl. left.
  - intros Hin. apply Hj. simpl. by right.
Qed.

Lemma recipe_cases (recipe_id : string) (rc : Recipe) :
  RECIPES !! recipe_id = Some rc ->
  (recipe_id = "wooden_spear" /\ rc = mkRecipe [("wood", 3); ("stone", 1)] "Wooden Spear") \/
  (recipe_id = "campfire" /\ rc = mkRecipe [("wood", 5)] "Campfire") \/
  (recipe_id = "stone_axe" /\ rc = mkRecipe [("wood", 2); ("stone", 3)] "Stone Axe") \/
  (recipe_id = "wooden_shack" /\ rc = mkRecipe [("wood", 20)] "Wooden Shack").
Proof.
  unfold RECIPES. rewrite !lookup_insert_Some, lookup_empty.
  intros [[<- <-]|[_ [[<- <-]|[_ [[<- <-]|[_ [[<- <-]|[_ [=]]]]]]]]]; auto 6.
Qed.

Lemma forallb_has (inv : Inventory.t) (req : list (string * Z)) :
  (forall rid amt, (rid, amt) ∈ req -> Inventory.has inv rid amt = true) ->
  forallb (fun '(rid, amt) => Inventory.has inv rid amt) req = true.
Proof.
  intros H. apply forallb_forall. intros [rid amt] Hin. apply H.
  by apply list_elem_of_In.
Qed.

(** X13.  Crafting an item recipe ([wooden_spear], [stone_axe]) whose
    requirements are all held returns true, leaves the world alone and takes
    exactly the required amount off each required stack.  One unit of the
    product is added when the inventory, after the consumption, holds the
    product or has a free stack; when it is full and holds none, the product
    is dropped and [craft] still returns true. *)
Theorem craft_item (self : Game.t) (recipe_id : string) (rc : Recipe) :
  let inv := Player.inventory (Game.player self) in
  let inv1 := Game.consume (requires rc) inv in
  RECIPES !! recipe_id = Some rc ->
  recipe_id <> "campfire" -> recipe_id <> "wooden_shack" ->
  (forall rid amt, (rid, amt) ∈ requires rc -> Inventory.has inv rid amt = true) ->
  exists self',
    Game.craft self recipe_id = Ok (true, self') /\
    Game.world self' = Game.world self /\
    let inv' := Player.inventory (Game.player self') in
    (forall j, j <> recipe_id ->
       Inventory.stock inv' j = Inventory.stock inv j - needed (requires rc) j) /\
    (is_Some (Inventory.items inv1 !! recipe_id) \/
     Z.of_nat (size (Inventory.items inv1)) < Inventory.capacity inv1 ->
       Inventory.stock inv' recipe_id = Inventory.stock inv recipe_id + 1) /\
    (Inventory.items inv1 !! recipe_id = None ->
     Inventory.capacity inv1 <= Z.of_nat (size (Inventory.items inv1)) ->
       inv' = inv1).
Proof.
  intros inv inv1 Hrc Hc Hs Hhas.
  assert (NoDup (requires rc).*1 /\ recipe_id ∉ (requires rc).*1) as [Hnd Hnotin].
  { destruct (recipe_cases _ _ Hrc) as [[-> ->]|[[-> ->]|[[-> ->]|[-> ->]]]];
      try done; simpl;
      (split; [apply NoDup_cons; split; [|apply NoDup_singleton]|]);
      rewrite ?list_elem_of_singleton, ?elem_of_cons, ?elem_of_nil;
      intros ?; intuition discriminate. }
  eexists. split.
  - unfold Game.craft. rewrite Hrc. fold inv. rewrite (forallb_has inv _ Hhas).
    cbn [negb].
    destruct (String.eqb_spec recipe_id "campfire"); [done|].
    destruct (String.eqb_spec recipe_id "wooden_shack"); [done|]. reflexivity.
  - split; [reflexivity|].
    cbn [Game.give Game.set_inventory Game.player Game.set_player Player.inventory
         Player.set_inventory]. fold inv inv1.
    assert (Inventory.stock inv1 recipe_id = Inventory.stock inv recipe_id) as Hsame.
    { unfold Inventory.stock, inv1. by rewrite consume_other. }
    split; [|split].
    + intros j Hj.
      destruct (Inventory.add inv1 recipe_id (recipe_name rc) 1) as [[] inv2] eqn:E; simpl.
      * rewrite (stock_add _ _ _ j _ _ E). rewrite decide_False by done.
        by apply consume_stock.
      * apply add_failed in E as ->. by apply consume_stock.
    + intros Hroom.
      assert (exists inv2, Inventory.add inv1 recipe_id (recipe_name rc) 1 = (true, inv2))
        as [inv2 E].
      { destruct (Inventory.items inv1 !! recipe_id) as [it|] eqn:Hit.
        - eexists. by apply add_existing.
        - destruct Hroom as [[? [=]]|Hroom]. eexists. by apply add_new. }
      rewrite E. simpl. rewrite (stock_add _ _ _ recipe_id _ _ E).
      rewrite decide_True by done. lia.
    + intros Hnone Hfull. by rewrite add_full.
Qed.

(** The spec's scenario: with five wood and three stone, crafting a wooden
    spear leaves two wood and two stone and adds one spear. *)
Lemma craft_item_witness :
  exists self',
    Game.craft (Game.fresh orchard []) "wooden_spear" = Ok (true, self') /\
    Game.world self' = orchard /\
    Inventory.stock (Player.inventory (Game.player self')) "wood" = 2 /\
    Inventory.stock (Player.inventory (Game.player self')) "stone" = 2 /\
    Inventory.stock (Player.inventory (Game.player self')) "wooden_spear" = 1.
Proof.
  destruct (craft_item (Game.fresh orchard []) "wooden_spear"
              (mkRecipe [("wood", 3); ("stone", 1)] "Wooden Spear") eq_refl)
    as (self' & H1 & H2 & H3 & H4 & _).
  - discriminate.
  - discriminate.
  - intros rid amt Hin. simpl in Hin.
    apply elem_of_cons in Hin as [[= -> ->]|Hin]; [reflexivity|].
    apply elem_of_cons in Hin as [[= -> ->]|Hin]; [reflexivity|].
    by apply elem_of_nil in Hin.
  - exists self'. split; [exact H1|]. split; [exact H2|]. cbv zeta in H3, H4.
    split; [rewrite H3 by discriminate; reflexivity|].
    split; [rewrite H3 by discriminate; reflexivity|].
    rewrite H4; [reflexivity|]. right. vm_compute. reflexivity.
Defined.

(** X14.  Crafting a structure recipe ([campfire] for 5 wood, [wooden_shack]
    for 20) by a player who holds the wood and stands on a tile without
    structure returns true, takes exactly that much wood, touches no other
    stack, and writes the structure name ("campfire", "shack") into the
    [built] field of the tile under the player, leaving the rest of the tile
    and every other tile as they were. *)
Theorem craft_structure (self : Game.t) (recipe_id nm : string) (cost : Z)
  (tx ty : Z) (tl : Tile.t) :
  let inv := Player.inventory (Game.player self) in
  (recipe_id, (cost, nm)) ∈ STRUCTURES ->
  player_tile self = (tx, ty) ->
  World.get_tile (Game.world self) tx ty = Ok (Some tl) ->
  truthy (Tile.built tl) = false ->
  Inventory.has inv "wood" cost = true ->
  exists self',
    Game.craft self recipe_id = Ok (true, self') /\
    World.get_tile (Game.world self') tx ty =
      Ok (Some (Tile.mk (Tile.kind tl) (Tile.resource tl)
                        (Tile.resource_amount tl) (Some nm))) /\
    (forall ux uy, (ux, uy) <> (tx, ty) ->
       World.get_tile (Game.world self') ux uy = World.get_tile (Game.world self) ux uy) /\
    let inv' := Player.inventory (Game.player self') in
    Inventory.stock inv' "wood" = Inventory.stock inv "wood" - cost /\
    (forall j, j <> "wood" -> Inventory.items inv' !! j = Inventory.items inv !! j).
Proof.
  intros inv Hin [= Hx Hy] Hget Hfree Hhas.
  assert (exists rc, RECIPES !! recipe_id = Some rc /\ requires rc = [("wood", cost)] /\
                     (recipe_id = "campfire" /\ nm = "campfire" \/
                      recipe_id = "wooden_shack" /\ nm = "shack")) as (rc & Hrc & Hreq & Hid).
  { unfold STRUCTURES in Hin.
    apply elem_of_cons in Hin as [[= -> -> ->]|Hin]; [eexists; split; [reflexivity|]; auto|].
    apply elem_of_cons in Hin as [[= -> -> ->]|Hin]; [eexists; split; [reflexivity|]; auto|].
    by apply elem_of_nil in Hin. }
  exists (Game.set_world (World.store (Game.world self) tx ty (Tile.set_built (Some nm) tl))
            (Game.set_inventory (Game.consume [("wood", cost)] inv) self)).
  split; [|split; [|split; [|split]]].
  - unfold Game.craft. rewrite Hrc, Hreq. fold inv. cbn [forallb]. rewrite Hhas.
    cbn [andb negb].
    assert (Game.build (Game.set_inventory (Game.consume [("wood", cost)] inv) self)
                       [("wood", cost)] nm
            = Ok (true, Game.set_world
                          (World.store (Game.world self) tx ty (Tile.set_built (Some nm) tl))
                          (Game.set_inventory (Game.consume [("wood", cost)] inv) self)))
      as Hbuild.
    { unfold Game.build.
      cbn [Game.player Game.set_inventory Game.set_player Player.x Player.y
           Player.set_inventory Game.world].
      rewrite Hx, Hy. unfold World.place_structure. rewrite Hget. simpl.
      by rewrite Hfree. }
    destruct Hid as [[-> ->]|[-> ->]]; exact Hbuild.
  - simpl. by eapply get_tile_store.
  - intros ux uy Hne. simpl. apply get_tile_store_other; [|done].
    by apply get_tile_Some in Hget as [Hb _].
  - cbn [Game.set_world Game.set_inventory Game.player Game.set_player
         Player.inventory Player.set_inventory]. fold inv. rewrite consume_stock.
    + unfold needed. cbn [foldr]. rewrite decide_True by done. lia.
    + simpl. apply NoDup_singleton.
    + intros rid amt [= -> ->]%list_elem_of_singleton. done.
  - intros j Hj.
    cbn [Game.set_world Game.set_inventory Game.player Game.set_player
         Player.inventory Player.set_inventory]. fold inv. apply consume_other.
    simpl. rewrite list_elem_of_singleton. done.
Qed.

(** With the starter inventory on the bare sand of a one-tile beach the
    campfire is built and the five wood are gone. *)
Lemma craft_structure_witness :
  let beach := World.mk 1 1 [[bare_sand]] in
  exists self',
    Game.craft (Game.fresh beach []) "campfire" = Ok (true, self') /\
    World.get_tile (Game.world self') 0 0
      = Ok (Some (Tile.mk TILE_SAND None 0 (Some "campfire"))) /\
    Inventory.stock (Player.inventory (Game.player self')) "wood" = 0 /\
    Inventory.stock (Player.inventory (Game.player self')) "stone" = 3.
Proof.
  intros beach.
  destruct (craft_structure (Game.fresh beach []) "campfire" "campfire" 5 0 0 bare_sand)
    as (self' & H1 & H2 & _ & H3 & H4).
  - unfold STRUCTURES. apply elem_of_cons. by left.
  - apply player_tile_fresh.
  - reflexivity.
  - reflexivity.
  - reflexivity.
  - exists self'. split; [exact H1|]. split; [exact H2|]. cbv zeta in H3, H4.
    split; [rewrite H3; reflexivity|].
    unfold Inventory.stock. rewrite H4 by discriminate. reflexivity.
Defined.

(** ** Interaction without harvest *)

Lemma collect_inventory (tile : Tile.t) (taken : Z) (self : Game.t) :
  exists inv, Game.collect tile taken self = Game.set_inventory inv self.
Proof.
  unfold Game.collect, Game.give.
  repeat (destruct (decide _); [eauto|]).
  exists (Player.inventory (Game.player self)).
  destruct self as [wd [] cx cy es run pa tod we bm sel]. reflexivity.
Qed.

(** X15.  [try_interact] looks at the resource first: on a tile that holds
    a resource, whatever its amount, the call changes the world and the
    inventory at most, so that the player's vital stats are left alone even
    when a campfire stands there.  On a tile with a campfire and no resource
    the player gains 20 stamina and 5 health, each capped at its maximum, and
    nothing else changes.  Outside the grid, on a bare tile and on any other
    structure the call changes nothing at all. *)
Theorem try_interact_structure (self : Game.t) (tx ty : Z) :
  let p := Game.player self in
  player_tile self = (tx, ty) ->
  (forall tl, World.get_tile (Game.world self) tx ty = Ok (Some tl) ->
     truthy (Tile.resource tl) = true ->
     exists wd inv,
       Game.try_interact self = Ok (Game.set_inventory inv (Game.set_world wd self))) /\
  (forall tl, World.get_tile (Game.world self) tx ty = Ok (Some tl) ->
     truthy (Tile.resource tl) = false -> Tile.built tl = Some "campfire" ->
     Game.try_interact self =
       Ok (Game.set_player
             (Player.set_health (Rmin MAX_HEALTH (Player.health p + 5))
                (Player.set_stamina (Rmin MAX_STAMINA (Player.stamina p + 20)) p))
             self) /\
     (Rmin MAX_STAMINA (Player.stamina p + 20) <= MAX_STAMINA)%R /\
     (Rmin MAX_HEALTH (Player.health p + 5) <= MAX_HEALTH)%R) /\
  (forall o, World.get_tile (Game.world self) tx ty = Ok o ->
     (forall tl, o = Some tl ->
        truthy (Tile.resource tl) = false /\ Tile.built tl <> Some "campfire") ->
     Game.try_interact self = Ok self).
Proof.
  intros p Htile. injection Htile as Hx Hy. split; [|split].
  - intros tl Hget Hres.
    unfold Game.try_interact. rewrite Hx, Hy, Hget. cbn [mbind result_bind].
    rewrite Hres. unfold World.harvest. rewrite Hget. cbn [mbind result_bind].
    rewrite Hres. cbn [negb mbind result_bind].
    apply get_tile_Some in Hget as [_ Hidx].
    destruct (0 <? Z.min 1 (Tile.resource_amount tl)).
    + rewrite (index_store _ _ _ _ _ Hidx). cbn [mbind result_bind].
      destruct (collect_inventory
                  (World.harvested tl (Z.min 1 (Tile.resource_amount tl)))
                  (Z.min 1 (Tile.resource_amount tl))
                  (Game.set_world
                     (World.store (Game.world self) tx ty
                        (World.harvested tl (Z.min 1 (Tile.resource_amount tl)))) self))
        as [inv ->].
      eauto.
    + exists (World.store (Game.world self) tx ty
                (World.harvested tl (Z.min 1 (Tile.resource_amount tl)))),
             (Player.inventory (Game.player self)).
      f_equal. clear. destruct self as [wd [] cx cy es run pa tod we bm sel]. reflexivity.
  - intros tl Hget Hres Hcamp.
    unfold Game.try_interact. rewrite Hx, Hy, Hget. cbn [mbind result_bind].
    rewrite Hres, Hcamp. cbn [truthy String.eqb Ascii.eqb Bool.eqb negb].
    rewrite decide_True by done.
    split; [reflexivity|]. split; apply Rmin_l.
  - intros o Hget Ho.
    unfold Game.try_interact. rewrite Hx, Hy, Hget. simpl.
    destruct o as [tl|]; [|done]. destruct (Ho tl eq_refl) as [Hres Hnot].
    rewrite Hres. destruct (truthy (Tile.built tl)); [|done].
    by rewrite decide_False.
Qed.

(** By the hearth a tired and hurt player gains 20 stamina and 5 health; on
    the tree of the one-tile grove a player takes wood and nothing else
    changes but the tile. *)
Lemma try_interact_structure_witness :
  Game.try_interact weary_game =
    Ok (Game.set_player
          (Player.set_health (Rmin MAX_HEALTH (Player.health (Game.player weary_game) + 5))
             (Player.set_stamina
                (Rmin MAX_STAMINA (Player.stamina (Game.player weary_game) + 20))
                (Game.player weary_game)))
          weary_game) /\
  (exists wd inv,
     Game.try_interact (Game.fresh stump []) =
       Ok (Game.set_inventory inv (Game.set_world wd (Game.fresh stump [])))).
Proof.
  split.
  - apply (proj1 (proj2 (try_interact_structure weary_game 0 0
                           (player_tile_fresh hearth [])))
             (Tile.mk TILE_GRASS None 0 (Some "campfire"))); reflexivity.
  - apply (proj1 (try_interact_structure (Game.fresh stump []) 0 0
                    (player_tile_fresh stump []))
             last_tree); reflexivity.
Defined.

(** ** Loading *)

Lemma entity_from_dict_at_rest (ds : list json) (es : list Entity.t) :
  traverse Game.entity_from_dict ds = Ok es -> Forall at_rest es.
Proof.
  revert es. induction ds as [|d ds IH]; intros es H; simpl in H.
  - injection H as <-. constructor.
  - inv_bind H. inv_bind H. injection H as <-. constructor; [|by apply IH].
    unfold Game.entity_from_dict in Ha. inv_bind Ha. inv_bind Ha. injection Ha as <-.
    repeat split.
Qed.

Lemma restore_health_at_rest (es : list Entity.t) :
  Forall at_rest es ->
  forall ds es', Game.restore_health es ds = Ok es' -> Forall at_rest es'.
Proof.
  induction 1 as [|e es He _ IH]; intros ds es' H.
  - simpl in H. injection H as <-. constructor.
  - destruct ds as [|d ds]; simpl in H; [injection H as <-; constructor|].
    inv_bind H. inv_bind H. injection H as <-. constructor; [|by eapply IH].
    destruct He as (? & ? & ? & ? & ?). unfold at_rest. simpl. auto.
Qed.

(** What a [load] that returns normally has read from the file. *)
Lemma load_ok (self self' : Game.t) (disk : gmap string file) (filename : string) :
  Game.load self disk filename = (self', None) ->
  exists wd p tod es,
    self' = Game.set_entities es
              (Game.set_time_of_day tod (Game.set_player p (Game.set_world wd self))) /\
    (forall other,
       Game.load other disk filename
       = (Game.set_entities es
            (Game.set_time_of_day tod (Game.set_player p (Game.set_world wd other))),
          None)) /\
    World.shaped wd /\ keyed (Player.inventory p) /\
    Inventory.capacity (Player.inventory p) = 30 /\ Forall at_rest es.
Proof.
  unfold Game.load.
  destruct (read_json disk filename) as [data|]; [|discriminate].
  destruct (Json.getitem data "world" ≫= World.from_dict) as [wd|] eqn:Hw; [|discriminate].
  destruct (Json.getitem data "player" ≫= Player.from_dict) as [p|] eqn:Hp; [|discriminate].
  destruct (Json.get data "time_of_day" (JFloat 0) ≫= Json.as_num) as [tod|]; [|discriminate].
  destruct (Json.get data "entities" (JList []) ≫= Json.iter) as [ds|]; [|discriminate].
  destruct (traverse Game.entity_from_dict ds) as [es0|] eqn:He; [|discriminate].
  destruct (Game.restore_health es0 ds) as [es|] eqn:Hh; [|discriminate].
  intros [= <-]. exists wd, p, tod, es. split; [reflexivity|]. split; [done|].
  split; [|split; [|split]].
  - inv_bind Hw. by eapply from_dict_shaped.
  - inv_bind Hp. unfold Player.from_dict in Hp.
    do 8 inv_bind Hp. injection Hp as <-. simpl.
    inv_bind Ha6. by eapply from_list_keyed.
  - inv_bind Hp. unfold Player.from_dict in Hp.
    do 8 inv_bind Hp. injection Hp as <-. simpl.
    inv_bind Ha6. unfold Inventory.from_list in Ha6.
    do 2 inv_bind Ha6. by injection Ha6 as <-.
  - eapply restore_health_at_rest; [|exact Hh]. by eapply entity_from_dict_at_rest.
Qed.

(** X16.  A [load] that returns normally replaces the world, the player, the
    time of day and the entities by what the file holds, whatever the session
    held before: any other session loading the same file ends with the same
    four.  The loaded grid has its declared shape, the stacks sit under their
    ids with capacity 30, and every entity is idle and at rest.  The camera,
    the pause and build flags, the weather and the selected structure are not
    read from the file and stay those of the loading session. *)
Theorem load_replaces (a a' b : Game.t) (disk : gmap string file) (filename : string) :
  Game.load a disk filename = (a', None) ->
  exists b',
    Game.load b disk filename = (b', None) /\
    Game.world b' = Game.world a' /\ Game.player b' = Game.player a' /\
    Game.time_of_day b' = Game.time_of_day a' /\ Game.entities b' = Game.entities a' /\
    World.shaped (Game.world a') /\ keyed (Player.inventory (Game.player a')) /\
    Inventory.capacity (Player.inventory (Game.player a')) = 30 /\
    Forall at_rest (Game.entities a') /\
    Game.camera_x b' = Game.camera_x b /\ Game.camera_y b' = Game.camera_y b /\
    Game.paused b' = Game.paused b /\ Game.build_mode b' = Game.build_mode b /\
    Game.weather b' = Game.weather b /\
    Game.selected_structure b' = Game.selected_structure b /\
    Game.is_running b' = Game.is_running b.
Proof.
  intros (wd & p & tod & es & -> & Hany & Hs & Hk & Hc & Hr)%load_ok.
  eexists. split; [apply Hany|]. simpl. split_and!; done.
Qed.

Lemma load_replaces_witness :
  exists b',
    Game.load (Game.fresh orchard []) (<[SAVE_FILE := Doc (JObj
        [("world", stump_doc);
         ("player", Player.to_dict (Game.player (Game.fresh hearth [])))])]> ∅) SAVE_FILE
      = (b', None) /\
    Game.world b' = stump /\ Game.entities b' = [] /\ Game.paused b' = false.
Proof.
  assert (Game.load (Game.fresh hearth []) (<[SAVE_FILE := Doc (JObj
        [("world", stump_doc);
         ("player", Player.to_dict (Game.player (Game.fresh hearth [])))])]> ∅) SAVE_FILE
      = (Game.set_entities []
           (Game.set_time_of_day 0%R
              (Game.set_player (Game.player (Game.fresh hearth []))
                 (Game.set_world stump (Game.fresh hearth [])))), None)) as Hload.
  { unfold Game.load, read_json. rewrite lookup_insert_eq.
    cbn [Json.getitem Json.get Json.assoc String.eqb Ascii.eqb Bool.eqb mbind result_bind].
    rewrite stump_from_dict, (player_roundtrip _ (fresh_keyed hearth [])).
    reflexivity. }
  destruct (load_replaces _ _ (Game.fresh orchard []) _ _ Hload)
    as (b' & H1 & H2 & _ & _ & H3 & _ & _ & _ & _ & _ & _ & H4 & _).
  exists b'. split; [exact H1|]. split; [exact H2|]. split; [exact H3|exact H4].
Defined.

(** X17.  The optional parts of a save have defaults: a document with a
    world and a player but no "time_of_day" and no "entities" loads with the
    clock at 0 and no entity, and an entity entry that gives a position
    but no "health" comes back with health 50. *)
Theorem load_defaults (self : Game.t) (disk : gmap string file) (filename : string)
  (wj pj : json) (wd : World.t) (p : Player.t) (x y : R) :
  World.from_dict wj = Ok wd ->
  Player.from_dict pj = Ok p ->
  (disk !! filename = Some (Doc (JObj [("world", wj); ("player", pj)])) ->
   Game.load self disk filename
   = (Game.set_entities []
        (Game.set_time_of_day 0%R (Game.set_player p (Game.set_world wd self))), None)) /\
  (disk !! filename
     = Some (Doc (JObj [("world", wj); ("player", pj);
                        ("entities", JList [JObj [("x", JFloat x); ("y", JFloat y)]])])) ->
   Game.load self disk filename
   = (Game.set_entities [Entity.mk x y 0 0 50 40 Entity.idle 10]
        (Game.set_time_of_day 0%R (Game.set_player p (Game.set_world wd self))), None)).
Proof.
  intros Hw Hp. split; intros Hfile; unfold Game.load, read_json; rewrite Hfile;
    cbn [Json.getitem Json.get Json.assoc String.eqb Ascii.eqb Bool.eqb mbind result_bind];
    rewrite Hw, Hp; reflexivity.
Qed.

Lemma load_defaults_witness :
  Game.load (Game.fresh orchard [])
    {[ SAVE_FILE := Doc (JObj
        [("world", stump_doc);
         ("player", Player.to_dict (Game.player (Game.fresh hearth [])))]) ]} SAVE_FILE
  = (Game.set_entities []
       (Game.set_time_of_day 0%R
          (Game.set_player (restored (Game.player (Game.fresh hearth [])))
             (Game.set_world stump (Game.fresh orchard [])))), None).
Proof.
  apply (proj1 (load_defaults (Game.fresh orchard []) _ SAVE_FILE stump_doc
                  (Player.to_dict (Game.player (Game.fresh hearth []))) stump
                  (restored (Game.player (Game.fresh hearth []))) 0%R 0%R
                  stump_from_dict (player_roundtrip _ (fresh_keyed hearth [])))).
  apply lookup_singleton_eq.
Defined.

(** ** Entities *)

Local Open Scope R_scope.

Lemma hypot_nonneg (x y : R) : 0 <= hypot x y.
Proof. apply sqrt_pos. Qed.

Lemma hypot_0 : hypot 0 0 = 0.
Proof. unfold hypot. replace (0 * 0 + 0 * 0) with 0 by lra. apply sqrt_0. Qed.

Lemma hypot_eq_0 (x y : R) : hypot x y = 0 -> x = 0 /\ y = 0.
Proof.
  unfold hypot. intros H. apply sqrt_eq_0 in H; [|nra].
  split; nra.
Qed.

(** The square of a side and the hypotenuse, for evaluating [hypot] on
    Pythagorean triples. *)
Lemma hypot_triple (x y z : R) : 0 <= z -> x * x + y * y = z * z -> hypot x y = z.
Proof. intros Hz H. unfold hypot. rewrite H. by apply sqrt_square. Qed.

Lemma wander_pos (e : Entity.t) (g : rng) :
  Entity.x (Entity.wander e g).1 = Entity.x e /\
  Entity.y (Entity.wander e g).1 = Entity.y e /\
  Entity.health (Entity.wander e g).1 = Entity.health e /\
  Entity.speed (Entity.wander e g).1 = Entity.speed e.
Proof.
  unfold Entity.wander. destruct (Entity.state e); simpl; try done.
  - destruct (Rlt_dec _ _); simpl; done.
  - destruct (Rlt_dec _ _); simpl; done.
Qed.

Lemma pursue_at_player (e : Entity.t) (p : Player.t) :
  Entity.x e = Player.x p -> Entity.y e = Player.y p ->
  Entity.pursue e p = Raise ZeroDivisionError.
Proof.
  intros Hx Hy. unfold Entity.pursue. rewrite Hx, Hy.
  replace (Player.x p - Player.x p) with 0 by lra.
  replace (Player.y p - Player.y p) with 0 by lra.
  rewrite hypot_0. destruct (Rlt_dec 0 150); [|lra].
  unfold div. destruct (Req_dec_T 0 0); [done | lra].
Qed.

(** The pursuit rule at a positive distance. *)
Lemma pursue_near (e : Entity.t) (p : Player.t) :
  let dx := Player.x p - Entity.x e in
  let dy := Player.y p - Entity.y e in
  let dist := hypot dx dy in
  0 < dist -> dist < 150 ->
  Entity.pursue e p =
    Ok (Entity.set_vel (dx / dist * (Entity.speed e * 1.2))
                       (dy / dist * (Entity.speed e * 1.2))
                       (Entity.set_state Entity.attack e)).
Proof.
  intros dx dy dist Hpos Hnear. unfold Entity.pursue. fold dx dy dist.
  destruct (Rlt_dec dist 150); [|lra].
  unfold div. destruct (Req_dec_T dist 0); [lra|]. reflexivity.
Qed.

Lemma pursue_far (e : Entity.t) (p : Player.t) :
  150 <= hypot (Player.x p - Entity.x e) (Player.y p - Entity.y e) ->
  Entity.pursue e p = Ok e.
Proof. intros H. unfold Entity.pursue. destruct (Rlt_dec _ 150); [lra | done]. Qed.

Lemma update_at_player (e : Entity.t) (dt : R) (wd : World.t) (p : Player.t) (g : rng) :
  Entity.x e = Player.x p -> Entity.y e = Player.y p ->
  Entity.update e dt wd p g = Raise ZeroDivisionError.
Proof.
  intros Hx Hy. unfold Entity.update, Entity.decide_state.
  destruct (wander_pos e g) as (Hwx & Hwy & _).
  destruct (Entity.wander e g) as [e1 g1]. simpl in *.
  rewrite pursue_at_player by congruence. reflexivity.
Qed.

Lemma update_apart (e : Entity.t) (dt : R) (wd : World.t) (p : Player.t) (g : rng) :
  0 < hypot (Player.x p - Entity.x e) (Player.y p - Entity.y e) ->
  exists e' g', Entity.update e dt wd p g = Ok (e', g').
Proof.
  intros Hpos. unfold Entity.update, Entity.decide_state.
  destruct (wander_pos e g) as (Hwx & Hwy & _).
  destruct (Entity.wander e g) as [e1 g1]. simpl in *.
  rewrite <- Hwx, <- Hwy in Hpos.
  destruct (Rlt_dec (hypot (Player.x p - Entity.x e1) (Player.y p - Entity.y e1)) 150)
    as [Hnear|Hfar].
  - rewrite (pursue_near e1 p Hpos Hnear). simpl.
    destruct (Entity.panic _ p g1) as [e2 g2]. eauto.
  - rewrite pursue_far by lra. simpl.
    destruct (Entity.panic _ p g1) as [e2 g2]. eauto.
Qed.

(** C9. An entity standing exactly on the player makes [update] raise
    [ZeroDivisionError]: the distance is 0, the proximity branch is taken and
    divides by it.  At every positive distance, below 150 or not, [update]
    returns a successor. *)
Theorem update_total_iff_apart
  (e : Entity.t) (dt : R) (wd : World.t) (p : Player.t) (g : rng) :
  let dist := hypot (Player.x p - Entity.x e) (Player.y p - Entity.y e) in
  (Entity.x e = Player.x p -> Entity.y e = Player.y p ->
     dist = 0 /\ Entity.update e dt wd p g = Raise ZeroDivisionError) /\
  (0 < dist -> dist < 150 -> exists e' g', Entity.update e dt wd p g = Ok (e', g')).
Proof.
  intros dist. split.
  - intros Hx Hy. split; [|by apply update_at_player].
    subst dist. rewrite Hx, Hy.
    replace (Player.x p - Player.x p) with 0 by lra.
    replace (Player.y p - Player.y p) with 0 by lra. apply hypot_0.
  - intros Hpos _. by apply update_apart.
Qed.

(** An entity on the player's spot raises; one at distance 5 is updated. *)
Lemma update_total_iff_apart_witness :
  (hypot (0 - 0) (0 - 0) = 0 /\
   Entity.update (Entity.new 0 0) (1 / 64) orchard (Player.new 0 0) calm
     = Raise ZeroDivisionError) /\
  (exists e' g',
     Entity.update (Entity.new 3 4) (1 / 64) orchard (Player.new 0 0) calm = Ok (e', g')).
Proof.
  split.
  - apply (proj1 (update_total_iff_apart (Entity.new 0 0) (1 / 64) orchard
                    (Player.new 0 0) calm)); reflexivity.
  - apply (proj2 (update_total_iff_apart (Entity.new 3 4) (1 / 64) orchard
                    (Player.new 0 0) calm)); simpl;
      rewrite (hypot_triple (0 - 3) (0 - 4) 5); lra.
Defined.

(** The attack rule away from the player's own spot: within 150 units, and
    unless the flee rule fires on the draw that follows the roaming rules, the
    entity ends the tick's evaluation attacking, its velocity the unit vector
    towards the player times 1.2 times its speed. *)
Lemma update_attacks_near (e : Entity.t) (dt : R) (wd : World.t) (p : Player.t) (g : rng) :
  let dx := Player.x p - Entity.x e in
  let dy := Player.y p - Entity.y e in
  let dist := hypot dx dy in
  0 < dist -> dist < 150 ->
  ~ (Entity.health e < 20 /\ (random (Entity.wander e g).2).1 < 0.3) ->
  exists e' g',
    Entity.update e dt wd p g = Ok (e', g') /\
    Entity.state e' = Entity.attack /\
    Entity.vx e' = dx / dist * (Entity.speed e * 1.2) /\
    Entity.vy e' = dy / dist * (Entity.speed e * 1.2).
Proof.
  intros dx dy dist Hpos Hnear Hcalm. subst dx dy dist.
  unfold Entity.update, Entity.decide_state.
  destruct (wander_pos e g) as (Hwx & Hwy & Hwh & Hws).
  destruct (Entity.wander e g) as [e1 g1]. simpl in *.
  rewrite <- Hwx, <- Hwy, <- Hws in *. rewrite <- Hwh in Hcalm.
  rewrite (pursue_near e1 p Hpos Hnear). simpl.
  unfold Entity.panic. simpl.
  destruct (Rlt_dec (Entity.health e1) 20) as [Hlow|Hok].
  - destruct (Rlt_dec (draws g1 (cursor g1)) 0.3) as [Hroll|Hno]; [tauto|].
    eexists _, _. split; [reflexivity|]. simpl. auto.
  - eexists _, _. split; [reflexivity|]. simpl. auto.
Qed.

(** C7, at the failing input.  An entity spawned on the player's own spawn
    point, the centre (1280, 960) of the default world, is at distance 0 < 150,
    and its update raises instead of leaving it in the attack state. *)
Theorem update_raises_on_spawn_point (dt : R) (wd : World.t) (g : rng) :
  let e := Entity.new 1280 960 in
  let p := Player.new 1280 960 in
  hypot (Player.x p - Entity.x e) (Player.y p - Entity.y e) < 150 /\
  Entity.update e dt wd p g = Raise ZeroDivisionError.
Proof.
  intros e p. split.
  - simpl. replace (1280 - 1280) with 0 by lra. replace (960 - 960) with 0 by lra.
    rewrite hypot_0. lra.
  - by apply update_at_player.
Qed.

(** ** The player's tick *)

Lemma hypot_pos (x y : R) : x <> 0 \/ y <> 0 -> 0 < hypot x y.
Proof. intros H. unfold hypot. apply sqrt_lt_R0. destruct H; nra. Qed.

Lemma moving_iff (keys : Keys) :
  moving keys <-> K_w keys <> K_s keys \/ K_a keys <> K_d keys.
Proof.
  unfold moving, Game.intent.
  destruct keys as [sh [] [] [] []]; simpl; split; intros H;
    try (apply hypot_pos; lra);
    try (destruct H as [H|H]; congruence);
    try (left; congruence); try (right; congruence);
    exfalso;
    match type of H with
    | 0 < hypot ?a ?b =>
        replace a with 0 in H by lra; replace b with 0 in H by lra;
        rewrite hypot_0 in H; lra
    end.
Qed.

Lemma sprinting_iff (keys : Keys) (p : Player.t) :
  Game.sprinting keys p = true <-> K_LSHIFT keys = true /\ 1 < Player.stamina p.
Proof.
  unfold Game.sprinting. destruct (K_LSHIFT keys), (Rlt_dec 1 (Player.stamina p));
    simpl; split; intros; try done; try tauto; destruct H; done.
Qed.

(** [update_player] touches only the position and the stamina. *)
Lemma update_player_rest (self : Game.t) (dt : R) (keys : Keys) :
  let p := Game.player self in
  let p' := Game.player (Game.update_player self dt keys) in
  Player.health p' = Player.health p /\ Player.hunger p' = Player.hunger p /\
  Player.thirst p' = Player.thirst p /\ Player.inventory p' = Player.inventory p /\
  Game.world (Game.update_player self dt keys) = Game.world self /\
  Game.entities (Game.update_player self dt keys) = Game.entities self.
Proof.
  unfold Game.update_player.
  destruct (Game.sprinting keys (Game.player self)), (Game.intent keys) as [vx vy];
    destruct (Rlt_dec 0 (hypot vx vy)); simpl; auto 10.
Qed.

Lemma update_player_stamina_eq (self : Game.t) (dt : R) (keys : Keys) :
  let p := Game.player self in
  let s := if Game.sprinting keys p
           then Player.stamina p - dt * 10 else Player.stamina p in
  Player.stamina (Game.player (Game.update_player self dt keys)) =
    if Rlt_dec 0 (hypot (Game.intent keys).1 (Game.intent keys).2)
    then Rmax 0 (s - dt * 7) else s.
Proof.
  unfold Game.update_player.
  destruct (Game.sprinting keys (Game.player self)), (Game.intent keys) as [vx vy];
    simpl; destruct (Rlt_dec 0 (hypot vx vy)); reflexivity.
Qed.

Lemma update_player_pos (self : Game.t) (dt : R) (keys : Keys) :
  let p := Game.player self in
  let '(vx, vy) := Game.intent keys in
  let norm := hypot vx vy in
  let speed := if Game.sprinting keys p then 160 * 1.8 else 160 in
  let p' := Game.player (Game.update_player self dt keys) in
  0 < norm ->
  Player.x p' = clamp (Player.x p + vx / norm * speed * dt) 0
                      (IZR (World.w (Game.world self) * TILE_SIZE - 1)) /\
  Player.y p' = clamp (Player.y p + vy / norm * speed * dt) 0
                      (IZR (World.h (Game.world self) * TILE_SIZE - 1)).
Proof.
  unfold Game.update_player.
  destruct (Game.sprinting keys (Game.player self)), (Game.intent keys) as [vx vy];
    simpl; intros Hn; destruct (Rlt_dec 0 (hypot vx vy)); try lra; simpl; auto.
Qed.

(** C6 (as amended).  The sprint is active when shift is held with stamina
    above 1.  A moving player without active sprint ends the call at
    [max(0, stamina - 7 dt)]; with active sprint the sprint charge of [10 dt]
    comes first and the movement charge on top, [max(0, stamina - 10 dt - 7 dt)],
    and the speed is 160 times 1.8 instead of 160.  A standing player pays the
    sprint charge [10 dt] when the sprint is active and nothing otherwise. *)
Theorem update_player_stamina (self : Game.t) (dt : R) (keys : Keys) :
  let p := Game.player self in
  let p' := Game.player (Game.update_player self dt keys) in
  let s := Player.stamina p in
  (Game.sprinting keys p = true <-> K_LSHIFT keys = true /\ 1 < s) /\
  (moving keys -> Game.sprinting keys p = false ->
     Player.stamina p' = Rmax 0 (s - dt * 7)) /\
  (moving keys -> Game.sprinting keys p = true ->
     Player.stamina p' = Rmax 0 (s - dt * 10 - dt * 7)) /\
  (~ moving keys -> Game.sprinting keys p = true ->
     Player.stamina p' = s - dt * 10) /\
  (~ moving keys -> Game.sprinting keys p = false ->
     Player.stamina p' = s) /\
  (moving keys ->
     let '(vx, vy) := Game.intent keys in
     let norm := hypot vx vy in
     let speed := if Game.sprinting keys p then 160 * 1.8 else 160 in
     Player.x p' = clamp (Player.x p + vx / norm * speed * dt) 0
                         (IZR (World.w (Game.world self) * TILE_SIZE - 1)) /\
     Player.y p' = clamp (Player.y p + vy / norm * speed * dt) 0
                         (IZR (World.h (Game.world self) * TILE_SIZE - 1))).
Proof.
  intros p p' s. subst p p' s.
  pose proof (update_player_stamina_eq self dt keys) as Hs. cbv zeta in Hs.
  pose proof (update_player_pos self dt keys) as Hp.
  unfold moving.
  split; [apply sprinting_iff|].
  destruct (Game.intent keys) as [vx vy]. cbn [fst snd] in *.
  repeat split.
  - intros Hm Hsp. rewrite Hs, Hsp. by destruct (Rlt_dec 0 (hypot vx vy)).
  - intros Hm Hsp. rewrite Hs, Hsp. by destruct (Rlt_dec 0 (hypot vx vy)).
  - intros Hm Hsp. rewrite Hs, Hsp. by destruct (Rlt_dec 0 (hypot vx vy)).
  - intros Hm Hsp. rewrite Hs, Hsp. by destruct (Rlt_dec 0 (hypot vx vy)).
  - by apply Hp.
  - by apply Hp.
Qed.

Lemma Rmax_0_pos (r : R) : 0 <= r -> Rmax 0 r = r.
Proof. intros H. by apply Rmax_right. Qed.

Lemma fresh_stamina (wd : World.t) (es : list Entity.t) :
  Player.stamina (Game.player (Game.fresh wd es)) = 100.
Proof. reflexivity. Qed.

Lemma fresh_sprinting (wd : World.t) (es : list Entity.t) (keys : Keys) :
  Game.sprinting keys (Game.player (Game.fresh wd es)) = K_LSHIFT keys.
Proof.
  unfold Game.sprinting. rewrite fresh_stamina.
  destruct (Rlt_dec 1 100); [|lra]. by destruct (K_LSHIFT keys).
Qed.

(** A quarter of a second from full stamina: walking costs 1.75, a moving
    sprint 4.25, a standing sprint 2.5, standing nothing. *)
Lemma update_player_stamina_witness :
  let self := Game.fresh grove [] in
  Player.stamina (Game.player (Game.update_player self (1 / 4) walk_up))
    = Rmax 0 (100 - 1 / 4 * 7) /\
  Player.stamina (Game.player (Game.update_player self (1 / 4) sprint_up))
    = Rmax 0 (100 - 1 / 4 * 10 - 1 / 4 * 7) /\
  Player.stamina (Game.player (Game.update_player self (1 / 4) sprint_still))
    = 100 - 1 / 4 * 10 /\
  Player.stamina (Game.player (Game.update_player self (1 / 4) no_keys)) = 100.
Proof.
  repeat apply conj.
  - apply (proj1 (proj2 (update_player_stamina (Game.fresh grove []) (1 / 4) walk_up))).
    + apply moving_iff. left. discriminate.
    + apply fresh_sprinting.
  - apply (proj1 (proj2 (proj2
             (update_player_stamina (Game.fresh grove []) (1 / 4) sprint_up)))).
    + apply moving_iff. left. discriminate.
    + apply fresh_sprinting.
  - apply (proj1 (proj2 (proj2 (proj2
             (update_player_stamina (Game.fresh grove []) (1 / 4) sprint_still))))).
    + rewrite moving_iff. intros [H|H]; by apply H.
    + apply fresh_sprinting.
  - apply (proj1 (proj2 (proj2 (proj2 (proj2
             (update_player_stamina (Game.fresh grove []) (1 / 4) no_keys)))))).
    + rewrite moving_iff. intros [H|H]; by apply H.
    + apply fresh_sprinting.
Defined.

(** C6, counterexample.  From full stamina, a quarter of a second of
    sprinting while moving costs 4.25 and not the 2.5 of a rate of 10 per
    second; and the same quarter of a second with shift held and no movement
    costs 2.5 although the player does not move. *)
Lemma sprint_charge_is_additive :
  let self := Game.fresh grove [] in
  (moving sprint_up /\ Game.sprinting sprint_up (Game.player self) = true /\
   Player.stamina (Game.player (Game.update_player self (1 / 4) sprint_up)) = 95.75 /\
   95.75 <> 100 - 10 * (1 / 4)) /\
  (~ moving sprint_still /\
   Player.stamina (Game.player (Game.update_player self (1 / 4) sprint_still)) = 97.5 /\
   97.5 <> 100).
Proof.
  intros self. subst self. split.
  - split; [apply moving_iff; left; discriminate|].
    split; [apply fresh_sprinting|]. split; [|lra].
    rewrite update_player_stamina_eq, fresh_sprinting, fresh_stamina. simpl.
    destruct (Rlt_dec 0 _) as [_|Hn].
    + rewrite Rmax_0_pos; lra.
    + exfalso. apply Hn. apply hypot_pos. right. lra.
  - split; [rewrite moving_iff; intros [H|H]; by apply H|]. split; [|lra].
    rewrite update_player_stamina_eq, fresh_sprinting, fresh_stamina. simpl.
    destruct (Rlt_dec 0 _) as [Hm|_]; [|lra].
    exfalso. rewrite hypot_0 in Hm. lra.
Qed.

(** ** The simulation tick *)

Lemma contact_player (e : Entity.t) (dt : R) (self : Game.t) :
  let p := Game.player self in
  let p' := Game.player (Game.contact e dt self) in
  Player.hunger p' = Player.hunger p /\ Player.thirst p' = Player.thirst p /\
  Player.stamina p' = Player.stamina p /\
  (0 <= dt -> Player.health p' <= Player.health p).
Proof.
  unfold Game.contact. destruct (Rlt_dec _ 20); simpl.
  - destruct (Rle_dec _ 0); simpl; repeat split; try done; intros; lra.
  - repeat split; try done; intros; lra.
Qed.

Lemma update_entities_player (es : list Entity.t) (dt : R) :
  forall (self : Game.t) (g : rng) (es' : list Entity.t) (self' : Game.t) (g' : rng),
    Game.update_entities es dt self g = Ok (es', self', g') ->
    let p := Game.player self in
    let p' := Game.player self' in
    Player.hunger p' = Player.hunger p /\ Player.thirst p' = Player.thirst p /\
    Player.stamina p' = Player.stamina p /\
    (0 <= dt -> Player.health p' <= Player.health p).
Proof.
  induction es as [|e es IH]; intros self g es' self' g' H; simpl in H.
  - injection H as <- <- <-. repeat split; try done; intros; lra.
  - inv_bind H. destruct a as [e1 g1]. simpl in H.
    inv_bind H. destruct a as [[es1 self1] g2]. simpl in H.
    injection H as <- <- <-.
    destruct (IH _ _ _ _ _ Ha0) as (Hh & Ht & Hs & Hhp).
    destruct (contact_player e1 dt self) as (Hh' & Ht' & Hs' & Hhp').
    cbv zeta in *. repeat split; try congruence.
    intros Hdt. specialize (Hhp Hdt). specialize (Hhp' Hdt). lra.
Qed.


Lemma roll_weather_player (self : Game.t) (g : rng) :
  Game.player (Game.roll_weather self g).1 = Game.player self /\
  Game.entities (Game.roll_weather self g).1 = Game.entities self /\
  Game.world (Game.roll_weather self g).1 = Game.world self.
Proof. unfold Game.roll_weather. simpl. destruct (Rlt_dec _ _); simpl; done. Qed.









(** ** Runs in which nothing stirs *)

Lemma hypot_opp (a b c d : R) : hypot (a - b) (c - d) = hypot (b - a) (d - c).
Proof. unfold hypot. f_equal. ring. Qed.

Lemma entity_update_quiet (e : Entity.t) (dt : R) (wd : World.t) (p : Player.t) (n : nat) :
  quiet (Player.x p) (Player.y p) e ->
  Entity.update e dt wd p (calm_at n) = Ok (e, calm_at (S n)).
Proof.
  intros (Hst & Hvx & Hvy & Hhp & Hfar).
  unfold Entity.update, Entity.decide_state, Entity.wander. rewrite Hst.
  unfold random, calm_at. simpl.
  destruct (Rlt_dec (1 / 2) 0.01); [lra|].
  rewrite pursue_far by done. simpl.
  unfold Entity.panic. destruct (Rlt_dec (Entity.health e) 20); [lra|].
  unfold Entity.integrate, Entity.set_pos. rewrite Hvx, Hvy.
  do 2 f_equal. destruct e as [ex ey evx evy eh es est er]. simpl in *.
  f_equal; lra.
Qed.

Lemma contact_quiet (e : Entity.t) (dt : R) (self : Game.t) :
  quiet (Player.x (Game.player self)) (Player.y (Game.player self)) e ->
  Game.contact e dt self = self.
Proof.
  intros (_ & _ & _ & _ & Hfar). unfold Game.contact.
  rewrite hypot_opp. destruct (Rlt_dec _ 20); [lra | done].
Qed.

Lemma update_entities_quiet (es : list Entity.t) (dt : R) (self : Game.t) :
  Forall (quiet (Player.x (Game.player self)) (Player.y (Game.player self))) es ->
  forall n, Game.update_entities es dt self (calm_at n)
            = Ok (es, self, calm_at (n + length es)).
Proof.
  induction 1 as [|e es He _ IH]; intros n; simpl.
  - by rewrite Nat.add_0_r.
  - rewrite (entity_update_quiet e dt _ _ n He). simpl.
    rewrite (contact_quiet e dt self He), IH. simpl.
    by rewrite Nat.add_succ_r.
Qed.

Lemma clamp_inside (v hi : R) : 0 <= v <= hi -> clamp v 0 hi = v.
Proof.
  intros [Hlo Hhi]. unfold clamp, Rmax, Rmin.
  repeat destruct (Rle_dec _ _); lra.
Qed.

Lemma update_player_standing (self : Game.t) (dt : R) (shift : bool) :
  still self ->
  Game.update_player self dt (standing shift) =
    Game.set_player
      (if Game.sprinting (standing shift) (Game.player self)
       then Player.set_stamina (Player.stamina (Game.player self) - dt * 10)
                               (Game.player self)
       else Game.player self) self.
Proof.
  intros (_ & Hx & Hy). unfold Game.update_player, Game.intent. simpl.
  rewrite hypot_0.
  destruct (Game.sprinting (standing shift) (Game.player self));
    destruct (Rlt_dec 0 0); try lra; simpl;
    rewrite !clamp_inside by done; f_equal; by destruct (Game.player self).
Qed.

(** A tick of a still game with no movement key down completes and leaves
    the game still. *)
Lemma update_still (self : Game.t) (dt : R) (shift : bool) (n : nat) :
  still self ->
  exists self',
    Game.update self dt (standing shift) (calm_at n)
      = Ok (self', calm_at (S n + length (Game.entities self))) /\
    still self' /\ length (Game.entities self') = length (Game.entities self).
Proof.
  intros Hstill. pose proof Hstill as (Hq & Hx & Hy).
  unfold Game.update, Game.roll_weather, random, calm_at. simpl.
  destruct (Rlt_dec (1 / 2) 0.001); [lra|].
  set (self0 := Game.set_time_of_day _ self).
  assert (still self0) as Hstill0 by done.
  rewrite (update_player_standing self0 dt shift Hstill0).
  set (p1 := if Game.sprinting _ _ then _ else _).
  assert (Player.x p1 = Player.x (Game.player self) /\
          Player.y p1 = Player.y (Game.player self)) as [Hp1x Hp1y].
  { subst p1. by destruct (Game.sprinting _ _). }
  fold (calm_at (S n)).
  rewrite (update_entities_quiet (Game.entities self) dt (Game.set_player p1 self0));
    [|simpl; by rewrite Hp1x, Hp1y].
  simpl. eexists. split; [reflexivity|]. split; [|done].
  unfold still. simpl.
  assert (Player.x (Game.vitals p1 dt) = Player.x p1 /\
          Player.y (Game.vitals p1 dt) = Player.y p1) as [-> ->].
  { unfold Game.vitals. simpl.
    destruct (Rlt_dec 80 _), (Rlt_dec 90 _); simpl;
      destruct (Rlt_dec _ MAX_STAMINA); simpl; done. }
  by rewrite Hp1x, Hp1y.
Qed.

Lemma run_still (shift : bool) (dt : R) (ticks : nat) :
  forall (self : Game.t) (n : nat),
    still self ->
    exists self' g',
      Game.run_ticks (replicate ticks (dt, standing shift)) self (calm_at n)
        = Ok (self', g').
Proof.
  induction ticks as [|ticks IH]; intros self n Hstill; simpl.
  - eauto.
  - destruct (update_still self dt shift n Hstill) as (self1 & -> & Hstill1 & _).
    simpl. apply IH, Hstill1.
Qed.




Lemma fresh_player_pos (wd : World.t) (es : list Entity.t) :
  Player.x (Game.player (Game.fresh wd es)) = IZR ((World.w wd * TILE_SIZE) `div` 2) /\
  Player.y (Game.player (Game.fresh wd es)) = IZR ((World.h wd * TILE_SIZE) `div` 2).
Proof. split; reflexivity. Qed.

Lemma spawn_player_pos :
  Player.x (Game.player spawn) = 1280 /\ Player.y (Game.player spawn) = 960.
Proof. unfold spawn. destruct (fresh_player_pos meadow herd) as [-> ->]. done. Qed.

Lemma spawn_still : still spawn.
Proof.
  destruct spawn_player_pos as [Hx Hy].
  unfold still. rewrite Hx, Hy.
  replace (Game.world spawn) with meadow by reflexivity.
  replace (Game.entities spawn) with herd by reflexivity.
  change (World.w meadow * TILE_SIZE - 1)%Z with 2559%Z.
  change (World.h meadow * TILE_SIZE - 1)%Z with 1919%Z.
  split; [|split; lra].
  unfold herd, quiet, Entity.new.
  repeat apply Forall_cons_2; [..|apply Forall_nil_2]; cbn [Entity.state Entity.vx Entity.vy
    Entity.health Entity.x Entity.y]; (split; [reflexivity|]); (split; [reflexivity|]);
    (split; [reflexivity|]); (split; [lra|]).
  - rewrite (hypot_triple _ _ 1600); lra.
  - rewrite (hypot_triple _ _ 1600); lra.
  - rewrite (hypot_triple _ _ 960); lra.
Qed.





(** * Further properties of the simulation *)

(** ** Floors, clamps and lengths *)

Lemma Int_part_bounds (r : R) : IZR (Int_part r) <= r < IZR (Int_part r) + 1.
Proof. destruct (base_Int_part r). lra. Qed.

Lemma Int_part_eq (r : R) (z : Z) : IZR z <= r < IZR z + 1 -> Int_part r = z.
Proof. intros [H1 H2]. symmetry. apply Int_part_spec. lra. Qed.

Lemma Int_part_le (r : R) (z : Z) : IZR z <= r -> (z <= Int_part r)%Z.
Proof.
  intros H. destruct (Int_part_bounds r) as [_ Hhi].
  assert (IZR z < IZR (Int_part r + 1)) as Hlt by (rewrite plus_IZR; lra).
  apply lt_IZR in Hlt. lia.
Qed.

Lemma Int_part_lt (r : R) (z : Z) : r < IZR z -> (Int_part r < z)%Z.
Proof.
  intros H. destruct (Int_part_bounds r) as [Hlo _].
  apply lt_IZR. lra.
Qed.

Lemma clamp_range (v lo hi : R) : lo <= hi -> lo <= clamp v lo hi <= hi.
Proof.
  intros H. unfold clamp, Rmax, Rmin.
  repeat destruct (Rle_dec _ _); lra.
Qed.

Lemma tile_coord_range (v : R) (n : Z) :
  0 <= v <= IZR (n * TILE_SIZE - 1) -> (0 <= tile_coord v < n)%Z.
Proof.
  unfold tile_coord, TILE_SIZE. rewrite minus_IZR, mult_IZR. intros [Hlo Hhi].
  split.
  - apply Int_part_le. apply Rmult_le_reg_r with 32; [lra|]. field_simplify. lra.
  - apply Int_part_lt. apply Rmult_lt_reg_r with 32; [lra|]. field_simplify. lra.
Qed.

(** ** The player's movement *)

Lemma update_player_clamped (self : Game.t) (dt : R) (keys : Keys) :
  exists vx vy,
    Player.x (Game.player (Game.update_player self dt keys))
      = clamp vx 0 (IZR (World.w (Game.world self) * TILE_SIZE - 1)) /\
    Player.y (Game.player (Game.update_player self dt keys))
      = clamp vy 0 (IZR (World.h (Game.world self) * TILE_SIZE - 1)).
Proof.
  unfold Game.update_player.
  destruct (Game.sprinting keys (Game.player self)), (Game.intent keys) as [vx vy];
    destruct (Rlt_dec 0 (hypot vx vy)); simpl; eauto.
Qed.

(** X18.  Wherever the player was and whatever the keys and the elapsed time
    (negative or huge), [update_player] leaves the player inside a world of at
    least one tile in each direction, [0 <= x <= w * TILE_SIZE - 1] and
    likewise for [y], so that the tile under the player, the one
    [try_interact] and [craft] address, exists. *)
Theorem update_player_in_world (self : Game.t) (dt : R) (keys : Keys) :
  (1 <= World.w (Game.world self))%Z ->
  (1 <= World.h (Game.world self))%Z ->
  let self' := Game.update_player self dt keys in
  let p' := Game.player self' in
  0 <= Player.x p' <= IZR (World.w (Game.world self) * TILE_SIZE - 1) /\
  0 <= Player.y p' <= IZR (World.h (Game.world self) * TILE_SIZE - 1) /\
  Game.world self' = Game.world self /\
  World.in_bounds (Game.world self') (player_tile self').1 (player_tile self').2 = true.
Proof.
  intros Hw Hh self' p'.
  destruct (update_player_clamped self dt keys) as (vx & vy & Hx & Hy).
  destruct (update_player_rest self dt keys) as (_ & _ & _ & _ & Hwd & _).
  fold self' in Hx, Hy, Hwd. fold p' in Hx, Hy.
  assert (0 <= IZR (World.w (Game.world self) * TILE_SIZE - 1)) as Hbw.
  { apply IZR_le. unfold TILE_SIZE. lia. }
  assert (0 <= IZR (World.h (Game.world self) * TILE_SIZE - 1)) as Hbh.
  { apply IZR_le. unfold TILE_SIZE. lia. }
  assert (0 <= Player.x p' <= IZR (World.w (Game.world self) * TILE_SIZE - 1)) as Rx
    by (rewrite Hx; by apply clamp_range).
  assert (0 <= Player.y p' <= IZR (World.h (Game.world self) * TILE_SIZE - 1)) as Ry
    by (rewrite Hy; by apply clamp_range).
  split; [exact Rx|]. split; [exact Ry|]. split; [exact Hwd|].
  unfold player_tile. cbn [fst snd]. fold p'. rewrite Hwd.
  apply tile_coord_range in Rx, Ry.
  unfold World.in_bounds.
  repeat (apply andb_true_intro; split);
    first [apply Z.leb_le | apply Z.ltb_lt]; lia.
Qed.

(** A sprint to the upper left from the spawn point of the default world,
    over a frame of 64 seconds, ends in the corner tile. *)
Lemma update_player_in_world_witness :
  0 <= Player.x (Game.player (Game.update_player spawn 64 sprint_corner))
    <= IZR (World.w (Game.world spawn) * TILE_SIZE - 1) /\
  0 <= Player.y (Game.player (Game.update_player spawn 64 sprint_corner))
    <= IZR (World.h (Game.world spawn) * TILE_SIZE - 1) /\
  Game.world (Game.update_player spawn 64 sprint_corner) = Game.world spawn /\
  World.in_bounds (Game.world (Game.update_player spawn 64 sprint_corner))
    (player_tile (Game.update_player spawn 64 sprint_corner)).1
    (player_tile (Game.update_player spawn 64 sprint_corner)).2 = true.
Proof.
  apply (update_player_in_world spawn 64 sprint_corner);
    change (World.w (Game.world spawn)) with 80%Z;
    change (World.h (Game.world spawn)) with 60%Z; lia.
Defined.

(** ** One tick of the simulation *)

Lemma fmod_range (a b : R) : 0 < b -> 0 <= fmod a b < b.
Proof.
  intros Hb. unfold fmod.
  destruct (Int_part_bounds (a / b)) as [Hlo Hhi].
  assert (a = a / b * b) as Ha by (field; lra).
  set (q := a / b) in *. set (k := IZR (Int_part q)) in *.
  rewrite Ha. split; nra.
Qed.

Lemma carried_refl (a : Game.t) : carried a a.
Proof. unfold carried. tauto. Qed.

Lemma carried_trans (a b c : Game.t) : carried a b -> carried b c -> carried a c.
Proof.
  unfold carried. intros (A1 & A2 & A3 & A4 & A5 & A6 & A7) (B1 & B2 & B3 & B4 & B5 & B6 & B7).
  repeat split; try congruence. auto.
Qed.

Lemma contact_carried (e : Entity.t) (dt : R) (self : Game.t) :
  carried self (Game.contact e dt self) /\
  Game.time_of_day (Game.contact e dt self) = Game.time_of_day self /\
  Player.x (Game.player (Game.contact e dt self)) = Player.x (Game.player self) /\
  Player.y (Game.player (Game.contact e dt self)) = Player.y (Game.player self).
Proof.
  unfold Game.contact, carried. destruct (Rlt_dec _ 20); simpl.
  - destruct (Rle_dec _ 0); simpl; tauto.
  - tauto.
Qed.

Lemma update_entities_carried (es : list Entity.t) (dt : R) :
  forall (self : Game.t) (g : rng) (es' : list Entity.t) (self' : Game.t) (g' : rng),
    Game.update_entities es dt self g = Ok (es', self', g') ->
    carried self self' /\ length es' = length es /\
    Game.time_of_day self' = Game.time_of_day self /\
    Player.x (Game.player self') = Player.x (Game.player self) /\
    Player.y (Game.player self') = Player.y (Game.player self).
Proof.
  induction es as [|e es IH]; intros self g es' self' g' H; simpl in H.
  - injection H as <- <- <-. split; [apply carried_refl | done].
  - inv_bind H. destruct a as [e1 g1]. simpl in H.
    inv_bind H. destruct a as [[es1 self1] g2]. simpl in H.
    injection H as <- <- <-.
    destruct (IH _ _ _ _ _ Ha0) as (Hc & Hl & Ht & Hx & Hy).
    destruct (contact_carried e1 dt self) as (Hc' & Ht' & Hx' & Hy').
    split; [by eapply carried_trans|]. simpl. split; [by rewrite Hl|].
    repeat split; congruence.
Qed.

Lemma vitals_carried (p : Player.t) (dt : R) :
  Player.x (Game.vitals p dt) = Player.x p /\
  Player.y (Game.vitals p dt) = Player.y p /\
  Player.inventory (Game.vitals p dt) = Player.inventory p /\
  Player.equipped (Game.vitals p dt) = Player.equipped p.
Proof.
  unfold Game.vitals. simpl.
  destruct (Rlt_dec 80 _), (Rlt_dec 90 _); simpl;
    destruct (Rlt_dec _ MAX_STAMINA); simpl; done.
Qed.

Lemma update_player_carried (self : Game.t) (dt : R) (keys : Keys) :
  carried self (Game.update_player self dt keys) /\
  Game.entities (Game.update_player self dt keys) = Game.entities self /\
  Game.time_of_day (Game.update_player self dt keys) = Game.time_of_day self.
Proof.
  unfold Game.update_player, carried.
  destruct (Game.sprinting keys (Game.player self)), (Game.intent keys) as [vx vy];
    destruct (Rlt_dec 0 (hypot vx vy)); simpl; tauto.
Qed.

Lemma roll_weather_carried (self : Game.t) (g : rng) :
  carried self (Game.roll_weather self g).1 /\
  Game.time_of_day (Game.roll_weather self g).1 = Game.time_of_day self.
Proof.
  unfold Game.roll_weather, carried. simpl. destruct (Rlt_dec _ _); simpl; tauto.
Qed.

(** The state a tick hands to the entity loop. *)
Lemma update_stages (self self' : Game.t) (dt : R) (keys : Keys) (g g' : rng) :
  Game.update self dt keys g = Ok (self', g') ->
  exists self1 self2 es' g1,
    self1 = Game.update_player
              (Game.roll_weather
                 (Game.set_time_of_day (fmod (Game.time_of_day self + dt) DAY_LENGTH) self)
                 g).1 dt keys /\
    Game.update_entities (Game.entities self1) dt self1 g1 = Ok (es', self2, g') /\
    self' = Game.set_camera (Player.x (Game.vitals (Game.player self2) dt))
                            (Player.y (Game.vitals (Game.player self2) dt))
              (Game.set_player (Game.vitals (Game.player self2) dt)
                 (Game.set_entities es' self2)).
Proof.
  unfold Game.update. intros H.
  destruct (Game.roll_weather _ g) as [self0 g0] eqn:Hroll.
  inv_bind H. destruct a as [[es' self2] g2]. simpl in H.
  injection H as <- <-.
  eexists _, self2, es', g0. split; [reflexivity|]. simpl. split; [exact Ha | reflexivity].
Qed.

Lemma update_carried (self self' : Game.t) (dt : R) (keys : Keys) (g g' : rng) :
  Game.update self dt keys g = Ok (self', g') -> carried self self'.
Proof.
  intros H. apply update_stages in H as (self1 & self2 & es' & g1 & H1 & H2 & ->).
  set (self0 := Game.set_time_of_day _ self) in H1.
  destruct (roll_weather_carried self0 g) as (C0 & _).
  destruct (update_player_carried (Game.roll_weather self0 g).1 dt keys) as (C1 & _).
  rewrite <- H1 in C1.
  destruct (update_entities_carried _ _ _ _ _ _ _ H2) as (C2 & _).
  destruct (vitals_carried (Game.player self2) dt) as (_ & _ & V3 & V4).
  assert (carried self self0) as Cs by (unfold carried; simpl; tauto).
  pose proof (carried_trans _ _ _ (carried_trans _ _ _ (carried_trans _ _ _ Cs C0) C1) C2)
    as C.
  unfold carried in *. simpl. rewrite V3, V4. tauto.
Qed.

(** X19.  A tick that completes leaves the world, the inventory, the
    equipped item, the running flag, the build mode and the selected
    structure as they were, keeps the number of entities, never clears the
    pause flag, puts the camera on the player, and sets the clock to
    [(time_of_day + dt) % DAY_LENGTH].  From a clock at or above 0 and for
    [dt >= 0] the new clock lies within [0, DAY_LENGTH). *)
Theorem update_frame (self self' : Game.t) (dt : R) (keys : Keys) (g g' : rng) :
  Game.update self dt keys g = Ok (self', g') ->
  carried self self' /\
  length (Game.entities self') = length (Game.entities self) /\
  Game.camera_x self' = Player.x (Game.player self') /\
  Game.camera_y self' = Player.y (Game.player self') /\
  Game.time_of_day self' = fmod (Game.time_of_day self + dt) DAY_LENGTH /\
  (0 <= Game.time_of_day self -> 0 <= dt ->
   0 <= Game.time_of_day self' < DAY_LENGTH).
Proof.
  intros H. apply update_stages in H as (self1 & self2 & es' & g1 & H1 & H2 & ->).
  set (self0 := Game.set_time_of_day _ self) in H1.
  destruct (roll_weather_carried self0 g) as (C0 & T0).
  destruct (update_player_carried (Game.roll_weather self0 g).1 dt keys) as (C1 & E1 & T1).
  rewrite <- H1 in C1, E1, T1.
  destruct (update_entities_carried _ _ _ _ _ _ _ H2) as (C2 & L2 & T2 & _ & _).
  destruct (vitals_carried (Game.player self2) dt) as (_ & _ & V3 & V4).
  assert (carried self self0) as Cs by (unfold carried; simpl; tauto).
  pose proof (carried_trans _ _ _ (carried_trans _ _ _ (carried_trans _ _ _ Cs C0) C1) C2)
    as C.
  split.
  { unfold carried in *. simpl. rewrite V3, V4. tauto. }
  split. { simpl. rewrite L2, E1. by destruct (roll_weather_player self0 g) as (_ & -> & _). }
  split; [reflexivity|]. split; [reflexivity|]. simpl.
  assert (Game.time_of_day self2 = fmod (Game.time_of_day self + dt) DAY_LENGTH) as ->.
  { rewrite T2, T1, T0. reflexivity. }
  split; [reflexivity|].
  intros _ _. apply fmod_range. unfold DAY_LENGTH. lra.
Qed.

(** A tick at the spawn point of the default world, nobody near, the clock
    at 0. *)
Lemma update_frame_witness :
  exists self',
    Game.update spawn (1 / 8) (standing false) calm
      = Ok (self', calm_at (1 + length (Game.entities spawn))) /\
    carried spawn self' /\
    length (Game.entities self') = length (Game.entities spawn) /\
    Game.camera_x self' = Player.x (Game.player self') /\
    Game.camera_y self' = Player.y (Game.player self') /\
    Game.time_of_day self' = fmod (Game.time_of_day spawn + 1 / 8) DAY_LENGTH /\
    0 <= Game.time_of_day self' < DAY_LENGTH.
Proof.
  destruct (update_still spawn (1 / 8) false 0 spawn_still) as (self' & Hup & _).
  exists self'. split; [exact Hup|].
  destruct (update_frame spawn self' (1 / 8) (standing false) calm _ Hup)
    as (H1 & H2 & H3 & H4 & H5 & H6).
  do 5 (split; [assumption|]).
  apply H6; [|lra]. change (Game.time_of_day spawn) with 0. lra.
Defined.

(** ** Damage *)

Lemma touching_cons (p : Player.t) (e : Entity.t) (es : list Entity.t) :
  touching p (e :: es) = ((if in_reach p e then 1 else 0) + touching p es)%nat.
Proof. unfold touching. simpl. by destruct (in_reach p e). Qed.

Lemma touching_pos (p q : Player.t) (es : list Entity.t) :
  Player.x p = Player.x q -> Player.y p = Player.y q -> touching p es = touching q es.
Proof.
  intros Hx Hy. unfold touching. f_equal. apply List.filter_ext.
  intros e. unfold in_reach. by rewrite Hx, Hy.
Qed.

Lemma contact_cases (e : Entity.t) (dt : R) (self : Game.t) :
  (in_reach (Game.player self) e = false /\ Game.contact e dt self = self) \/
  (in_reach (Game.player self) e = true /\
   Player.health (Game.player (Game.contact e dt self))
     = Player.health (Game.player self) - 5 * dt /\
   (Player.health (Game.player self) - 5 * dt <= 0 ->
      Game.paused (Game.contact e dt self) = true)).
Proof.
  unfold Game.contact, in_reach. destruct (Rlt_dec _ 20); [right | left; done].
  split; [done|]. simpl. destruct (Rle_dec _ 0); simpl; [done|].
  split; [done|]. intros. lra.
Qed.

Lemma update_entities_health (es : list Entity.t) (dt : R) :
  forall (self : Game.t) (g : rng) (es' : list Entity.t) (self' : Game.t) (g' : rng),
    Game.update_entities es dt self g = Ok (es', self', g') ->
    Player.health (Game.player self')
      = bitten (touching (Game.player self) es') dt (Player.health (Game.player self)) /\
    (touching (Game.player self) es' = 0%nat -> Game.paused self' = Game.paused self) /\
    (0 <= dt -> (0 < touching (Game.player self) es')%nat ->
       Player.health (Game.player self') <= 0 -> Game.paused self' = true).
Proof.
  induction es as [|e es IH]; intros self g es' self' g' H; simpl in H.
  - injection H as <- <- <-. unfold touching, bitten. simpl.
    split; [done|]. split; [done|]. intros _ Hn. inversion Hn.
  - inv_bind H. destruct a as [e1 g1]. simpl in H.
    inv_bind H. destruct a as [[es1 self1] g2]. simpl in H.
    injection H as <- <- <-.
    destruct (IH _ _ _ _ _ Ha0) as (Hh & Hp & Hd).
    destruct (update_entities_carried _ _ _ _ _ _ _ Ha0) as (Hc & _).
    destruct (contact_carried e1 dt self) as (_ & _ & Hx & Hy).
    rewrite (touching_pos _ _ es1 Hx Hy) in Hh, Hp, Hd.
    rewrite touching_cons.
    destruct (contact_cases e1 dt self) as [[Hr Hs]|(Hr & Hs & Hk)]; rewrite Hr.
    + rewrite Hs in *. simpl. auto.
    + split; [|split; [discriminate|]].
      { rewrite Hh, Hs, Nat.add_1_l. unfold bitten. by rewrite Nat.iter_succ_r. }
      intros Hdt _ Hle.
      destruct (Rle_dec (Player.health (Game.player self) - 5 * dt) 0) as [Hdead|Halive].
      * apply Hc, Hk, Hdead.
      * apply Hd; [done | | done].
        destruct (Nat.eq_dec (touching (Game.player self) es1) 0%nat) as [Hz|Hnz]; [|lia].
        rewrite Hh, Hz, Hs in Hle. unfold bitten in Hle. simpl in Hle. lra.
Qed.

Lemma vitals_health (p : Player.t) (dt : R) :
  Player.health (Game.vitals p dt)
    = Player.health p
      - (if Rlt_dec 80 (Player.hunger p + dt * 0.5) then dt * 0.5 else 0)
      - (if Rlt_dec 90 (Player.thirst p + dt * 0.9) then dt * 1.0 else 0).
Proof.
  unfold Game.vitals. simpl.
  destruct (Rlt_dec 80 _), (Rlt_dec 90 _); simpl;
    destruct (Rlt_dec _ MAX_STAMINA); simpl; lra.
Qed.

Lemma update_player_paused (self : Game.t) (dt : R) (keys : Keys) :
  Game.paused (Game.update_player self dt keys) = Game.paused self.
Proof.
  unfold Game.update_player.
  destruct (Game.sprinting keys (Game.player self)), (Game.intent keys) as [vx vy];
    destruct (Rlt_dec 0 (hypot vx vy)); reflexivity.
Qed.

Lemma roll_weather_paused (self : Game.t) (g : rng) :
  Game.paused (Game.roll_weather self g).1 = Game.paused self.
Proof. unfold Game.roll_weather. simpl. destruct (Rlt_dec _ _); reflexivity. Qed.

(** X20.  The health a tick takes, step by step: [5 * dt] is subtracted
    once for every entity that, after its own move, is within 20 units of the
    player, then [dt * 0.5] once hunger is above 80 and [dt * 1.0] once thirst
    is above 90.  The pause that follows death is tied to the contact check
    alone: with an entity in reach and health down to 0 or below after the
    contacts the game is paused, while with no entity in reach the pause flag
    is left as it was, whatever hunger and thirst do to health. *)
Theorem update_health (self self' : Game.t) (dt : R) (keys : Keys) (g g' : rng) :
  Game.update self dt keys g = Ok (self', g') ->
  let p := Game.player self in
  let p' := Game.player self' in
  let n := touching p' (Game.entities self') in
  let starving := if Rlt_dec 80 (Player.hunger p + dt * 0.5) then dt * 0.5 else 0 in
  let parched := if Rlt_dec 90 (Player.thirst p + dt * 0.9) then dt * 1.0 else 0 in
  Player.health p' = bitten n dt (Player.health p) - starving - parched /\
  (n = 0%nat -> Game.paused self' = Game.paused self) /\
  (0 <= dt -> (0 < n)%nat -> bitten n dt (Player.health p) <= 0 ->
     Game.paused self' = true).
Proof.
  intros H. apply update_stages in H as (self1 & self2 & es' & g1 & H1 & H2 & ->).
  set (self0 := Game.set_time_of_day _ self) in H1.
  destruct (update_entities_health _ _ _ _ _ _ _ H2) as (Hh & Hp & Hd).
  destruct (update_entities_carried _ _ _ _ _ _ _ H2) as (_ & _ & _ & Hx & Hy).
  destruct (update_entities_player _ _ _ _ _ _ _ H2) as (Hhu & Hth & _ & _).
  destruct (vitals_carried (Game.player self2) dt) as (Vx & Vy & _ & _).
  destruct (update_player_rest (Game.roll_weather self0 g).1 dt keys)
    as (Rh & Rhu & Rth & _). cbv zeta in Rh, Rhu, Rth, Hhu, Hth.
  rewrite <- H1 in Rh, Rhu, Rth.
  destruct (roll_weather_player self0 g) as (Rp & _). rewrite Rp in Rh, Rhu, Rth.
  change (Game.player self0) with (Game.player self) in Rh, Rhu, Rth.
  assert (Game.paused self1 = Game.paused self) as Hps.
  { rewrite H1, update_player_paused, roll_weather_paused. reflexivity. }
  cbv zeta. cbn [Game.player Game.entities Game.paused Game.set_camera Game.set_player
                 Game.set_entities Game.world Game.camera_x Game.camera_y].
  rewrite (touching_pos (Game.vitals (Game.player self2) dt) (Game.player self1) es')
    by congruence.
  rewrite vitals_health, Hh, Hhu, Hth, Rh, Rhu, Rth.
  split; [reflexivity|]. split.
  - intros Hn. by rewrite Hp.
  - intros Hdt Hn Hle. apply Hd; [done | done |]. by rewrite Hh, Rh.
Qed.

(** ** Entities *)

(** The steps of [Entity.update], one after the other. *)
Lemma entity_update_stages (e : Entity.t) (dt : R) (wd : World.t) (p : Player.t)
  (g : rng) (e' : Entity.t) (g' : rng) :
  Entity.update e dt wd p g = Ok (e', g') ->
  exists e2,
    Entity.pursue (Entity.wander e g).1 p = Ok e2 /\
    e' = Entity.integrate (Entity.panic e2 p (Entity.wander e g).2).1 dt /\
    g' = (Entity.panic e2 p (Entity.wander e g).2).2.
Proof.
  unfold Entity.update, Entity.decide_state. intros H.
  destruct (Entity.wander e g) as [e1 g1]. simpl in *.
  destruct (Entity.pursue e1 p) as [e2|] eqn:Hp; simpl in H; [|discriminate].
  destruct (Entity.panic e2 p g1) as [e3 g3] eqn:Hf. simpl in H.
  injection H as <- <-. exists e2. rewrite Hf. split; [reflexivity|]. split; reflexivity.
Qed.

Lemma wander_state (e : Entity.t) (g : rng) :
  let e1 := (Entity.wander e g).1 in
  (Entity.state e = Entity.attack \/ Entity.state e = Entity.flee -> e1 = e) /\
  (Entity.state e1 = Entity.flee -> Entity.state e = Entity.flee) /\
  Entity.radius e1 = Entity.radius e.
Proof.
  unfold Entity.wander.
  destruct (Entity.state e) eqn:Hs; simpl;
    try (split; [done|]; split; [congruence|]; done).
  - destruct (Rlt_dec _ 0.01); simpl.
    + split; [intros [?|?]; discriminate|]. split; [discriminate|]. done.
    + split; [done|]. split; [congruence|]. done.
  - destruct (Rlt_dec _ 0.005); simpl.
    + split; [intros [?|?]; discriminate|]. split; [discriminate|]. done.
    + split; [done|]. split; [congruence|]. done.
Qed.

Lemma pursue_keeps (e e2 : Entity.t) (p : Player.t) :
  Entity.pursue e p = Ok e2 ->
  Entity.x e2 = Entity.x e /\ Entity.y e2 = Entity.y e /\
  Entity.health e2 = Entity.health e /\ Entity.speed e2 = Entity.speed e /\
  Entity.radius e2 = Entity.radius e /\
  (Entity.state e2 = Entity.state e \/ Entity.state e2 = Entity.attack).
Proof.
  intros H.
  destruct (Rlt_dec (hypot (Player.x p - Entity.x e) (Player.y p - Entity.y e)) 150)
    as [Hnear|Hfar].
  - destruct (Rle_lt_or_eq_dec _ _ (hypot_nonneg (Player.x p - Entity.x e)
                                                   (Player.y p - Entity.y e)))
      as [Hpos|Hzero].
    + rewrite (pursue_near e p Hpos Hnear) in H. injection H as <-. simpl.
      repeat split; auto.
    + symmetry in Hzero. apply hypot_eq_0 in Hzero as [Hx Hy].
      rewrite pursue_at_player in H by lra. discriminate.
  - rewrite pursue_far in H by lra. injection H as <-. repeat split; auto.
Qed.


Lemma panic_keeps (e : Entity.t) (p : Player.t) (g : rng) :
  let e3 := (Entity.panic e p g).1 in
  Entity.x e3 = Entity.x e /\ Entity.y e3 = Entity.y e /\
  Entity.health e3 = Entity.health e /\ Entity.speed e3 = Entity.speed e /\
  Entity.radius e3 = Entity.radius e /\
  (Entity.state e3 = Entity.state e \/
   Entity.state e3 = Entity.flee /\ Entity.health e < 20).
Proof.
  unfold Entity.panic. destruct (Rlt_dec (Entity.health e) 20); simpl.
  - destruct (Rlt_dec _ 0.3); simpl; repeat split; auto.
  - repeat split; auto.
Qed.

(** The flee rule when it fires, and when its draw does not. *)
Lemma panic_fires (e : Entity.t) (p : Player.t) (g : rng) :
  Entity.health e < 20 ->
  let ang := atan2 (Entity.y e - Player.y p) (Entity.x e - Player.x p) in
  ((random g).1 < 0.3 ->
   (Entity.panic e p g).1 =
     Entity.set_vel (cos ang * Entity.speed e * 1.5) (sin ang * Entity.speed e * 1.5)
                    (Entity.set_state Entity.flee e)) /\
  (~ (random g).1 < 0.3 -> (Entity.panic e p g).1 = e).
Proof.
  intros Hlow ang. unfold Entity.panic, random. simpl.
  destruct (Rlt_dec (Entity.health e) 20) as [_|Hn]; [|lra].
  destruct (Rlt_dec _ 0.3) as [Hroll|Hno]; simpl; split; intros H; done.
Qed.

(** A tick on which the flee rule fires ends with the entity fleeing. *)
Lemma update_flees (e : Entity.t) (dt : R) (wd : World.t) (p : Player.t)
  (g : rng) (e' : Entity.t) (g' : rng) :
  Entity.health e < 20 ->
  (random (Entity.wander e g).2).1 < 0.3 ->
  Entity.update e dt wd p g = Ok (e', g') ->
  Entity.state e' = Entity.flee.
Proof.
  intros Hlow Hroll H. apply entity_update_stages in H as (e2 & Hp & -> & _).
  destruct (wander_pos e g) as (_ & _ & Wh & _).
  destruct (pursue_keeps _ _ _ Hp) as (_ & _ & Ph & _).
  destruct (panic_fires e2 p (Entity.wander e g).2) as [Hfire _]; [lra|].
  cbv zeta in Hfire. rewrite (Hfire Hroll). reflexivity.
Qed.

(** X21.  What [Entity.update] keeps when it completes: health, speed and
    radius are never written; the position moves by the new velocity times
    [dt]; an entity that attacks or flees never goes back to idling or
    roaming; and only an entity with health below 20 starts to flee. *)
Theorem entity_update_keeps (e : Entity.t) (dt : R) (wd : World.t) (p : Player.t)
  (g : rng) (e' : Entity.t) (g' : rng) :
  Entity.update e dt wd p g = Ok (e', g') ->
  Entity.health e' = Entity.health e /\
  Entity.speed e' = Entity.speed e /\
  Entity.radius e' = Entity.radius e /\
  Entity.x e' = Entity.x e + Entity.vx e' * dt /\
  Entity.y e' = Entity.y e + Entity.vy e' * dt /\
  (Entity.state e = Entity.attack \/ Entity.state e = Entity.flee ->
   Entity.state e' = Entity.attack \/ Entity.state e' = Entity.flee) /\
  (Entity.state e' = Entity.flee ->
   Entity.state e = Entity.flee \/ Entity.health e < 20).
Proof.
  intros H. apply entity_update_stages in H as (e2 & Hp & -> & _).
  destruct (wander_pos e g) as (Wx & Wy & Wh & Ws).
  destruct (wander_state e g) as (Wfix & Wflee & Wr). cbv zeta in *.
  destruct (pursue_keeps _ _ _ Hp) as (Px & Py & Ph & Ps & Pr & Pst).
  destruct (panic_keeps e2 p (Entity.wander e g).2) as (Fx & Fy & Fh & Fs & Fr & Fst).
  cbv zeta in *. set (e3 := (Entity.panic e2 p (Entity.wander e g).2).1) in *.
  unfold Entity.integrate. simpl.
  split; [congruence|]. split; [congruence|]. split; [congruence|].
  split; [congruence|]. split; [congruence|]. split.
  - intros Hs. rewrite (Wfix Hs) in Pst.
    destruct Fst as [Fst|[Fst _]]; [|by right]. rewrite Fst.
    destruct Pst as [Pst|Pst]; [by rewrite Pst | by left].
  - intros Hs. destruct Fst as [Fst|[_ Fst]]; [|right; congruence].
    rewrite Fst in Hs. destruct Pst as [Pst|Pst]; [|congruence].
    left. apply Wflee. congruence.
Qed.

(** Three entities five units from the player: one at rest and in good
    health, one already attacking, and a wounded one on which the flee rule
    fires. *)
Lemma entity_update_keeps_witness :
  (exists e' g',
     Entity.update (Entity.new 3 4) (1 / 64) orchard (Player.new 0 0) calm = Ok (e', g') /\
     Entity.health e' = Entity.health (Entity.new 3 4) /\
     Entity.speed e' = Entity.speed (Entity.new 3 4) /\
     Entity.radius e' = Entity.radius (Entity.new 3 4) /\
     Entity.x e' = Entity.x (Entity.new 3 4) + Entity.vx e' * (1 / 64) /\
     Entity.y e' = Entity.y (Entity.new 3 4) + Entity.vy e' * (1 / 64)) /\
  (exists e' g',
     Entity.update (Entity.set_state Entity.attack (Entity.new 3 4)) (1 / 64) orchard
                   (Player.new 0 0) calm = Ok (e', g') /\
     (Entity.state e' = Entity.attack \/ Entity.state e' = Entity.flee)) /\
  (exists e' g',
     Entity.update wounded (1 / 64) orchard (Player.new 0 0) skittish = Ok (e', g') /\
     Entity.state e' = Entity.flee /\
     (Entity.state wounded = Entity.flee \/ Entity.health wounded < 20)).
Proof.
  assert (hypot (0 - 3) (0 - 4) = 5) as Hd by (apply hypot_triple; lra).
  split; [|split].
  - destruct (update_apart (Entity.new 3 4) (1 / 64) orchard (Player.new 0 0) calm)
      as (e' & g' & Hup); [simpl; rewrite Hd; lra|].
    exists e', g'. split; [exact Hup|].
    destruct (entity_update_keeps _ _ _ _ _ _ _ Hup) as (H1 & H2 & H3 & H4 & H5 & _).
    auto.
  - destruct (update_apart (Entity.set_state Entity.attack (Entity.new 3 4)) (1 / 64)
                orchard (Player.new 0 0) calm)
      as (e' & g' & Hup); [simpl; rewrite Hd; lra|].
    exists e', g'. split; [exact Hup|].
    destruct (entity_update_keeps _ _ _ _ _ _ _ Hup) as (_ & _ & _ & _ & _ & H6 & _).
    apply H6. by left.
  - destruct (update_apart wounded (1 / 64) orchard (Player.new 0 0) skittish)
      as (e' & g' & Hup); [simpl; rewrite Hd; lra|].
    exists e', g'. split; [exact Hup|].
    assert (Entity.state e' = Entity.flee) as Hflee.
    { apply (update_flees wounded (1 / 64) orchard (Player.new 0 0) skittish e' g');
        [simpl; lra | | exact Hup].
      unfold Entity.wander, random. simpl.
      destruct (Rlt_dec (1 / 2) 0.01); [lra|]. simpl. lra. }
    split; [exact Hflee|].
    destruct (entity_update_keeps _ _ _ _ _ _ _ Hup) as (_ & _ & _ & _ & _ & _ & H7).
    exact (H7 Hflee).
Defined.

Lemma entity_update_steady (e : Entity.t) (dt : R) (wd : World.t) (p : Player.t)
  (g : rng) (e' : Entity.t) (g' : rng) :
  Entity.update e dt wd p g = Ok (e', g') -> steady e -> steady e'.
Proof.
  intros H [Hh Hs]. apply entity_update_stages in H as (e2 & Hp & -> & _).
  destruct (wander_pos e g) as (_ & _ & Wh & _).
  destruct (wander_state e g) as (_ & Wflee & _). cbv zeta in *.
  destruct (pursue_keeps _ _ _ Hp) as (_ & _ & Ph & _ & _ & Pst).
  destruct (panic_keeps e2 p (Entity.wander e g).2) as (_ & _ & Fh & _ & _ & Fst).
  cbv zeta in *. unfold steady, Entity.integrate. simpl.
  split; [rewrite Fh, Ph, Wh; exact Hh|].
  destruct Fst as [Fst|[_ Fst]]; [|rewrite Ph, Wh in Fst; lra].
  rewrite Fst. destruct Pst as [Pst|Pst]; rewrite Pst; [|discriminate].
  intros Hf. by apply Hs, Wflee.
Qed.

Lemma update_entities_steady (es : list Entity.t) (dt : R) :
  forall (self : Game.t) (g : rng) (es' : list Entity.t) (self' : Game.t) (g' : rng),
    Game.update_entities es dt self g = Ok (es', self', g') ->
    Forall steady es -> Forall steady es'.
Proof.
  induction es as [|e es IH]; intros self g es' self' g' H Hst; simpl in H.
  - injection H as <- <- <-. constructor.
  - inv_bind H. destruct a as [e1 g1]. simpl in H.
    inv_bind H. destruct a as [[es1 self1] g2]. simpl in H.
    injection H as <- <- <-.
    apply Forall_cons in Hst as [He Hes]. apply Forall_cons_2.
    + by eapply entity_update_steady.
    + by eapply IH.
Qed.

Lemma update_steady (self self' : Game.t) (dt : R) (keys : Keys) (g g' : rng) :
  Game.update self dt keys g = Ok (self', g') ->
  Forall steady (Game.entities self) -> Forall steady (Game.entities self').
Proof.
  intros H Hst. apply update_stages in H as (self1 & self2 & es' & g1 & H1 & H2 & ->).
  simpl. eapply update_entities_steady; [exact H2|].
  rewrite H1.
  destruct (update_player_carried
              (Game.roll_weather
                 (Game.set_time_of_day (fmod (Game.time_of_day self + dt) DAY_LENGTH) self)
                 g).1 dt keys) as (_ & -> & _).
  by destruct (roll_weather_player
                 (Game.set_time_of_day (fmod (Game.time_of_day self + dt) DAY_LENGTH) self)
                 g) as (_ & -> & _).
Qed.

(** X22.  Nothing in the simulation lowers an entity's health, so the flee
    rule stays out of play: in a game whose entities all have a health of at
    least 20 and are not fleeing, as in every freshly constructed game, no
    run of ticks ever puts an entity into the flee state or below that
    health.  Only a save file can bring in an entity that flees. *)
Theorem run_ticks_steady (ticks : list (R * Keys)) :
  forall (self self' : Game.t) (g g' : rng),
    Game.run_ticks ticks self g = Ok (self', g') ->
    Forall steady (Game.entities self) ->
    Forall steady (Game.entities self').
Proof.
  induction ticks as [|[dt keys] ticks IH]; intros self self' g g' H Hst; simpl in H.
  - by injection H as <- <-.
  - inv_bind H. destruct a as [self1 g1]. simpl in H.
    eapply IH; [exact H|]. by eapply update_steady.
Qed.

Lemma herd_steady : Forall steady herd.
Proof.
  unfold herd, steady, Entity.new.
  repeat apply Forall_cons_2; [..|apply Forall_nil_2]; simpl; (split; [lra | discriminate]).
Qed.

(** Four ticks at the spawn point of the default world. *)
Lemma run_ticks_steady_witness :
  exists self' g',
    Game.run_ticks (replicate 4 (1 / 8, standing false)) spawn calm = Ok (self', g') /\
    Forall steady (Game.entities self').
Proof.
  destruct (run_still false (1 / 8) 4 spawn 0 spawn_still) as (self' & g' & Hrun).
  exists self', g'. split; [exact Hrun|].
  exact (run_ticks_steady _ spawn self' calm g' Hrun herd_steady).
Defined.

Lemma entity_update_moves (e : Entity.t) (dt : R) (wd : World.t) (p : Player.t)
  (g : rng) (e' : Entity.t) (g' : rng) :
  Entity.update e dt wd p g = Ok (e', g') ->
  Entity.x e' = Entity.x e + Entity.vx e' * dt /\
  Entity.y e' = Entity.y e + Entity.vy e' * dt.
Proof.
  intros H. apply entity_update_stages in H as (e2 & Hp & -> & _).
  destruct (wander_pos e g) as (Wx & Wy & _).
  destruct (pursue_keeps _ _ _ Hp) as (Px & Py & _).
  destruct (panic_keeps e2 p (Entity.wander e g).2) as (Fx & Fy & _).
  cbv zeta in *. unfold Entity.integrate. simpl. split; congruence.
Qed.

(** X23.  An entity closer to the player than 150 units, and not on the
    player's very spot, turns to attack unless the flee rule fires.  Its
    velocity is the offset to the player divided by the distance and
    multiplied by 1.2 times its speed, in the order the code computes it, and
    the position moves by that velocity times [dt].  With a speed and a [dt]
    that are not negative, the velocity and the step have the sign of the
    offset along each axis: the entity never steps away from the player. *)
Theorem pursuit_heads_for_player (e : Entity.t) (dt : R) (wd : World.t) (p : Player.t)
  (g : rng) (e' : Entity.t) (g' : rng) :
  let dx := Player.x p - Entity.x e in
  let dy := Player.y p - Entity.y e in
  let dist := hypot dx dy in
  0 < dist -> dist < 150 ->
  ~ (Entity.health e < 20 /\ (random (Entity.wander e g).2).1 < 0.3) ->
  Entity.update e dt wd p g = Ok (e', g') ->
  Entity.state e' = Entity.attack /\
  Entity.vx e' = dx / dist * (Entity.speed e * 1.2) /\
  Entity.vy e' = dy / dist * (Entity.speed e * 1.2) /\
  Entity.x e' = Entity.x e + Entity.vx e' * dt /\
  Entity.y e' = Entity.y e + Entity.vy e' * dt /\
  (0 <= Entity.speed e ->
   0 <= Entity.vx e' * dx /\ 0 <= Entity.vy e' * dy /\
   (0 <= dt ->
    0 <= (Entity.x e' - Entity.x e) * dx /\ 0 <= (Entity.y e' - Entity.y e) * dy)).
Proof.
  intros dx dy dist Hpos Hnear Hcalm H.
  destruct (update_attacks_near e dt wd p g Hpos Hnear Hcalm)
    as (e'' & g'' & H' & Hst & Hvx & Hvy).
  rewrite H in H'. injection H' as <- <-.
  destruct (entity_update_moves _ _ _ _ _ _ _ H) as (Hx & Hy).
  fold dx dy dist in Hvx, Hvy.
  split; [exact Hst|]. split; [exact Hvx|]. split; [exact Hvy|].
  split; [exact Hx|]. split; [exact Hy|].
  intros Hsp.
  assert (0 <= Entity.speed e * 1.2 / dist) as Hk.
  { apply Rmult_le_pos; [lra|]. left. by apply Rinv_0_lt_compat. }
  assert (0 <= Entity.vx e' * dx) as Hsx.
  { replace (Entity.vx e' * dx) with (Entity.speed e * 1.2 / dist * (dx * dx))
      by (rewrite Hvx; field; lra).
    apply Rmult_le_pos; [exact Hk | nra]. }
  assert (0 <= Entity.vy e' * dy) as Hsy.
  { replace (Entity.vy e' * dy) with (Entity.speed e * 1.2 / dist * (dy * dy))
      by (rewrite Hvy; field; lra).
    apply Rmult_le_pos; [exact Hk | nra]. }
  split; [exact Hsx|]. split; [exact Hsy|].
  intros Hdt. split.
  - replace ((Entity.x e' - Entity.x e) * dx) with (Entity.vx e' * dx * dt)
      by (rewrite Hx; ring).
    by apply Rmult_le_pos.
  - replace ((Entity.y e' - Entity.y e) * dy) with (Entity.vy e' * dy * dt)
      by (rewrite Hy; ring).
    by apply Rmult_le_pos.
Qed.

(** An entity five units from the player, in good health. *)
Lemma pursuit_heads_for_player_witness :
  exists e' g',
    Entity.update (Entity.new 3 4) (1 / 64) orchard (Player.new 0 0) calm = Ok (e', g') /\
    Entity.state e' = Entity.attack /\
    Entity.vx e' = (0 - 3) / 5 * (40 * 1.2) /\
    Entity.vy e' = (0 - 4) / 5 * (40 * 1.2) /\
    Entity.x e' = 3 + Entity.vx e' * (1 / 64) /\
    Entity.y e' = 4 + Entity.vy e' * (1 / 64) /\
    0 <= Entity.vx e' * (0 - 3) /\ 0 <= Entity.vy e' * (0 - 4) /\
    0 <= (Entity.x e' - 3) * (0 - 3) /\ 0 <= (Entity.y e' - 4) * (0 - 4).
Proof.
  assert (hypot (Player.x (Player.new 0 0) - Entity.x (Entity.new 3 4))
                (Player.y (Player.new 0 0) - Entity.y (Entity.new 3 4)) = 5) as Hd.
  { simpl. apply hypot_triple; lra. }
  destruct (update_apart (Entity.new 3 4) (1 / 64) orchard (Player.new 0 0) calm)
    as (e' & g' & Hup); [rewrite Hd; lra|].
  exists e', g'. split; [exact Hup|].
  destruct (pursuit_heads_for_player (Entity.new 3 4) (1 / 64) orchard (Player.new 0 0)
              calm e' g') as (Hst & Hvx & Hvy & Hx & Hy & Hsign);
    [rewrite Hd; lra | rewrite Hd; lra | simpl; lra | exact Hup |].
  rewrite Hd in Hvx, Hvy.
  destruct Hsign as (Hsx & Hsy & Hstep); [simpl; lra|].
  destruct Hstep as (Hpx & Hpy); [lra|].
  repeat split; assumption.
Defined.



(** ** A tick with an entity in reach *)

Lemma update_entities_apart (es : list Entity.t) (dt : R) :
  forall (self : Game.t) (g : rng),
    Forall (fun e => 0 < hypot (Player.x (Game.player self) - Entity.x e)
                               (Player.y (Game.player self) - Entity.y e)) es ->
    exists es' self' g', Game.update_entities es dt self g = Ok (es', self', g').
Proof.
  induction es as [|e es IH]; intros self g H; cbn [Game.update_entities]; [eauto|].
  apply Forall_cons in H as [He Hes].
  destruct (update_apart e dt (Game.world self) (Game.player self) g He)
    as (e1 & g1 & ->). cbn [mbind result_bind].
  destruct (contact_carried e1 dt self) as (_ & _ & Hx & Hy).
  destruct (IH (Game.contact e1 dt self) g1) as (es' & self' & g' & ->);
    [by rewrite Hx, Hy|].
  cbn [mbind result_bind]. eauto.
Qed.

Lemma update_player_idle (self : Game.t) (dt : R) (shift : bool) :
  within (Game.world self) (Player.x (Game.player self)) (Player.y (Game.player self)) ->
  Player.x (Game.player (Game.update_player self dt (standing shift)))
    = Player.x (Game.player self) /\
  Player.y (Game.player (Game.update_player self dt (standing shift)))
    = Player.y (Game.player self).
Proof.
  intros [Hx Hy]. unfold Game.update_player, Game.intent. simpl.
  rewrite hypot_0.
  destruct (Game.sprinting (standing shift) (Game.player self));
    destruct (Rlt_dec 0 0); try lra; simpl; rewrite !clamp_inside by done; done.
Qed.

(** The state [update] hands to the entity loop when no movement key is
    down. *)
Lemma update_idle_stage (self : Game.t) (dt : R) (shift : bool) (g : rng) :
  within (Game.world self) (Player.x (Game.player self)) (Player.y (Game.player self)) ->
  let self1 := Game.update_player
                 (Game.roll_weather
                    (Game.set_time_of_day (fmod (Game.time_of_day self + dt) DAY_LENGTH) self)
                    g).1 dt (standing shift) in
  Player.x (Game.player self1) = Player.x (Game.player self) /\
  Player.y (Game.player self1) = Player.y (Game.player self) /\
  Game.entities self1 = Game.entities self.
Proof.
  intros Hin self1.
  set (self0 := Game.set_time_of_day _ self) in *.
  destruct (roll_weather_player self0 g) as (Rp & Re & Rw).
  destruct (update_player_carried (Game.roll_weather self0 g).1 dt (standing shift))
    as (_ & E1 & _).
  destruct (update_player_idle (Game.roll_weather self0 g).1 dt shift) as [Hx Hy].
  { rewrite Rp, Rw. exact Hin. }
  fold self1 in E1, Hx, Hy. rewrite Hx, Hy, E1, Rp, Re. done.
Qed.

Lemma update_idle_total (self : Game.t) (dt : R) (shift : bool) (g : rng) :
  within (Game.world self) (Player.x (Game.player self)) (Player.y (Game.player self)) ->
  Forall (fun e => 0 < hypot (Player.x (Game.player self) - Entity.x e)
                             (Player.y (Game.player self) - Entity.y e))
         (Game.entities self) ->
  exists self' g', Game.update self dt (standing shift) g = Ok (self', g').
Proof.
  intros Hin Hapart.
  destruct (update_idle_stage self dt shift g Hin) as (Hx & Hy & He).
  unfold Game.update.
  destruct (Game.roll_weather _ g) as [self0 g0]. cbn [fst] in Hx, Hy, He.
  destruct (update_entities_apart (Game.entities (Game.update_player self0 dt (standing shift)))
              dt (Game.update_player self0 dt (standing shift)) g0)
    as (es' & self2 & g' & ->); [by rewrite Hx, Hy, He|].
  cbn [mbind result_bind]. eauto.
Qed.

Lemma cornered_within :
  within (Game.world cornered) (Player.x (Game.player cornered))
         (Player.y (Game.player cornered)).
Proof.
  change (Game.world cornered) with orchard.
  change (Player.x (Game.player cornered)) with (IZR ((World.w orchard * TILE_SIZE) `div` 2)).
  change (Player.y (Game.player cornered)) with (IZR ((World.h orchard * TILE_SIZE) `div` 2)).
  unfold within.
  change ((World.w orchard * TILE_SIZE) `div` 2)%Z with 16%Z.
  change ((World.h orchard * TILE_SIZE) `div` 2)%Z with 32%Z.
  change (World.w orchard * TILE_SIZE - 1)%Z with 31%Z.
  change (World.h orchard * TILE_SIZE - 1)%Z with 63%Z.
  lra.
Qed.

Lemma cornered_tick :
  exists self' g',
    Game.update cornered (1 / 64) (standing false) calm = Ok (self', g') /\
    touching (Game.player self') (Game.entities self') = 1%nat.
Proof.
  assert (Player.x (Game.player cornered) = 16 /\ Player.y (Game.player cornered) = 32)
    as [Px Py].
  { change (Player.x (Game.player cornered))
      with (IZR ((World.w orchard * TILE_SIZE) `div` 2)).
    change (Player.y (Game.player cornered))
      with (IZR ((World.h orchard * TILE_SIZE) `div` 2)).
    change ((World.w orchard * TILE_SIZE) `div` 2)%Z with 16%Z.
    change ((World.h orchard * TILE_SIZE) `div` 2)%Z with 32%Z. done. }
  assert (Game.entities cornered = [Entity.new 19 36]) as Pe by reflexivity.
  assert (hypot (16 - 19) (32 - 36) = 5) as Hd by (apply hypot_triple; lra).
  destruct (update_idle_total cornered (1 / 64) false calm cornered_within)
    as (self' & g' & Hup).
  { rewrite Pe, Px, Py. apply Forall_cons_2; [|apply Forall_nil_2].
    cbn [Entity.x Entity.y Entity.new]. rewrite Hd. lra. }
  exists self', g'. split; [exact Hup|].
  destruct (update_idle_stage cornered (1 / 64) false calm cornered_within) as (Sx & Sy & Se).
  apply update_stages in Hup as (self1 & self2 & es' & g1 & H1 & H2 & ->).
  rewrite <- H1 in Sx, Sy, Se. rewrite Px in Sx. rewrite Py in Sy. rewrite Pe in Se.
  rewrite Se in H2. cbn [Game.update_entities] in H2.
  inv_bind H2. destruct a as [e1 g2]. cbn [mbind result_bind] in H2.
  injection H2 as <- <- <-.
  destruct (entity_update_moves _ _ _ _ _ _ _ Ha) as (Ex & Ey).
  destruct (update_attacks_near (Entity.new 19 36) (1 / 64) (Game.world self1)
              (Game.player self1) g1) as (e2 & g3 & He2 & _ & Hvx & Hvy).
  { rewrite Sx, Sy. cbn [Entity.x Entity.y Entity.new]. rewrite Hd. lra. }
  { rewrite Sx, Sy. cbn [Entity.x Entity.y Entity.new]. rewrite Hd. lra. }
  { cbn [Entity.health Entity.new]. lra. }
  rewrite Ha in He2. injection He2 as <- <-.
  rewrite Sx, Sy in Hvx, Hvy. cbn [Entity.x Entity.y Entity.speed Entity.new] in Hvx, Hvy, Ex, Ey.
  rewrite Hd in Hvx, Hvy.
  cbn [Game.player Game.entities Game.set_camera Game.set_player Game.set_entities].
  destruct (vitals_carried (Game.player (Game.contact e1 (1 / 64) self1)) (1 / 64))
    as (Vx & Vy & _).
  destruct (contact_carried e1 (1 / 64) self1) as (_ & _ & Cx & Cy).
  rewrite (touching_pos _ (Game.player self1)) by congruence.
  rewrite touching_cons. unfold touching, in_reach. cbn [List.filter length].
  rewrite Sx, Sy, Ex, Ey, Hvx, Hvy.
  rewrite (hypot_triple _ _ (17 / 4)) by lra.
  destruct (Rlt_dec (17 / 4) 20); [reflexivity | lra].
Qed.

(** An entity five units away closes in on a player who is down to a
    sixteenth of a health point: the contact takes 5/64 and the game is
    paused. *)
Lemma update_health_witness :
  exists self' g',
    Game.update cornered (1 / 64) (standing false) calm = Ok (self', g') /\
    touching (Game.player self') (Game.entities self') = 1%nat /\
    Player.health (Game.player self') = 1 / 16 - 5 * (1 / 64) /\
    Game.paused self' = true.
Proof.
  destruct cornered_tick as (self' & g' & Hup & Hn).
  exists self', g'. split; [exact Hup|]. split; [exact Hn|].
  destruct (update_health cornered self' (1 / 64) (standing false) calm g' Hup)
    as (Hh & _ & Hdead).
  cbv zeta in Hh, Hdead. rewrite Hn in Hh, Hdead.
  change (Player.health (Game.player cornered)) with (1 / 16) in Hh, Hdead.
  change (Player.hunger (Game.player cornered)) with 0 in Hh.
  change (Player.thirst (Game.player cornered)) with 0 in Hh.
  unfold bitten in Hh, Hdead. cbn [Nat.iter nat_rect] in Hh, Hdead.
  destruct (Rlt_dec 80 (0 + 1 / 64 * 0.5)); [lra|].
  destruct (Rlt_dec 90 (0 + 1 / 64 * 0.9)); [lra|].
  split; [rewrite Hh; lra|].
  apply Hdead; [lra | lia | lra].
Defined.
(** ** Pixels and tiles *)

Lemma trunc_bounds (v : R) : IZR (trunc v) - 1 < v < IZR (trunc v) + 1.
Proof.
  unfold trunc. destruct (Rle_dec 0 v).
  - destruct (Int_part_bounds v). lra.
  - rewrite opp_IZR. destruct (Int_part_bounds (- v)). lra.
Qed.

Lemma trunc_IZR (z : Z) : trunc (IZR z) = z.
Proof.
  unfold trunc. destruct (Rle_dec 0 (IZR z)).
  - apply Int_part_eq. lra.
  - rewrite <- opp_IZR, (Int_part_eq (IZR (- z)) (- z)) by lra. lia.
Qed.

(** One axis of the screen: the pixel [m], the tile it is mapped to and the
    pixel at which that tile is drawn. *)
Lemma pixel_of_tile (m half : Z) (cam : R) :
  let t := tile_coord (IZR (m - half) + cam) in
  let s := trunc (IZR (t * TILE_SIZE) - cam + IZR half) in
  (s <= m <= s + TILE_SIZE)%Z /\
  (forall c : Z, cam = IZR c ->
     (m < s + TILE_SIZE)%Z /\ tile_coord (IZR (s - half) + cam) = t).
Proof.
  intros t s.
  assert (IZR (t * TILE_SIZE) - cam + IZR half <= IZR m
          < IZR (t * TILE_SIZE) - cam + IZR half + 32) as [Hlo Hhi].
  { subst t. unfold tile_coord, TILE_SIZE.
    destruct (Int_part_bounds ((IZR (m - half) + cam) / IZR 32)) as [H1 H2].
    set (k := Int_part _) in *. rewrite mult_IZR. rewrite minus_IZR in H1, H2.
    apply (Rmult_le_compat_r 32) in H1; [|lra].
    apply (Rmult_lt_compat_r 32) in H2; [|lra].
    replace ((IZR m - IZR half + cam) / 32 * 32) with (IZR m - IZR half + cam) in H1, H2
      by (field; lra).
    lra. }
  destruct (trunc_bounds (IZR (t * TILE_SIZE) - cam + IZR half)) as [Tlo Thi].
  fold s in Tlo, Thi. split.
  - unfold TILE_SIZE. split.
    + assert (IZR (s - 1) < IZR m) as H by (rewrite minus_IZR; lra).
      apply lt_IZR in H. lia.
    + assert (IZR m < IZR (s + 33)) as H by (rewrite plus_IZR; lra).
      apply lt_IZR in H. lia.
  - intros c ->.
    assert (s = t * TILE_SIZE - c + half)%Z as Hs.
    { subst s. rewrite <- minus_IZR, <- plus_IZR. apply trunc_IZR. }
    split.
    + rewrite Hs. apply lt_IZR. rewrite plus_IZR, plus_IZR, minus_IZR.
      unfold TILE_SIZE at 2. lra.
    + rewrite <- plus_IZR, Hs, tile_coord_IZR. unfold TILE_SIZE.
      replace (t * 32 - c + half - half + c)%Z with (t * 32)%Z by lia.
      by rewrite Z.div_mul.
Qed.

(** X25.  A click and the picture agree up to one pixel.  The tile
    [screen_to_world] returns for a pixel is drawn by [world_to_screen] with
    its corner at most 32 pixels up and left of it; when the camera sits on
    integer coordinates, as before the player's first move, the pixel is
    inside the drawn 32 by 32 rectangle and mapping the corner back gives the
    same tile.  With a fractional camera the bound is reached: at camera
    x = 1/2 the pixel column 671 is mapped to tile column 0 although tile
    column 1 is drawn from there. *)
Theorem click_hits_drawn_tile (mx my : Z) (cam_x cam_y : R) :
  let t := screen_to_world mx my cam_x cam_y in
  let s := world_to_screen t.1 t.2 cam_x cam_y in
  (s.1 <= mx <= s.1 + TILE_SIZE)%Z /\
  (s.2 <= my <= s.2 + TILE_SIZE)%Z /\
  (forall cx cy : Z, cam_x = IZR cx -> cam_y = IZR cy ->
     (mx < s.1 + TILE_SIZE)%Z /\ (my < s.2 + TILE_SIZE)%Z /\
     screen_to_world s.1 s.2 cam_x cam_y = t) /\
  (screen_to_world 671 360 (1 / 2) 0).1 = 0%Z /\
  (world_to_screen 1 0 (1 / 2) 0).1 = 671%Z.
Proof.
  intros t s. subst t s. unfold screen_to_world, world_to_screen. cbn [fst snd].
  destruct (pixel_of_tile mx (SCREEN_WIDTH `div` 2) cam_x) as [Hx Hx'].
  destruct (pixel_of_tile my (SCREEN_HEIGHT `div` 2) cam_y) as [Hy Hy'].
  cbv zeta in Hx, Hx', Hy, Hy'.
  split; [exact Hx|]. split; [exact Hy|]. split.
  - intros cx cy Hcx Hcy.
    destruct (Hx' cx Hcx) as [H1 H2]. destruct (Hy' cy Hcy) as [H3 H4].
    split; [exact H1|]. split; [exact H3|]. by rewrite H2, H4.
  - split.
    + unfold tile_coord, TILE_SIZE.
      change (671 - SCREEN_WIDTH `div` 2)%Z with 31%Z. apply Int_part_eq. lra.
    + unfold trunc, TILE_SIZE.
      change (SCREEN_WIDTH `div` 2)%Z with 640%Z. change (1 * 32)%Z with 32%Z.
      destruct (Rle_dec 0 (32 - 1 / 2 + 640)); [|lra].
      apply Int_part_eq. lra.
Qed.

(** ** Rendering *)

Lemma traverse_all {A B} (f : A -> result B) (l : list A) :
  (forall a, a ∈ l -> exists b, f a = Ok b) -> exists bs, traverse f l = Ok bs.
Proof.
  induction l as [|a l IH]; intros H; simpl; [eauto|].
  destruct (H a) as [b ->]; [apply list_elem_of_here|].
  destruct IH as [bs ->]; [|simpl; eauto].
  intros c Hc. apply H. by apply list_elem_of_further.
Qed.

Lemma traverse_elem {A B} (f : A -> result B) (l : list A) (a : A) :
  forall bs, traverse f l = Ok bs -> a ∈ l -> exists b, f a = Ok b /\ b ∈ bs.
Proof.
  induction l as [|c l IH]; intros bs H Ha; [by apply elem_of_nil in Ha|].
  simpl in H. inv_bind H. inv_bind H. injection H as <-.
  apply elem_of_cons in Ha as [->|Ha].
  - eexists. split; [eassumption | apply list_elem_of_here].
  - destruct (IH _ Ha1 Ha) as (b & Hb & Hin).
    exists b. split; [done | by apply list_elem_of_further].
Qed.

Lemma draw_tile_ground (tl : Tile.t) (sx sy : Z) :
  exists c, Rect c sx sy TILE_SIZE TILE_SIZE ∈ Game.draw_tile tl sx sy.
Proof.
  unfold Game.draw_tile.
  destruct (String.eqb (Tile.kind tl) TILE_WATER);
    [|destruct (String.eqb (Tile.kind tl) TILE_FOREST);
      [|destruct (String.eqb (Tile.kind tl) TILE_ROCK);
        [|destruct (String.eqb (Tile.kind tl) TILE_SAND)]]];
    eexists; apply elem_of_app; left; apply list_elem_of_here.
Qed.

(** One axis of the view: a tile that exists and is drawn on the screen
    lies within the bounds of the tile loop. *)
Lemma drawn_in_view (t n full half : Z) (cam : R) :
  IZR full / 2 = IZR half ->
  (0 <= t < n)%Z ->
  (- TILE_SIZE < trunc (IZR (t * TILE_SIZE) - cam + IZR half) < full)%Z ->
  (Z.max 0 (Int_part ((cam - IZR full / 2) / IZR TILE_SIZE) - 1) <= t
   < Z.min n (Int_part ((cam + IZR full / 2) / IZR TILE_SIZE) + 2))%Z.
Proof.
  intros Hhalf Ht [Hlo Hhi]. rewrite Hhalf.
  destruct (trunc_bounds (IZR (t * TILE_SIZE) - cam + IZR half)) as [Tlo Thi].
  set (s := trunc _) in *. unfold TILE_SIZE in *. rewrite mult_IZR in Tlo, Thi.
  destruct (Int_part_bounds ((cam - IZR half) / 32)) as [A1 A2].
  destruct (Int_part_bounds ((cam + IZR half) / 32)) as [B1 B2].
  set (a := Int_part ((cam - IZR half) / 32)) in *.
  set (b := Int_part ((cam + IZR half) / 32)) in *.
  apply (Rmult_le_compat_r 32) in A1; [|lra].
  apply (Rmult_lt_compat_r 32) in B2; [|lra].
  replace ((cam - IZR half) / 32 * 32) with (cam - IZR half) in A1 by (field; lra).
  replace ((cam + IZR half) / 32 * 32) with (cam + IZR half) in B2 by (field; lra).
  assert (- 31 <= IZR s) as Hs1 by (apply IZR_le; lia).
  assert (IZR s <= IZR full - 1) as Hs2 by (rewrite <- minus_IZR; apply IZR_le; lia).
  assert (IZR full = 2 * IZR half) as Hfull by lra.
  assert (IZR (a - 1) * 32 < IZR t * 32 + 32) as Ha by (rewrite minus_IZR; lra).
  assert (IZR t * 32 < IZR (b + 1) * 32) as Hb by (rewrite plus_IZR; lra).
  assert (IZR (a - 1) < IZR (t + 1)) as Ha' by (rewrite plus_IZR; lra).
  assert (IZR t < IZR (b + 1)) as Hb' by lra.
  apply lt_IZR in Ha', Hb'. lia.
Qed.

Lemma view_in_bounds (self : Game.t) (tx ty : Z) :
  tx ∈ seqZ (Game.view self).1.1 ((Game.view self).1.2 - (Game.view self).1.1) ->
  ty ∈ seqZ (Game.view self).2.1 ((Game.view self).2.2 - (Game.view self).2.1) ->
  World.in_bounds (Game.world self) tx ty = true.
Proof.
  unfold Game.view. cbn [fst snd]. rewrite !elem_of_seqZ. intros Hx Hy.
  unfold World.in_bounds.
  repeat (apply andb_true_intro; split);
    first [apply Z.leb_le | apply Z.ltb_lt]; lia.
Qed.

Lemma get_tile_shaped (wd : World.t) (tx ty : Z) :
  World.shaped wd -> World.in_bounds wd tx ty = true ->
  exists tl, World.get_tile wd tx ty = Ok (Some tl).
Proof.
  intros Hs Hb. destruct (index_shaped wd tx ty Hs Hb) as [tl Htl].
  exists tl. unfold World.get_tile. by rewrite Hb, Htl.
Qed.

(** The tile loop completes and draws the ground of every tile it visits. *)
Lemma render_tiles_view (self : Game.t) :
  World.shaped (Game.world self) ->
  exists shapes,
    Game.render_tiles self = Ok shapes /\
    forall (tx ty : Z) (tl : Tile.t),
      tx ∈ seqZ (Game.view self).1.1 ((Game.view self).1.2 - (Game.view self).1.1) ->
      ty ∈ seqZ (Game.view self).2.1 ((Game.view self).2.2 - (Game.view self).2.1) ->
      World.get_tile (Game.world self) tx ty = Ok (Some tl) ->
      exists c,
        Rect c (world_to_screen tx ty (Game.camera_x self) (Game.camera_y self)).1
               (world_to_screen tx ty (Game.camera_x self) (Game.camera_y self)).2
               TILE_SIZE TILE_SIZE ∈ shapes.
Proof.
  intros Hshape. unfold Game.render_tiles.
  pose proof (view_in_bounds self) as Hview.
  destruct (Game.view self) as [[l r] [t b]]. cbn [fst snd] in *.
  set (G := fun tx ty : Z =>
    World.get_tile (Game.world self) tx ty ≫= fun tile : option Tile.t =>
      match tile with
      | Some tl =>
          let '(sx, sy) := world_to_screen tx ty (Game.camera_x self) (Game.camera_y self) in
          Ok (Game.draw_tile tl sx sy)
      | None => Raise AttributeError
      end).
  set (F := fun tx : Z => traverse (G tx) (seqZ t (b - t)) ≫= fun cells => Ok (concat cells)).
  change (exists shapes,
    (traverse F (seqZ l (r - l)) ≫= fun columns => Ok (concat columns)) = Ok shapes /\
    forall tx ty tl,
      tx ∈ seqZ l (r - l) -> ty ∈ seqZ t (b - t) ->
      World.get_tile (Game.world self) tx ty = Ok (Some tl) ->
      exists c,
        Rect c (world_to_screen tx ty (Game.camera_x self) (Game.camera_y self)).1
               (world_to_screen tx ty (Game.camera_x self) (Game.camera_y self)).2
               TILE_SIZE TILE_SIZE ∈ shapes).
  assert (forall tx, tx ∈ seqZ l (r - l) -> exists col, F tx = Ok col) as HF.
  { intros tx Htx. unfold F.
    destruct (traverse_all (G tx) (seqZ t (b - t))) as [cells ->]; [|simpl; eauto].
    intros ty Hty. unfold G.
    destruct (get_tile_shaped _ tx ty Hshape (Hview tx ty Htx Hty)) as [tl ->].
    simpl. eauto. }
  destruct (traverse_all F (seqZ l (r - l)) HF) as [columns Hcols].
  rewrite Hcols. cbn [mbind result_bind]. eexists. split; [reflexivity|].
  intros tx ty tl Htx Hty Htile.
  set (s := world_to_screen tx ty (Game.camera_x self) (Game.camera_y self)).
  destruct (traverse_elem F _ tx _ Hcols Htx) as (col & Hcol & Hin).
  unfold F in Hcol. inv_bind Hcol. injection Hcol as <-.
  destruct (traverse_elem (G tx) _ ty _ Ha Hty) as (cell & Hcell & Hin').
  unfold G in Hcell. rewrite Htile in Hcell. simpl in Hcell.
  injection Hcell as <-.
  destruct (draw_tile_ground tl s.1 s.2) as [c Hc]. exists c.
  apply list_elem_of_In, in_concat. eexists. split; [apply list_elem_of_In, Hin|].
  apply in_concat. eexists. split; apply list_elem_of_In; eassumption.
Qed.

(** X26.  On a grid of its declared shape the tile loop of [render] never
    raises, wherever the camera is: it only asks for tiles that exist.  And
    it leaves no hole: every tile of the world whose 32 by 32 rectangle, at
    the place [world_to_screen] gives it, meets the 1280 by 720 screen is
    drawn there. *)
Theorem render_tiles_covers_screen (self : Game.t) :
  World.shaped (Game.world self) ->
  exists shapes,
    Game.render_tiles self = Ok shapes /\
    forall (tx ty : Z) (tl : Tile.t),
      World.get_tile (Game.world self) tx ty = Ok (Some tl) ->
      let s := world_to_screen tx ty (Game.camera_x self) (Game.camera_y self) in
      on_screen s.1 s.2 ->
      exists c, Rect c s.1 s.2 TILE_SIZE TILE_SIZE ∈ shapes.
Proof.
  intros Hshape.
  destruct (render_tiles_view self Hshape) as (shapes & Hrender & Hdrawn).
  exists shapes. split; [exact Hrender|].
  intros tx ty tl Htile. cbv zeta. intros [Hsx Hsy].
  assert (World.in_bounds (Game.world self) tx ty = true) as Hb
    by (eapply get_tile_in_bounds; [exact Htile | eauto]).
  unfold World.in_bounds in Hb.
  apply andb_prop in Hb as [Hb Hy2]. apply andb_prop in Hb as [Hb Hy1].
  apply andb_prop in Hb as [Hx1 Hx2].
  apply Z.leb_le in Hx1, Hy1. apply Z.ltb_lt in Hx2, Hy2.
  apply (Hdrawn tx ty tl); [| |exact Htile]; unfold Game.view; cbn [fst snd];
    apply elem_of_seqZ.
  - pose proof (drawn_in_view tx (World.w (Game.world self)) SCREEN_WIDTH
                  (SCREEN_WIDTH `div` 2) (Game.camera_x self)) as H.
    lapply H; [clear H; intros H|];
      [|change (SCREEN_WIDTH `div` 2)%Z with 640%Z; unfold SCREEN_WIDTH; lra].
    specialize (H ltac:(lia) Hsx). lia.
  - pose proof (drawn_in_view ty (World.h (Game.world self)) SCREEN_HEIGHT
                  (SCREEN_HEIGHT `div` 2) (Game.camera_y self)) as H.
    lapply H; [clear H; intros H|];
      [|change (SCREEN_HEIGHT `div` 2)%Z with 360%Z; unfold SCREEN_HEIGHT; lra].
    specialize (H ltac:(lia) Hsy). lia.
Qed.

(** The two-tile world seen from its spawn point. *)
Lemma render_tiles_covers_screen_witness :
  exists shapes,
    Game.render_tiles (Game.fresh orchard []) = Ok shapes /\
    forall (tx ty : Z) (tl : Tile.t),
      World.get_tile (Game.world (Game.fresh orchard [])) tx ty = Ok (Some tl) ->
      let s := world_to_screen tx ty (Game.camera_x (Game.fresh orchard []))
                               (Game.camera_y (Game.fresh orchard [])) in
      on_screen s.1 s.2 ->
      exists c, Rect c s.1 s.2 TILE_SIZE TILE_SIZE ∈ shapes.
Proof. exact (render_tiles_covers_screen (Game.fresh orchard []) orchard_shaped). Defined.

(** ** The HUD *)

Lemma clamp_low (v : R) : v <= 0 -> clamp v 0 1 = 0.
Proof. intros H. unfold clamp, Rmax, Rmin. repeat destruct (Rle_dec _ _); lra. Qed.

Lemma clamp_high (v : R) : 1 <= v -> clamp v 0 1 = 1.
Proof. intros H. unfold clamp, Rmax, Rmin. repeat destruct (Rle_dec _ _); lra. Qed.

Lemma draw_bar_fits (x y w h : Z) (fraction : R) :
  (0 <= w)%Z ->
  exists inner,
    Game.draw_bar x y w h fraction
      = [Rect DARK_GRAY x y w h; Rect (50, 200, 50)%Z x y inner h] /\
    (0 <= inner <= w)%Z /\
    (fraction <= 0 -> inner = 0%Z) /\
    (1 <= fraction -> inner = w).
Proof.
  intros Hw. unfold Game.draw_bar. eexists. split; [reflexivity|].
  destruct (clamp_range fraction 0 1 ltac:(lra)) as [C0 C1].
  assert (0 <= IZR w) as Hw' by (apply IZR_le; lia).
  assert (0 <= IZR w * clamp fraction 0 1 <= IZR w) as [V0 V1] by nra.
  unfold trunc. destruct (Rle_dec 0 (IZR w * clamp fraction 0 1)); [|lra].
  split; [split|split].
  - by apply Int_part_le.
  - assert (Int_part (IZR w * clamp fraction 0 1) < w + 1)%Z
      by (apply Int_part_lt; rewrite plus_IZR; lra).
    lia.
  - intros Hf. rewrite clamp_low by done. apply Int_part_eq. lra.
  - intros Hf. rewrite clamp_high by done. apply Int_part_eq. lra.
Qed.

(** X27.  The four bars of the HUD never leave their 200 pixel frames,
    whatever the vital stats are: each inner width lies between 0 and 200.
    The health and stamina bars are full from [MAX_HEALTH] and [MAX_STAMINA]
    up and empty from 0 down; the hunger and thirst bars run the other way,
    full at 0 and below, empty from [MAX_HUNGER] and [MAX_THIRST] up. *)
Theorem render_hud_bars (self : Game.t) :
  let p := Game.player self in
  exists a b c d : Z,
    Game.render_hud self
      = [Rect DARK_GRAY 10 10 200 20; Rect (50, 200, 50)%Z 10 10 a 20;
         Rect DARK_GRAY 10 40 200 16; Rect (50, 200, 50)%Z 10 40 b 16;
         Rect DARK_GRAY 10 62 200 16; Rect (50, 200, 50)%Z 10 62 c 16;
         Rect DARK_GRAY 10 84 200 12; Rect (50, 200, 50)%Z 10 84 d 12] /\
    (0 <= a <= 200)%Z /\ (0 <= b <= 200)%Z /\ (0 <= c <= 200)%Z /\ (0 <= d <= 200)%Z /\
    (MAX_HEALTH <= Player.health p -> a = 200%Z) /\
    (Player.health p <= 0 -> a = 0%Z) /\
    (MAX_HUNGER <= Player.hunger p -> b = 0%Z) /\
    (Player.hunger p <= 0 -> b = 200%Z) /\
    (MAX_THIRST <= Player.thirst p -> c = 0%Z) /\
    (Player.thirst p <= 0 -> c = 200%Z) /\
    (MAX_STAMINA <= Player.stamina p -> d = 200%Z) /\
    (Player.stamina p <= 0 -> d = 0%Z).
Proof.
  intros p. unfold Game.render_hud. fold p.
  destruct (draw_bar_fits 10 10 200 20 (Player.health p / MAX_HEALTH) ltac:(lia))
    as (a & -> & Ra & La & Ha).
  destruct (draw_bar_fits 10 40 200 16 (1 - Player.hunger p / MAX_HUNGER) ltac:(lia))
    as (b & -> & Rb & Lb & Hb).
  destruct (draw_bar_fits 10 62 200 16 (1 - Player.thirst p / MAX_THIRST) ltac:(lia))
    as (c & -> & Rc & Lc & Hc).
  destruct (draw_bar_fits 10 84 200 12 (Player.stamina p / MAX_STAMINA) ltac:(lia))
    as (d & -> & Rd & Ld & Hd).
  exists a, b, c, d. split; [reflexivity|].
  unfold MAX_HEALTH, MAX_HUNGER, MAX_THIRST, MAX_STAMINA in *.
  repeat (split; [done|]).
  split; [intros; apply Ha; lra|]. split; [intros; apply La; lra|].
  split; [intros; apply Lb; lra|]. split; [intros; apply Hb; lra|].
  split; [intros; apply Lc; lra|]. split; [intros; apply Hc; lra|].
  split; [intros; apply Hd; lra | intros; apply Ld; lra].
Qed.

(** ** Events *)

Lemma settled_refl (a : Game.t) : settled a a.
Proof. unfold settled. tauto. Qed.

Lemma settled_trans (a b c : Game.t) : settled a b -> settled b c -> settled a c.
Proof.
  unfold settled.
  intros (A1 & A2 & A3 & A4 & A5 & A6 & A7 & A8 & A9 & A10 & A11 & A12 & A13)
         (B1 & B2 & B3 & B4 & B5 & B6 & B7 & B8 & B9 & B10 & B11 & B12 & B13).
  repeat split; try congruence. auto.
Qed.

Lemma place_structure_safe (wd : World.t) (tx ty : Z) (nm : string) :
  World.shaped wd ->
  exists ok wd',
    World.place_structure wd tx ty nm = Ok (ok, wd') /\
    World.shaped wd' /\ World.w wd' = World.w wd /\ World.h wd' = World.h wd.
Proof.
  intros Hs. unfold World.place_structure.
  destruct (World.in_bounds wd tx ty) eqn:Hb.
  - destruct (get_tile_shaped wd tx ty Hs Hb) as [tl ->]. cbn [mbind result_bind].
    destruct (truthy (Tile.built tl)).
    + eauto 10.
    + eexists _, _. split; [reflexivity|]. split; [by apply store_shaped | done].
  - unfold World.get_tile. rewrite Hb. cbn [negb mbind result_bind]. eauto 10.
Qed.

Lemma try_interact_safe (self : Game.t) :
  World.shaped (Game.world self) ->
  exists self',
    Game.try_interact self = Ok self' /\
    World.shaped (Game.world self') /\ settled self self' /\
    (Player.health (Game.player self) <= MAX_HEALTH ->
     Player.health (Game.player self') <= MAX_HEALTH).
Proof.
  intros Hs. unfold Game.try_interact.
  set (tx := tile_coord (Player.x (Game.player self))).
  set (ty := tile_coord (Player.y (Game.player self))).
  destruct (World.in_bounds (Game.world self) tx ty) eqn:Hb.
  - destruct (get_tile_shaped _ tx ty Hs Hb) as [tl Hget]. rewrite Hget.
    cbn [mbind result_bind].
    destruct (truthy (Tile.resource tl)) eqn:Hres.
    + unfold World.harvest. rewrite Hget. cbn [mbind result_bind]. rewrite Hres.
      cbn [negb mbind result_bind].
      apply get_tile_Some in Hget as [_ Hidx].
      destruct (0 <? Z.min 1 (Tile.resource_amount tl))%Z.
      * rewrite (index_store _ _ _ _ _ Hidx). cbn [mbind result_bind].
        destruct (collect_inventory
                    (World.harvested tl (Z.min 1 (Tile.resource_amount tl)))
                    (Z.min 1 (Tile.resource_amount tl))
                    (Game.set_world
                       (World.store (Game.world self) tx ty
                          (World.harvested tl (Z.min 1 (Tile.resource_amount tl)))) self))
          as [inv ->].
        eexists. split; [reflexivity|]. split; [by apply store_shaped|].
        split; [unfold settled; simpl; tauto | done].
      * eexists. split; [reflexivity|]. split; [by apply store_shaped|].
        split; [unfold settled; simpl; tauto | done].
    + destruct (truthy (Tile.built tl)).
      * destruct (decide (Tile.built tl = Some "campfire")).
        -- eexists. split; [reflexivity|]. split; [done|].
           split; [unfold settled; simpl; tauto|].
           intros _. simpl. unfold MAX_HEALTH. apply Rmin_l.
        -- exists self. split; [reflexivity|]. split; [done|].
           split; [apply settled_refl | done].
      * exists self. split; [reflexivity|]. split; [done|].
        split; [apply settled_refl | done].
  - unfold World.get_tile. rewrite Hb. cbn [negb mbind result_bind].
    exists self. split; [reflexivity|]. split; [done|].
    split; [apply settled_refl | done].
Qed.

Lemma handle_event_safe (ev : event) (self : Game.t) (disk : gmap string file) :
  World.shaped (Game.world self) ->
  exists self' disk',
    Game.handle_event ev (self, disk) = Ok (self', disk') /\
    World.shaped (Game.world self') /\ settled self self' /\
    (Player.health (Game.player self) <= MAX_HEALTH ->
     Player.health (Game.player self') <= MAX_HEALTH) /\
    (is_Some (disk !! SAVE_FILE) -> is_Some (disk' !! SAVE_FILE)) /\
    (ev = QUIT -> Game.is_running self' = false /\ is_Some (disk' !! SAVE_FILE)).
Proof.
  intros Hs.
  assert (exists data, Game.save self disk SAVE_FILE = Ok (<[SAVE_FILE := Doc data]> disk))
    as [data Hsave].
  { destruct (save_shaped self disk SAVE_FILE Hs) as (data & _ & H). eauto. }
  assert (is_Some ((<[SAVE_FILE := Doc data]> disk) !! SAVE_FILE)) as Hsaved
    by (rewrite lookup_insert_eq; eauto).
  destruct ev as [|[]|button [mx my]|]; cbn [Game.handle_event].
  - rewrite Hsave. cbn [mbind result_bind]. eexists _, _.
    split; [reflexivity|]. split; [done|].
    split; [unfold settled; simpl; tauto|]. split; [done|]. split; done.
  - eexists _, _. split; [reflexivity|]. split; [done|].
    split; [unfold settled; simpl; tauto|]. split; [done|]. split; done.
  - eexists _, _. split; [reflexivity|]. split; [done|].
    split; [unfold settled; simpl; tauto|]. split; [done|]. split; done.
  - destruct (try_interact_safe self Hs) as (self' & -> & Hs' & Hset & Hhp).
    cbn [mbind result_bind]. exists self', disk.
    split; [reflexivity|]. split; [done|]. split; [done|]. split; [done|]. split; done.
  - exists self, disk. split; [reflexivity|]. split; [done|].
    split; [apply settled_refl|]. split; [done|]. split; done.
  - rewrite Hsave. cbn [mbind result_bind]. eexists _, _.
    split; [reflexivity|]. split; [done|].
    split; [apply settled_refl|]. split; [done|]. split; done.
  - eexists _, _. split; [reflexivity|]. split; [done|].
    split; [unfold settled; simpl; tauto|].
    split; [intros _; simpl; unfold MAX_HEALTH; apply Rmin_l|]. split; done.
  - exists self, disk. split; [reflexivity|]. split; [done|].
    split; [apply settled_refl|]. split; [done|]. split; done.
  - destruct (decide (button = 1%Z)); [destruct (Game.build_mode self)|].
    + destruct (screen_to_world mx my (Game.camera_x self) (Game.camera_y self))
        as [tx ty].
      destruct (place_structure_safe (Game.world self) tx ty
                  (Game.selected_structure self) Hs) as (ok & wd' & -> & Hs' & Hw & Hh).
      cbn [mbind result_bind]. eexists _, _. split; [reflexivity|]. split; [done|].
      split; [unfold settled; simpl; tauto|]. split; [done|]. split; done.
    + exists self, disk. split; [reflexivity|]. split; [done|].
      split; [apply settled_refl|]. split; [done|]. split; done.
    + exists self, disk. split; [reflexivity|]. split; [done|].
      split; [apply settled_refl|]. split; [done|]. split; done.
  - exists self, disk. split; [reflexivity|]. split; [done|].
    split; [apply settled_refl|]. split; [done|]. split; done.
Qed.





(** Building by click is free.  In build mode a left click places the
    selected structure on the tile under the cursor when that tile exists
    and carries no structure, and changes nothing otherwise; in either case
    the player, and with the player the inventory, is left as it was, and
    the save file is not written. *)
Lemma build_click (self : Game.t) (disk : gmap string file) (mx my : Z) :
  World.shaped (Game.world self) ->
  Game.build_mode self = true ->
  let t := screen_to_world mx my (Game.camera_x self) (Game.camera_y self) in
  exists wd',
    Game.handle_events [MOUSEBUTTONDOWN 1 (mx, my)] (self, disk)
      = Ok (Game.set_world wd' self, disk) /\
    exists o, World.get_tile (Game.world self) t.1 t.2 = Ok o /\
      match o with
      | Some tl =>
          if truthy (Tile.built tl) then wd' = Game.world self
          else wd' = World.store (Game.world self) t.1 t.2
                       (Tile.set_built (Some (Game.selected_structure self)) tl)
      | None => wd' = Game.world self
      end.
Proof.
  intros Hs Hbm t. cbn [Game.handle_events Game.handle_event].
  rewrite decide_True by done. rewrite Hbm. fold t.
  destruct t as [tx ty]. cbn [fst snd]. unfold World.place_structure.
  destruct (World.in_bounds (Game.world self) tx ty) eqn:Hb.
  - destruct (get_tile_shaped _ tx ty Hs Hb) as [tl Hget]. rewrite Hget.
    cbn [mbind result_bind].
    destruct (truthy (Tile.built tl)) eqn:Hbuilt; cbn [mbind result_bind].
    + exists (Game.world self). split; [reflexivity|].
      exists (Some tl). split; [done|]. by rewrite Hbuilt.
    + eexists. split; [reflexivity|].
      exists (Some tl). split; [done|]. by rewrite Hbuilt.
  - unfold World.get_tile. rewrite Hb. cbn [negb mbind result_bind].
    exists (Game.world self). split; [reflexivity|]. exists None. done.
Qed.


(** ** World generation *)

Local Open Scope Z_scope.

Lemma roll_tile_generated (randint : Z -> Z -> rng -> Z * rng) (g : rng) :
  in_range randint -> generated (roll_tile randint g).1.
Proof.
  intros Hr. unfold roll_tile, random, generated.
  destruct (Rlt_dec _ 0.05); [simpl; tauto|].
  destruct (Rlt_dec _ 0.20).
  { pose proof (Hr 3 8 (mkRng (draws g) (S (cursor g))) ltac:(lia)) as H.
    destruct (randint 3 8 _); simpl in *. split; [done|]. right; left. done. }
  destruct (Rlt_dec _ 0.28).
  { pose proof (Hr 2 6 (mkRng (draws g) (S (cursor g))) ltac:(lia)) as H.
    destruct (randint 2 6 _); simpl in *. split; [done|]. right; right; left. done. }
  destruct (Rlt_dec _ 0.35); [simpl; tauto|].
  cbn [draws cursor]. destruct (Rlt_dec _ 0.03); [|simpl; tauto].
  pose proof (Hr 1 4 (mkRng (draws g) (S (S (cursor g)))) ltac:(lia)) as H.
  destruct (randint 1 4 _); simpl in *. split; [done|]. do 4 right; left. done.
Qed.

Lemma generated_stocked (tl : Tile.t) : generated tl -> stocked tl.
Proof.
  unfold generated, stocked.
  intros (_ & [(_ & -> & ->)|[(_ & -> & ?)|[(_ & -> & ?)|[(_ & -> & ->)|[(_ & -> & ?)|(_ & -> & ->)]]]]]);
    first [by right | left; split; [reflexivity | lia]].
Qed.

(** The grid while it is being generated. *)
Lemma store_generated (wd : World.t) (tx ty : Z) (tl : Tile.t) :
  Forall (Forall generated) (World.tiles wd) -> generated tl ->
  Forall (Forall generated) (World.tiles (World.store wd tx ty tl)).
Proof.
  intros Hs Htl. unfold World.store. simpl.
  apply Forall_alter; [done|]. intros col _ Hcol. by apply Forall_insert.
Qed.

Lemma generate_column_safe (randint : Z -> Z -> rng -> Z * rng) (x : Z) (ys : list Z) :
  in_range randint ->
  forall (wd : World.t) (g : rng),
    World.shaped wd -> Forall (Forall generated) (World.tiles wd) ->
    0 <= x < World.w wd -> Forall (fun y => 0 <= y < World.h wd) ys ->
    exists wd' g',
      generate_column randint x ys (wd, g) = Ok (wd', g') /\
      World.shaped wd' /\ Forall (Forall generated) (World.tiles wd') /\
      World.w wd' = World.w wd /\ World.h wd' = World.h wd.
Proof.
  intros Hr. induction ys as [|y ys IH]; intros wd g Hs Hg Hx Hys.
  - exists wd, g. done.
  - apply Forall_cons in Hys as [Hy Hys]. cbn [generate_column fst snd].
    pose proof (roll_tile_generated randint g Hr) as Htl.
    destruct (roll_tile randint g) as [tl g1]. cbn [fst] in Htl.
    assert (World.in_bounds wd x y = true) as Hb.
    { unfold World.in_bounds.
      repeat (apply andb_true_intro; split);
        first [apply Z.leb_le | apply Z.ltb_lt]; lia. }
    destruct (index_shaped wd x y Hs Hb) as [old Hold].
    unfold assign. rewrite Hold. cbn [mbind result_bind].
    destruct (IH (World.store wd x y tl) g1) as (wd' & g' & Hgen & Hs' & Hg' & Hw & Hh);
      [by apply store_shaped | by apply store_generated | done | done |].
    exists wd', g'. done.
Qed.

Lemma generate_columns_safe (randint : Z -> Z -> rng -> Z * rng) (xs : list Z) :
  in_range randint ->
  forall (wd : World.t) (g : rng),
    World.shaped wd -> Forall (Forall generated) (World.tiles wd) ->
    Forall (fun x => 0 <= x < World.w wd) xs ->
    exists wd' g',
      generate_columns randint xs (wd, g) = Ok (wd', g') /\
      World.shaped wd' /\ Forall (Forall generated) (World.tiles wd') /\
      World.w wd' = World.w wd /\ World.h wd' = World.h wd.
Proof.
  intros Hr. induction xs as [|x xs IH]; intros wd g Hs Hg Hxs.
  - exists wd, g. done.
  - apply Forall_cons in Hxs as [Hx Hxs]. cbn [generate_columns fst snd].
    destruct (generate_column_safe randint x (range (World.h wd)) Hr wd g Hs Hg Hx)
      as (wd1 & g1 & -> & Hs1 & Hg1 & Hw1 & Hh1).
    { apply Forall_forall. intros y Hy. apply elem_of_seqZ in Hy. lia. }
    cbn [mbind result_bind].
    destruct (IH wd1 g1 Hs1 Hg1) as (wd' & g' & Hgen & Hs' & Hg' & Hw & Hh).
    { by rewrite Hw1. }
    exists wd', g'. rewrite Hw, Hh. done.
Qed.

(** X29.  [World(w, h)] always succeeds, for every seed state, every
    [randint] that keeps to its range and every pair of sizes, negative ones
    included.  The world it returns has the sizes asked for and a grid of
    that shape; every tile in it is of one of the six generated kinds (water,
    forest with a tree of 3 to 8 units, rock with a stone of 2 to 6, sand,
    grass with a bush of 1 to 4, bare grass), without a structure, and so
    carries a resource exactly when its amount is positive. *)
Theorem World_init_generated (seeded : rng) (randint : Z -> Z -> rng -> Z * rng)
  (w h : Z) :
  in_range randint ->
  exists wd g',
    World_init seeded randint w h = Ok (wd, g') /\
    World.w wd = w /\ World.h wd = h /\
    World.shaped wd /\
    Forall (Forall generated) (World.tiles wd) /\
    sound wd.
Proof.
  intros Hr. unfold World_init, generate. cbn [World.w].
  set (wd0 := World.mk w h (replicate (Z.to_nat w) (replicate (Z.to_nat h) Tile.default))).
  assert (generated Tile.default) as Hdef by (unfold generated; simpl; tauto).
  destruct (generate_columns_safe randint (range w) Hr wd0 seeded)
    as (wd & g' & Hgen & Hs & Hg & Hw & Hh).
  - unfold World.shaped, wd0. simpl. rewrite length_replicate. split; [done|].
    apply Forall_replicate. by rewrite length_replicate.
  - unfold wd0. simpl. apply Forall_replicate, Forall_replicate, Hdef.
  - apply Forall_forall. intros x Hx. apply elem_of_seqZ in Hx. simpl. lia.
  - exists wd, g'. split; [exact Hgen|]. split; [exact Hw|]. split; [exact Hh|].
    split; [exact Hs|]. split; [exact Hg|].
    unfold sound. eapply Forall_impl; [exact Hg|].
    intros col Hcol. eapply Forall_impl; [exact Hcol|]. apply generated_stocked.
Qed.

Lemma lowest_in_range : in_range lowest.
Proof. intros a b g H. simpl. lia. Qed.

(** The default world, from a generator whose draws are all 1/2. *)
Lemma World_init_generated_witness :
  exists wd g',
    World_init calm lowest WORLD_WIDTH WORLD_HEIGHT = Ok (wd, g') /\
    World.w wd = WORLD_WIDTH /\ World.h wd = WORLD_HEIGHT /\
    World.shaped wd /\
    Forall (Forall generated) (World.tiles wd) /\
    sound wd.
Proof.
  exact (World_init_generated calm lowest WORLD_WIDTH WORLD_HEIGHT lowest_in_range).
Defined.

(** ** The main loop *)

Local Open Scope R_scope.

Lemma run_stopped (frames : list (R * list event * Keys))
  (st : Game.t * gmap string file * rng) :
  Game.is_running st.1.1 = false -> Game.run frames st = Ok st.
Proof.
  destruct frames as [|[[dt events] keys] rest]; cbn [Game.run]; [done|].
  by intros ->.
Qed.

(** A batch of events as the loop sees it: once the running flag is
    cleared, or the file written, it stays so. *)
Lemma handle_events_run (events : list event) :
  forall (self : Game.t) (disk : gmap string file),
    World.shaped (Game.world self) ->
    exists self' disk',
      Game.handle_events events (self, disk) = Ok (self', disk') /\
      World.shaped (Game.world self') /\
      settled self self' /\
      (Game.is_running self = false \/ QUIT ∈ events -> Game.is_running self' = false) /\
      (is_Some (disk !! SAVE_FILE) \/ QUIT ∈ events -> is_Some (disk' !! SAVE_FILE)).
Proof.
  induction events as [|ev events IH]; intros self disk Hs.
  - exists self, disk. split; [reflexivity|]. split; [done|].
    split; [apply settled_refl|].
    split; (intros [H|H]; [done | by apply elem_of_nil in H]).
  - destruct (handle_event_safe ev self disk Hs)
      as (self1 & disk1 & Hev & Hs1 & Hset1 & _ & Hd1 & Hq1).
    destruct (IH self1 disk1 Hs1) as (self' & disk' & Hrest & Hs' & Hset' & Hr' & Hd').
    exists self', disk'. cbn [Game.handle_events]. rewrite Hev. cbn [mbind result_bind].
    split; [exact Hrest|]. split; [done|]. split; [by eapply settled_trans|].
    assert (Game.is_running self = false -> Game.is_running self1 = false) as Hr1
      by (unfold settled in Hset1; tauto).
    split.
    + intros [H|[H|H]%elem_of_cons]; apply Hr'; auto.
      left. by destruct (Hq1 (eq_sym H)).
    + intros [H|[H|H]%elem_of_cons]; apply Hd'; auto.
      left. by destruct (Hq1 (eq_sym H)).
Qed.

(** X30.  The loop honours [QUIT] at the end of the frame in which it
    arrives.  When a batch of events holds a [QUIT] and the frame completes,
    the state that frame leaves is the final state of the run, however many
    frames were still to come: the running flag is cleared, a save file is on
    disk, and the grid still has its shape. *)
Theorem run_ends_on_quit (dt : R) (events : list event) (keys : Keys)
  (frames : list (R * list event * Keys))
  (self : Game.t) (disk : gmap string file) (g : rng)
  (st' : Game.t * gmap string file * rng) :
  World.shaped (Game.world self) ->
  Game.is_running self = true ->
  QUIT ∈ events ->
  Game.frame dt events keys (self, disk, g) = Ok st' ->
  Game.run ((dt, events, keys) :: frames) (self, disk, g) = Ok st' /\
  Game.is_running st'.1.1 = false /\
  is_Some (st'.1.2 !! SAVE_FILE) /\
  World.shaped (Game.world st'.1.1).
Proof.
  intros Hs Hrun Hq Hframe.
  assert (Game.is_running st'.1.1 = false /\ is_Some (st'.1.2 !! SAVE_FILE) /\
          World.shaped (Game.world st'.1.1)) as (Hstop & Hfile & Hs').
  { unfold Game.frame in Hframe.
    destruct (handle_events_run events self disk Hs)
      as (self1 & disk1 & He & Hs1 & _ & Hstop1 & Hsaved1).
    rewrite He in Hframe. cbn [mbind result_bind] in Hframe.
    pose proof (Hstop1 (or_intror Hq)) as Hrun1.
    pose proof (Hsaved1 (or_intror Hq)) as Hfile1.
    inv_bind Hframe. destruct a as [self2 g2]. cbn [mbind result_bind] in Hframe.
    inv_bind Hframe. injection Hframe as <-. cbn [fst snd].
    destruct (Game.paused self1).
    - injection Ha as <- <-. done.
    - apply update_carried in Ha as (Hw & _ & _ & Hr & _).
      rewrite Hr, Hw. done. }
  split; [|done].
  cbn [Game.run fst]. rewrite Hrun, Hframe. cbn [mbind result_bind].
  by apply run_stopped.
Qed.

Lemma meadow_shaped : World.shaped meadow.
Proof.
  unfold World.shaped, meadow. cbn [World.tiles World.w World.h]. split.
  - apply length_replicate.
  - apply Forall_replicate, length_replicate.
Qed.

Lemma quit_frame :
  exists st', Game.frame (1 / 8) [QUIT] (standing false) (spawn, ∅, calm) = Ok st'.
Proof.
  assert (World.shaped (Game.world spawn)) as Hs by exact meadow_shaped.
  destruct (handle_events_run [QUIT] spawn ∅ Hs)
    as (self1 & disk1 & He & Hs1 & Hset & _).
  unfold Game.frame. rewrite He. cbn [mbind result_bind].
  destruct (Game.paused self1).
  - cbn [mbind result_bind].
    destruct (render_tiles_view self1 Hs1) as (shapes & -> & _).
    cbn [mbind result_bind]. eauto.
  - assert (still self1) as Hstill.
    { pose proof spawn_still as (Hq & Hx & Hy).
      destruct Hset as (Sx & Sy & _ & _ & _ & _ & Se & _ & _ & _ & Sw & Sh & _).
      unfold still. rewrite Sx, Sy, Se, Sw, Sh. done. }
    destruct (update_still self1 (1 / 8) false 0 Hstill) as (self2 & Hup & _).
    unfold calm. rewrite Hup. cbn [mbind result_bind].
    assert (World.shaped (Game.world self2)) as Hs2.
    { apply update_carried in Hup as (-> & _). exact Hs1. }
    destruct (render_tiles_view self2 Hs2) as (shapes & -> & _).
    cbn [mbind result_bind]. eauto.
Qed.

(** The window is closed at the spawn point of the default world while two
    more frames were due. *)
Lemma run_ends_on_quit_witness :
  exists st',
    Game.frame (1 / 8) [QUIT] (standing false) (spawn, ∅, calm) = Ok st' /\
    Game.run [(1 / 8, [QUIT], standing false); (1 / 8, [], walk_up); (1 / 8, [], walk_up)]
             (spawn, ∅, calm) = Ok st' /\
    Game.is_running st'.1.1 = false /\
    is_Some (st'.1.2 !! SAVE_FILE) /\
    World.shaped (Game.world st'.1.1).
Proof.
  destruct quit_frame as [st' Hf]. exists st'. split; [exact Hf|].
  apply (run_ends_on_quit (1 / 8) [QUIT] (standing false)
           [(1 / 8, [], walk_up); (1 / 8, [], walk_up)] spawn ∅ calm st');
    [exact meadow_shaped | reflexivity | apply list_elem_of_here | exact Hf].
Defined.
